(** * GNS3 GUI, Dynamips module: client-side device control

    A shallow embedding of
      - [gns3/modules/dynamips/__init__.py]  (class [Dynamips]), and
      - [gns3/modules/dynamips/nodes/frame_relay_switch.py]
        (class [FrameRelaySwitch]),
    together with the properties of the device-control protocol client that
    the specification states about them.

    Python dictionaries whose iteration order is irrelevant to the result are
    finite maps ([gmap string _]); dictionaries that are iterated in order
    (the frame-relay mapping, the image catalogue, request payloads) are
    association lists in insertion order.  Exceptions are values of [exn],
    and methods are functions in a state-and-exception monad over the
    objects they mutate. *)

From Stdlib Require Import ZArith Ascii String.
From stdpp Require Import gmap strings list fin_maps.

Local Open Scope string_scope.
Local Open Scope Z_scope.
Local Open Scope list_scope.

(** ** Python values, exceptions and built-ins *)

Module Py.

(** The values that travel through settings, replies and payloads: JSON
    scalars, and a flat dictionary from strings to strings (the frame-relay
    mapping), kept in insertion order. *)
Inductive pyvalue :=
| VNone
| VBool (b : bool)
| VInt (n : Z)
| VStr (s : string)
| VDict (d : list (string * string)).

Inductive exn :=
| KeyError (key : string)
| ValueError
| AttributeError
| UnboundLocalError (var : string)
| SocketError
| TypeError.

Inductive result (A : Type) :=
| Return (a : A)
| Raise (e : exn).
Arguments Return {A} a.
Arguments Raise {A} e.

#[global] Instance result_ret : MRet result := @Return.
#[global] Instance result_bind : MBind result := λ A B f r,
  match r with
  | Return a => f a
  | Raise e => Raise e
  end.

(** An insertion-ordered dictionary with string keys. *)
Definition dict (V : Type) := list (string * V).

Fixpoint dict_get {V} (d : dict V) (k : string) : option V :=
  match d with
  | [] => None
  | (k', v) :: d' => if String.eqb k' k then Some v else dict_get d' k
  end.

(** [d[k] = v]: overwrite in place when the key exists, append otherwise. *)
Fixpoint dict_set {V} (k : string) (v : V) (d : dict V) : dict V :=
  match d with
  | [] => [(k, v)]
  | (k', v') :: d' =>
      if String.eqb k' k then (k', v) :: d' else (k', v') :: dict_set k v d'
  end.

(** [d[k]] as an expression. *)
Definition getitem {V} (d : dict V) (k : string) : result V :=
  match dict_get d k with
  | Some v => Return v
  | None => Raise (KeyError k)
  end.

(** [m[k]] on a finite map. *)
Definition lookup_item {V} (m : gmap string V) (k : string) : result V :=
  match m !! k with
  | Some v => Return v
  | None => Raise (KeyError k)
  end.

Definition bool_to_Z (b : bool) : Z := if b then 1 else 0.

(** [==] on dictionaries ignores the order of the entries. *)
Definition dict_eq (d1 d2 : list (string * string)) : bool :=
  Nat.eqb (length d1) (length d2)
  && forallb (λ kv, match dict_get d2 kv.1 with
                    | Some v => String.eqb v kv.2
                    | None => false
                    end) d1.

(** Python's [==]: [bool] is a subtype of [int], so [True == 1]. *)
Definition py_eq (a b : pyvalue) : bool :=
  match a, b with
  | VNone, VNone => true
  | VBool x, VBool y => Bool.eqb x y
  | VBool x, VInt y => Z.eqb (bool_to_Z x) y
  | VInt x, VBool y => Z.eqb x (bool_to_Z y)
  | VInt x, VInt y => Z.eqb x y
  | VStr x, VStr y => String.eqb x y
  | VDict x, VDict y => dict_eq x y
  | _, _ => false
  end.

Definition py_ne (a b : pyvalue) : bool := negb (py_eq a b).

(** [s.split(sep)[0]]: the part of [s] before the first [sep], all of [s]
    when [sep] does not occur. *)
Fixpoint split0 (sep : ascii) (s : string) : string :=
  match s with
  | EmptyString => EmptyString
  | String c r => if Ascii.eqb c sep then EmptyString else String c (split0 sep r)
  end.

(** [x in l] and [l.remove(x)] on lists of strings. *)
Definition contains (x : string) (l : list string) : bool :=
  existsb (String.eqb x) l.

Fixpoint remove_first {A} `{EqDecision A} (x : A) (l : list A) : option (list A) :=
  match l with
  | [] => None
  | y :: l' => if decide (y = x) then Some l' else cons y <$> remove_first x l'
  end.

Definition list_remove {A} `{EqDecision A} (x : A) (l : list A) : result (list A) :=
  match remove_first x l with
  | Some l' => Return l'
  | None => Raise ValueError
  end.

(** Text in which every character is an ASCII one. *)
Definition is_ascii (s : string) : Prop :=
  Forall (λ c, (nat_of_ascii c < 128)%nat) (list_ascii_of_string s).

#[global] Instance is_ascii_dec s : Decision (is_ascii s).
Proof. unfold is_ascii. apply _. Defined.

(** [int(s)] for a string of ASCII text: optional surrounding whitespace,
    an optional sign, then decimal digits in groups separated by single
    underscores.  Strings are sequences of bytes here, and on ASCII text
    this is what [int] does.  Outside ASCII, [int] also takes the other
    decimal digits and spaces of Unicode, which this definition does not
    know: what is proved about which strings [int] takes is stated for
    ASCII text ([is_ascii]). *)
Definition is_space (c : ascii) : bool :=
  let n := nat_of_ascii c in
  (Nat.eqb n 32 || (Nat.leb 9 n && Nat.leb n 13))%bool.

Definition digit_of (c : ascii) : option Z :=
  let n := nat_of_ascii c in
  if (Nat.leb 48 n && Nat.leb n 57)%bool then Some (Z.of_nat n - 48) else None.

Fixpoint lstrip (s : string) : string :=
  match s with
  | String c r => if is_space c then lstrip r else s
  | EmptyString => EmptyString
  end.

Fixpoint all_space (s : string) : bool :=
  match s with
  | EmptyString => true
  | String c r => is_space c && all_space r
  end.

(** [digits acc after_digit s]: [after_digit] tells whether the previous
    character was a digit, which is where an underscore or the end of the
    literal may follow. *)
Fixpoint digits (acc : Z) (after_digit : bool) (s : string) : option Z :=
  match s with
  | EmptyString => if after_digit then Some acc else None
  | String c r =>
      match digit_of c with
      | Some d => digits (10 * acc + d) true r
      | None =>
          if after_digit then
            if Ascii.eqb c "_" then
              match r with
              | String c' _ =>
                  match digit_of c' with
                  | Some _ => digits acc false r
                  | None => None
                  end
              | EmptyString => None
              end
            else if all_space s then Some acc else None
          else None
      end
  end.

Definition int (s : string) : result Z :=
  let body := lstrip s in
  let parsed :=
    match body with
    | String "-" r => Z.opp <$> digits 0 false r
    | String "+" r => digits 0 false r
    | _ => digits 0 false body
    end in
  match parsed with
  | Some n => Return n
  | None => Raise ValueError
  end.

End Py.
Export Py.

(** ** Methods as state transformers that may raise *)

Definition M (W A : Type) : Type := W → result A * W.

#[global] Instance M_ret {W} : MRet (M W) := λ A a w, (Return a, w).
#[global] Instance M_bind {W} : MBind (M W) := λ A B f m w,
  match m w with
  | (Return a, w') => f a w'
  | (Raise e, w') => (Raise e, w')
  end.

Definition lift {W A} (r : result A) : M W A := λ w, (r, w).
Definition gets {W A} (f : W → A) : M W A := λ w, (Return (f w), w).
Definition modify {W} (f : W → W) : M W unit := λ w, (Return tt, f w).

(** [for x in l: body(x)] *)
Fixpoint for_each {W A} (l : list A) (body : A → M W unit) : M W unit :=
  match l with
  | [] => mret tt
  | x :: l' => body x ≫= λ _, for_each l' body
  end.

(** ** The settings store

    [QtCore.QSettings] is Qt's persistent key/value store; it is an external
    library, modelled here after its documented behaviour.  Keys are paths
    separated by ["/"].  A [QSettings] object carries a stack of groups; an
    array group numbers its entries from 1 and keeps their count under
    ["size"]. *)

Module QSettings.

Record QSettingsGroup := {
  str : string;
  num : Z;        (* current array index + 1, -1 when not in an entry *)
  maxNum : Z      (* size guess of an array of unknown size, -1 otherwise *)
}.

Record t := {
  store : gmap string pyvalue;
  groupStack : list QSettingsGroup   (* innermost group first *)
}.

Fixpoint string_of_pos_digits (fuel : nat) (n : Z) (acc : string) : string :=
  match fuel with
  | O => acc
  | S fuel' =>
      let acc' := String (ascii_of_nat (Z.to_nat (48 + n mod 10))) acc in
      if n / 10 =? 0 then acc' else string_of_pos_digits fuel' (n / 10) acc'
  end.

(** Decimal rendering of a non-negative number. *)
Definition number (n : Z) : string :=
  string_of_pos_digits (S (Z.to_nat (Z.log2 n))) n "".

Definition toString (g : QSettingsGroup) : string :=
  if 0 <? num g then str g +:+ "/" +:+ number (num g) else str g.

(** The prefix put in front of every key: the groups from the outermost to
    the innermost, each followed by a slash. *)
Fixpoint groupPrefix (stack : list QSettingsGroup) : string :=
  match stack with
  | [] => ""
  | g :: outer => groupPrefix outer +:+ toString g +:+ "/"
  end.

(** [QSettings()]: a handle on the persistent store. *)
Definition open (persisted : gmap string pyvalue) : t :=
  {| store := persisted; groupStack := [] |}.

Definition beginGroup (prefix : string) (q : t) : t :=
  {| store := store q;
     groupStack := {| str := prefix; num := -1; maxNum := -1 |} :: groupStack q |}.

Definition endGroup (q : t) : t :=
  {| store := store q; groupStack := tail (groupStack q) |}.

Definition setValue (key : string) (value : pyvalue) (q : t) : t :=
  {| store := <[groupPrefix (groupStack q) +:+ key := value]> (store q);
     groupStack := groupStack q |}.

(** [starts_with p s]: [p] is a prefix of [s]. *)
Fixpoint starts_with (p s : string) : bool :=
  match p, s with
  | EmptyString, _ => true
  | String a p', String b s' => Ascii.eqb a b && starts_with p' s'
  | String _ _, EmptyString => false
  end.

(** What [remove] keeps when it removes [key]: everything but the setting
    [key] itself and the settings below it. *)
Definition outside (key : string) (entry : string * pyvalue) : Prop :=
  entry.1 ≠ key ∧ starts_with (key +:+ "/") entry.1 = false.

#[global] Instance outside_dec key entry : Decision (outside key entry).
Proof. unfold outside. apply _. Defined.

(** The name of the current group, without the trailing slash. *)
Definition group (q : t) : string :=
  match groupStack q with
  | [] => ""
  | g :: outer => groupPrefix outer +:+ toString g
  end.

(** [remove(key)]: with an empty [key], all the settings of the current
    group; at top level that is the whole store. *)
Definition remove (key : string) (q : t) : t :=
  let theKey := if String.eqb key "" then group q
                else groupPrefix (groupStack q) +:+ key in
  {| store := if String.eqb theKey "" then ∅
              else filter (outside theKey) (store q);
     groupStack := groupStack q |}.

Definition beginWriteArray (prefix : string) (size : Z) (q : t) : t :=
  let q' := {| store := store q;
               groupStack := {| str := prefix; num := -1;
                                maxNum := if size <? 0 then 0 else -1 |}
                             :: groupStack q |} in
  if size <? 0 then remove "size" q' else setValue "size" (VInt size) q'.

Definition setArrayIndex (i : Z) (q : t) : t :=
  match groupStack q with
  | [] => q
  | top :: outer =>
      let n := Z.max i 0 + 1 in
      {| store := store q;
         groupStack :=
           {| str := str top; num := n;
              maxNum := if (negb (maxNum top =? -1) && (maxNum top <? n))%bool
                        then n else maxNum top |} :: outer |}
  end.

Definition endArray (q : t) : t :=
  match groupStack q with
  | [] => q
  | top :: outer =>
      let q' := {| store := store q; groupStack := outer |} in
      if maxNum top =? -1 then q'
      else setValue (str top +:+ "/size") (VInt (maxNum top)) q'
  end.

End QSettings.

(** ** The Dynamips module ([gns3/modules/dynamips/__init__.py]) *)

Module Dynamips.

(** Server connections are objects compared by identity. *)
Abbreviation server := nat.

(** The node classes of [Dynamips.nodes()]; the first seven derive from
    [Router]. *)
Inductive node_class :=
| C1700 | C2600 | C2691 | C3600 | C3725 | C3745 | C7200
| Cloud | EthernetSwitch | EthernetHub | FrameRelaySwitch | ATMSwitch.

Definition is_router (c : node_class) : bool :=
  match c with
  | C1700 | C2600 | C2691 | C3600 | C3725 | C3745 | C7200 => true
  | _ => false
  end.

(** A node as the module sees it: its class, the server it is bound to and
    its settings dictionary. *)
Record node := {
  node_cls : node_class;
  node_server : server;
  node_settings : gmap string pyvalue
}.

(** An image definition is a dictionary of fields; the catalogue maps the
    key ["<server>:<image>"] to its record, in insertion order. *)
Abbreviation ios_image := (gmap string pyvalue).

Record Dynamips := {
  _settings : gmap string pyvalue;
  _ios_images : dict ios_image;
  _servers : list server
}.

(** What the module does to its collaborators. *)
Inductive event :=
| send_notification (srv : server) (method : string) (params : gmap string pyvalue)
| connect (srv : server)
| setup (n : node) (args : list pyvalue).

Record world := {
  this : Dynamips;
  persisted : gmap string pyvalue;      (* the QSettings store *)
  local_server : server;                (* Servers.instance().localServer() *)
  connected : bool;                     (* local_server.connected *)
  trace : list event
}.

Definition set_this (f : Dynamips → Dynamips) (w : world) : world :=
  {| this := f (this w); persisted := persisted w; local_server := local_server w;
     connected := connected w; trace := trace w |}.

Definition set_persisted (p : gmap string pyvalue) (w : world) : world :=
  {| this := this w; persisted := p; local_server := local_server w;
     connected := connected w; trace := trace w |}.

Definition set_connected (b : bool) (w : world) : world :=
  {| this := this w; persisted := persisted w; local_server := local_server w;
     connected := b; trace := trace w |}.

Definition emit (e : event) : M world unit :=
  modify (λ w, {| this := this w; persisted := persisted w;
                  local_server := local_server w; connected := connected w;
                  trace := trace w ++ [e] |}).

(** The object after [__init__]: settings and images as loaded from the
    store, and no server yet. *)
Definition init (settings : gmap string pyvalue) (images : dict ios_image) : Dynamips :=
  {| _settings := settings; _ios_images := images; _servers := [] |}.

Definition _saveSettings : M world unit :=
  modify (λ w,
    let settings := QSettings.open (persisted w) in
    let settings := QSettings.beginGroup "Dynamips" settings in
    let settings := map_fold QSettings.setValue settings (_settings (this w)) in
    let settings := QSettings.endGroup settings in
    set_persisted (QSettings.store settings) w).

(** One turn of the loop over the catalogue in [_saveIOSImages]. *)
Definition write_image (st : QSettings.t * Z) (image : ios_image) : QSettings.t * Z :=
  let settings := QSettings.setArrayIndex st.2 st.1 in
  (map_fold QSettings.setValue settings image, st.2 + 1).

Definition _saveIOSImages : M world unit :=
  modify (λ w,
    let images := _ios_images (this w) in
    let settings := QSettings.open (persisted w) in
    let settings := QSettings.beginGroup "IOS_images" settings in
    let settings := QSettings.remove "" settings in
    let settings :=
      QSettings.beginWriteArray "ios_image" (Z.of_nat (length images)) settings in
    let settings := (foldl write_image (settings, 0) images.*2).1 in
    let settings := QSettings.endArray settings in
    let settings := QSettings.endGroup settings in
    set_persisted (QSettings.store settings) w).

Definition addServer (srv : server) : M world unit :=
  modify (set_this (λ d, {| _settings := _settings d; _ios_images := _ios_images d;
                            _servers := _servers d ++ [srv] |})) ;;
  settings ← gets (λ w, _settings (this w));
  emit (send_notification srv "dynamips.settings" settings).

Definition removeServer (srv : server) : M world unit :=
  servers ← gets (λ w, _servers (this w));
  servers' ← lift (list_remove srv servers);
  modify (set_this (λ d, {| _settings := _settings d; _ios_images := _ios_images d;
                            _servers := servers' |})).

Definition servers : M world (list server) := gets (λ w, _servers (this w)).

Definition setIOSImages (new_ios_images : dict ios_image) : M world unit :=
  modify (set_this (λ d, {| _settings := _settings d; _ios_images := new_ios_images;
                            _servers := _servers d |})) ;;
  _saveIOSImages.

(** [entry] is a key of the new settings whose value is not [==] to the
    current one. *)
Definition differs (current : gmap string pyvalue) (entry : string * pyvalue) : Prop :=
  ∃ old, current !! entry.1 = Some old ∧ py_ne old entry.2 = true.

#[global] Instance differs_dec current entry : Decision (differs current entry).
Proof.
  unfold differs. destruct (current !! entry.1) as [old|].
  - destruct (py_ne old entry.2) eqn:E.
    + left. eauto.
    + right. intros (o & [= <-] & H). congruence.
  - right. intros (o & Ho & _). discriminate.
Defined.

(** The loop of [setSettings] that collects the changed keys; it raises
    [KeyError] at a key the current settings do not have.  The new
    settings are a finite map here: when several keys are unknown, the one
    that the loop meets first is not fixed by it, and what is proved of
    the exception names the key existentially. *)
Definition changed_params (current settings : gmap string pyvalue)
  : result (gmap string pyvalue) :=
  map_fold (λ name value acc,
              params ← acc;
              old ← lookup_item current name;
              mret (if py_ne old value then <[name := value]> params else params))
           (mret ∅) settings.

Definition setSettings (settings : gmap string pyvalue) : M world unit :=
  current ← gets (λ w, _settings (this w));
  params ← lift (changed_params current settings);
  (if bool_decide (params = ∅) then mret tt
   else
     servers ← gets (λ w, _servers (this w));
     for_each servers (λ srv, emit (send_notification srv "dynamips.settings" params))) ;;
  modify (set_this (λ d, {| _settings := settings ∪ _settings d;
                            _ios_images := _ios_images d;
                            _servers := _servers d |})) ;;
  _saveSettings.

(** [server.connect()]: [reachable] says whether the server accepts the
    connection; otherwise [socket.error] is raised. *)
Definition server_connect (reachable : bool) : M world unit :=
  srv ← gets local_server;
  emit (connect srv) ;;
  if reachable then modify (set_connected true) else lift (Raise SocketError).

(** [createNode] returns the new node, or [None] when the local server
    cannot be reached. *)
Definition createNode (cls : node_class) (reachable : bool)
  : M world (option (node_class * server)) :=
  λ w,
    let srv := local_server w in
    let attempt := if connected w then mret tt else server_connect reachable in
    match attempt w with
    | (Raise SocketError, w') => (Return None, w')
    | (Raise e, w') => (Raise e, w')
    | (Return _, w') =>
        (addServer srv ≫= λ _,
         mret (Some (cls, srv))) w'
    end.

(** The loop of [_allocateIOSImage]: the first record whose platform is the
    wanted one, [None] when the loop finds nothing. *)
Fixpoint first_image (platform : pyvalue) (images : list ios_image)
  : result (option ios_image) :=
  match images with
  | [] => mret None
  | image :: rest =>
      p ← lookup_item image "platform";
      if py_eq p platform then mret (Some image) else first_image platform rest
  end.

Definition _allocateIOSImage (n : node) : M world (option ios_image) :=
  platform ← lift (lookup_item (node_settings n) "platform");
  images ← gets (λ w, _ios_images (this w));
  lift (first_image platform images.*2).

Definition setupNode (n : node) : M world unit :=
  if is_router (node_cls n) then
    ios_image ← _allocateIOSImage n;
    emit (setup n [VStr "/home/grossmj/Documents/IOS images/c3725-adventerprisek9-mz.124-15.T14.image";
                   VInt 128])
  else
    emit (setup n []).

(** The settings outside the ["IOS_images"] group. *)
Definition others (s : gmap string pyvalue) : gmap string pyvalue :=
  filter (QSettings.outside "IOS_images") s.

(** The group that [beginGroup("IOS_images")] pushes. *)
Definition images_group : QSettings.QSettingsGroup :=
  {| QSettings.str := "IOS_images"; QSettings.num := -1; QSettings.maxNum := -1 |}.

(** While the catalogue is written the handle is inside the array group,
    whose size is known, and only the ["IOS_images"] group has changed. *)
Definition writing (s : gmap string pyvalue) (q : QSettings.t) : Prop :=
  others (QSettings.store q) = others s
  ∧ ∃ g, QSettings.groupStack q = [g; images_group] ∧ QSettings.maxNum g = -1.

(** What [_saveIOSImages] leaves in the store, as a function of the
    catalogue and of the store it starts from. *)
Definition saved (images : dict ios_image) (s : gmap string pyvalue)
  : gmap string pyvalue :=
  (_saveIOSImages {| this := init ∅ images; persisted := s; local_server := 0%nat;
                     connected := false; trace := [] |}).2.(persisted).

(** The payloads of the notifications that [events] hold for [srv], in
    order. *)
Definition notified (srv : server) (events : list event)
  : list (string * gmap string pyvalue) :=
  omap (λ e, match e with
             | send_notification s method params =>
                 if decide (s = srv) then Some (method, params) else None
             | _ => None
             end) events.

(** A caller's use of the server registry, one call at a time. *)
Inductive call :=
| AddServer (srv : server)
| RemoveServer (srv : server)
| CreateNode (cls : node_class) (reachable : bool).

Definition run_call (c : call) : M world unit :=
  match c with
  | AddServer srv => addServer srv
  | RemoveServer srv => removeServer srv
  | CreateNode cls reachable => createNode cls reachable ≫= λ _, mret tt
  end.

(** The world after a sequence of calls.  Whether a call returns or raises
    is the caller's to handle; what the module holds carries over to the
    next call either way. *)
Definition run_calls (cs : list call) (w : world) : world :=
  foldl (λ w c, (run_call c w).2) w cs.

(** The server a call is about to append to the list, if any. *)
Definition registers (c : call) (w : world) : option server :=
  match c with
  | AddServer srv => Some srv
  | RemoveServer _ => None
  | CreateNode _ reachable =>
      if (connected w || reachable)%bool then Some (local_server w) else None
  end.

(** Every call of the sequence that appends a server appends one that is
    not in the list at that moment. *)
Fixpoint registers_new (cs : list call) (w : world) : Prop :=
  match cs with
  | [] => True
  | c :: cs' =>
      match registers c w with
      | Some srv => srv ∉ _servers (this w)
      | None => True
      end ∧ registers_new cs' (run_call c w).2
  end.

(** A world around a freshly constructed module. *)
Definition fresh_world (settings : gmap string pyvalue) (images : dict ios_image)
    (store : gmap string pyvalue) (local : server) : world :=
  {| this := init settings images; persisted := store; local_server := local;
     connected := false; trace := [] |}.

End Dynamips.

(** ** The frame-relay switch
    ([gns3/modules/dynamips/nodes/frame_relay_switch.py]) *)

Module FRSW.

Abbreviation server := nat.

(** [Port] and NIO objects are shared and mutated in place, so a port is
    known by its address in a heap of port objects. *)
Abbreviation loc := nat.

(** An NIO object: [NIO_UDP] carries the local port, the remote host and
    the remote port; every other kind is opaque here. *)
Inductive NIO :=
| NIO_UDP (lport : Z) (rhost : string) (rport : Z)
| NIO_other (kind : string).

(** Modelled from the spec: the [Port] / [SerialPort] classes ([gns3.ports])
    are not among the sources.  A port has a slot label [name], the bound
    interface [nio] ([None] means free), and the number that [update]
    stores in its [port] attribute. *)
Record Port := {
  name : string;
  port : option Z;
  nio : option NIO
}.

#[global] Instance Port_inhabited : Inhabited Port :=
  populate {| name := ""; port := None; nio := None |}.

(** [SerialPort(port_name)] *)
Definition SerialPort (port_name : string) : Port :=
  {| name := port_name; port := None; nio := None |}.

Definition isFree (p : Port) : bool :=
  match nio p with
  | None => true
  | Some _ => false
  end.

(** The object's [_settings] dictionary always has exactly the two keys
    ["name"] and ["mapping"]. *)
Record FrameRelaySwitch := {
  _server : server;
  _frsw_id : pyvalue;
  _ports : list loc;
  _settings_name : pyvalue;
  _settings_mapping : dict string
}.

(** The bound methods handed to [send_message]. *)
Inductive callback :=
| setupCallback_ | _deleteCallback_ | _addNIOCallback_ | deleteNIOCallback_.

(** What the node does to the outside: messages to its server and signals
    to its observers, in the order they happen.  (Logging is left out; the
    dictionary lookups made for the log messages are kept.) *)
Inductive event :=
| send_message (srv : server) (method : string) (params : option (dict pyvalue))
    (cb : callback)
| newname_signal (new_name : pyvalue)
| delete_links_signal
| delete_signal
| error_signal (node_name code message : pyvalue).

Record world := {
  heap : list Port;
  this : FrameRelaySwitch;
  trace : list event
}.

(** [FrameRelaySwitch(server)] *)
Definition init (srv : server) : FrameRelaySwitch :=
  {| _server := srv; _frsw_id := VNone; _ports := [];
     _settings_name := VStr ""; _settings_mapping := [] |}.

Definition set_heap (f : list Port → list Port) (w : world) : world :=
  {| heap := f (heap w); this := this w; trace := trace w |}.

Definition set_this (f : FrameRelaySwitch → FrameRelaySwitch) (w : world) : world :=
  {| heap := heap w; this := f (this w); trace := trace w |}.

Definition set_frsw_id (v : pyvalue) (n : FrameRelaySwitch) : FrameRelaySwitch :=
  {| _server := _server n; _frsw_id := v; _ports := _ports n;
     _settings_name := _settings_name n; _settings_mapping := _settings_mapping n |}.

Definition set_ports (ps : list loc) (n : FrameRelaySwitch) : FrameRelaySwitch :=
  {| _server := _server n; _frsw_id := _frsw_id n; _ports := ps;
     _settings_name := _settings_name n; _settings_mapping := _settings_mapping n |}.

Definition set_name (v : pyvalue) (n : FrameRelaySwitch) : FrameRelaySwitch :=
  {| _server := _server n; _frsw_id := _frsw_id n; _ports := _ports n;
     _settings_name := v; _settings_mapping := _settings_mapping n |}.

Definition set_mapping (m : dict string) (n : FrameRelaySwitch) : FrameRelaySwitch :=
  {| _server := _server n; _frsw_id := _frsw_id n; _ports := _ports n;
     _settings_name := _settings_name n; _settings_mapping := m |}.

Definition emit (e : event) : M world unit :=
  modify (λ w, {| heap := heap w; this := this w; trace := trace w ++ [e] |}).

(** Reading a port object through its reference.  A reference held by a
    program always points to an object; the default only makes the lookup
    total. *)
Definition deref (l : loc) : M world Port := gets (λ w, heap w !!! l).

(** A new object on the heap, and its address. *)
Definition alloc (p : Port) : M world loc :=
  λ w, (Return (length (heap w)), set_heap (λ h, h ++ [p]) w).

Definition port_number (p : Port) : pyvalue :=
  match port p with
  | Some n => VInt n
  | None => VNone
  end.

Definition setup : M world unit :=
  srv ← gets (λ w, _server (this w));
  emit (send_message srv "dynamips.frsw.create" None setupCallback_).

Definition setupCallback (response : gmap string pyvalue) (error : bool) : M world unit :=
  id ← lift (lookup_item response "id");
  modify (set_this (set_frsw_id id)) ;;
  new_name ← lift (lookup_item response "name");
  modify (set_this (set_name new_name)) ;;
  current ← gets (λ w, _settings_name (this w));
  emit (newname_signal current).

Definition delete : M world unit :=
  emit delete_links_signal ;;
  srv ← gets (λ w, _server (this w));
  id ← gets (λ w, _frsw_id (this w));
  emit (send_message srv "dynamips.frsw.delete" (Some [("id", id)]) _deleteCallback_).

Definition _deleteCallback (result : gmap string pyvalue) (error : bool) : M world unit :=
  if error then
    _ ← lift (lookup_item result "message");
    node_name ← gets (λ w, _settings_name (this w));
    code ← lift (lookup_item result "code");
    message ← lift (lookup_item result "message");
    emit (error_signal node_name code message)
  else
    emit delete_signal.

(** The first loop of [update]: the endpoint labels of the mapping, each
    once, in order of first appearance. *)
Definition add_label (label : string) (ports_to_create : list string) : list string :=
  if contains label ports_to_create then ports_to_create
  else ports_to_create ++ [label].

Definition endpoint_labels (mapping : dict string) : list string :=
  foldl (λ ports_to_create entry,
           add_label (split0 ":" entry.2)
             (add_label (split0 ":" entry.1) ports_to_create))
        [] mapping.

(** The second loop of [update], over a copy of the ports list. *)
Fixpoint reconcile (copy : list loc) (ports_to_create : list string)
  : M world (list string) :=
  match copy with
  | [] => mret ports_to_create
  | p :: rest =>
      obj ← deref p;
      if isFree obj then
        ports ← gets (λ w, _ports (this w));
        ports' ← lift (list_remove p ports);
        modify (set_this (set_ports ports')) ;;
        reconcile rest ports_to_create
      else
        ports_to_create' ← lift (list_remove (name obj) ports_to_create);
        reconcile rest ports_to_create'
  end.

(** The body of the third loop of [update].  When [int] raises, the port
    object just constructed is on the heap but in no list. *)
Definition create_port (port_name : string) : M world unit :=
  p ← alloc (SerialPort port_name);
  n ← lift (int port_name);
  modify (set_heap (alter (λ obj, {| name := name obj; port := Some n;
                                     nio := nio obj |}) p)) ;;
  modify (set_this (λ n, set_ports (_ports n ++ [p]) n)).

Definition update (new_settings : gmap string pyvalue) : M world unit :=
  value ← lift (lookup_item new_settings "mapping");
  match value with
  | VDict mapping =>
      let ports_to_create := endpoint_labels mapping in
      copy ← gets (λ w, _ports (this w));
      ports_to_create ← reconcile copy ports_to_create;
      for_each ports_to_create create_port ;;
      modify (set_this (set_mapping mapping))
  | _ => lift (Raise AttributeError)
  end.

(** One turn of the loop of [addNIO] over the current mapping. *)
Definition nio_mapping_step (port_name : string) (acc : dict string)
    (entry : string * string) : dict string :=
  let acc :=
    if String.eqb port_name (split0 ":" entry.1)
    then dict_set entry.1 entry.2 acc else acc in
  if String.eqb port_name (split0 ":" entry.2)
  then dict_set entry.2 entry.1 acc else acc.

(** The loop of [addNIO] that fills [params["mapping"]]. *)
Definition nio_mapping (port_name : string) (mapping : dict string) : dict string :=
  foldl (nio_mapping_step port_name) [] mapping.

Definition addNIO (port_ref : loc) (n : NIO) : M world unit :=
  obj ← deref port_ref;
  id ← gets (λ w, _frsw_id (this w));
  let params :=
    match n with
    | NIO_UDP lport rhost rport =>
        Return [("id", id); ("nio", VStr "NIO_UDP"); ("port", port_number obj);
                ("lport", VInt lport); ("rhost", VStr rhost); ("rport", VInt rport)]
    | NIO_other _ => Raise (UnboundLocalError "params")
    end in
  params ← lift params;
  mapping ← gets (λ w, _settings_mapping (this w));
  let params := dict_set "mapping" (VDict (nio_mapping (name obj) mapping)) params in
  srv ← gets (λ w, _server (this w));
  emit (send_message srv "dynamips.frsw.add_nio" (Some params) _addNIOCallback_).

Definition deleteNIO (port_ref : loc) : M world unit :=
  obj ← deref port_ref;
  id ← gets (λ w, _frsw_id (this w));
  let params := [("id", id); ("port", port_number obj)] in
  modify (set_heap (alter (λ obj, {| name := name obj; port := port obj;
                                     nio := None |}) port_ref)) ;;
  srv ← gets (λ w, _server (this w));
  emit (send_message srv "dynamips.frsw.delete_nio" (Some params) deleteNIOCallback_).

(** [deleteNIO] with the call of the server left open.
    [self._server.send_message(...)] is a call into another object: the
    server's method runs at that moment, on the state as it then is, and
    the port objects are shared with it.  [send] is what that method does
    with the message; [deleteNIO] is the case in which it records it. *)
Definition deleteNIO_with (send : event → M world unit) (port_ref : loc)
  : M world unit :=
  obj ← deref port_ref;
  id ← gets (λ w, _frsw_id (this w));
  let params := [("id", id); ("port", port_number obj)] in
  modify (set_heap (alter (λ obj, {| name := name obj; port := port obj;
                                     nio := None |}) port_ref)) ;;
  srv ← gets (λ w, _server (this w));
  send (send_message srv "dynamips.frsw.delete_nio" (Some params) deleteNIOCallback_).

(** The current mapping restricted to the entries that touch
    [port_name], as source or as destination. *)
Definition touches (port_name : string) (entry : string * string) : bool :=
  (String.eqb port_name (split0 ":" entry.1)
   || String.eqb port_name (split0 ":" entry.2))%bool.

Definition restricted_mapping (port_name : string) (mapping : dict string)
  : dict string :=
  List.filter (touches port_name) mapping.

(** A port that carries an interface. *)
Definition bound (h : list Port) (l : loc) : Prop := isFree (h !!! l) = false.

#[global] Instance bound_dec h l : Decision (bound h l).
Proof. unfold bound. apply _. Defined.

(** There is a port with this label in the ports list. *)
Definition has_port (w : world) (label : string) : Prop :=
  ∃ l p, l ∈ _ports (this w) ∧ heap w !! l = Some p ∧ name p = label.

(** The label is the part before the first colon of some source or
    destination of the mapping. *)
Definition is_label (mapping : dict string) (label : string) : Prop :=
  ∃ source destination, (source, destination) ∈ mapping
    ∧ (label = split0 ":" source ∨ label = split0 ":" destination).

(** Sample worlds: a switch with the id 7 on server 0 whose first port,
    named ["1"], carries a UDP NIO, and whose second port is free. *)
Definition sample_switch (second_name : string) (mapping : dict string) : world :=
  {| heap := [ {| name := "1"; port := Some 1;
                  nio := Some (NIO_UDP 10001 "127.0.0.1" 10002) |};
               {| name := second_name; port := None; nio := None |} ];
     this := set_mapping mapping
               (set_ports [1%nat; 0%nat] (set_frsw_id (VInt 7) (init 0%nat)));
     trace := [] |}.

Definition sample_settings (mapping : dict string) : gmap string pyvalue :=
  {[ "mapping" := VDict mapping ]}.

End FRSW.

(** ** Views of a switch, to state what [update] leaves behind *)

Module FRSWView.
Import FRSW.

(** The name of the port object behind a reference. *)
Definition name_at (h : list Port) (l : loc) : string := name (h !!! l).

(** The names of the ports of the ports list, in order. *)
Definition port_names (w : world) : list string :=
  name_at (heap w) <$> _ports (this w).

(** The names of the ports of the list that carry an interface. *)
Definition bound_names (w : world) : list string :=
  name_at (heap w) <$> filter (bound (heap w)) (_ports (this w)).

(** [int(s)] returns. *)
Definition is_int (s : string) : Prop := ∃ n, int s = Return n.

(** The port object that the third loop of [update] makes for a name. *)
Definition created (port_name : string) (obj : Port) : Prop :=
  ∃ n, int port_name = Return n
       ∧ obj = {| name := port_name; port := Some n; nio := None |}.

End FRSWView.

(** ** Views of the persisted settings *)

Module DynamipsStore.
Import Dynamips.

(** The key under which [_saveSettings] keeps the setting [name]. *)
Definition settings_key (name : string) : string := "Dynamips/" +:+ name.

(** A dictionary value has no key twice. *)
Definition well_formed (v : pyvalue) : Prop :=
  match v with
  | VDict d => NoDup d.*1
  | _ => True
  end.

End DynamipsStore.

(** ** The entry point ([gns3/main.py]) *)

Module Main.

(** [s.split(sep)] for a one-character separator: all the pieces. *)
Fixpoint split (sep : ascii) (s : string) : list string :=
  match s with
  | EmptyString => [EmptyString]
  | String c r =>
      if Ascii.eqb c sep then EmptyString :: split sep r
      else match split sep r with
           | piece :: pieces => String c piece :: pieces
           | [] => [String c EmptyString]
           end
  end.

(** [[int(i) for i in pieces]]: the first piece that is no integer
    literal raises. *)
Fixpoint ints (pieces : list string) : result (list Z) :=
  match pieces with
  | [] => mret []
  | piece :: rest => n ← int piece; ns ← ints rest; mret (n :: ns)
  end.

(** [version = lambda version_string: [int(i) for i in version_string.split('.')]] *)
Definition version (version_string : string) : result (list Z) :=
  ints (split "." version_string).

(** [a < b] on lists (and tuples) of integers: the first difference
    decides, and a proper prefix is smaller. *)
Fixpoint list_lt (a b : list Z) : bool :=
  match a, b with
  | _, [] => false
  | [], _ :: _ => true
  | x :: a', y :: b' => if x =? y then list_lt a' b' else x <? y
  end.

(** What [main] reads from its surroundings.  [sys.version_info] is given
    by its three numbers (the comparisons in [main] never get past the
    second); [qt_importable] says whether [from gns3.qt import ...]
    succeeds. *)
Record environment := {
  gns3_version : string;          (* gns3.version.__version__ *)
  current_year : Z;               (* datetime.date.today().year *)
  major : Z;
  minor : Z;
  micro : Z;
  qt_importable : bool;
  QT_VERSION_STR : string;
  DEFAULT_BINDING : string;
  BINDING_VERSION_STR : string;
  platform : string               (* sys.platform *)
}.

Inductive event :=
| print (text : string)
| basicConfig_INFO
| QApplication
| setOrganizationName (s : string)
| setOrganizationDomain (s : string)
| setApplicationName (s : string)
| setDefaultFormat_IniFormat
| MainWindow_show
| exec_.

Inductive error :=
| RuntimeError (message : string)
| Uncaught (e : exn).

(** The version checks of [main], in order; [None] when all pass. *)
Definition requirements (env : environment) : option error :=
  let version_info := [major env; minor env; micro env] in
  if list_lt version_info [2; 7] then
    Some (RuntimeError "Python 2.7 or higher is required")
  else if ((major env =? 3) && list_lt version_info [3; 3])%bool then
    Some (RuntimeError "Python 3.3 or higher is required")
  else if negb (qt_importable env) then
    Some (RuntimeError
            "Can't import Qt modules, Python binding is probably not installed...")
  else
    match version (QT_VERSION_STR env) with
    | Raise e => Some (Uncaught e)
    | Return qt =>
        if list_lt qt [4; 6] then
          Some (RuntimeError ("Requirement is Qt version 4.6 or higher, got version "
                              +:+ QT_VERSION_STR env))
        else
          let binding_older_than (name : string) (required : list Z)
              (message : string) (next : option error) : option error :=
            if String.eqb (DEFAULT_BINDING env) name then
              match version (BINDING_VERSION_STR env) with
              | Raise e => Some (Uncaught e)
              | Return binding =>
                  if list_lt binding required then
                    Some (RuntimeError (message +:+ BINDING_VERSION_STR env))
                  else next
              end
            else next in
          binding_older_than "PyQt" [4; 8; 3]
            "Requirement is PyQt version 4.8.3 or higher, got version "
            (binding_older_than "PySide" [1; 0]
               "Requirement is PySide version 1.0 or higher, got version "
               None)
    end.

(** The banner that [main] always prints first. *)
Definition banner (env : environment) : list event :=
  [ print ("GNS3 GUI version " +:+ gns3_version env);
    print ("Copyright (c) 2007-" +:+ QSettings.number (current_year env)
           +:+ " GNS3 Technologies Inc.") ].

(** [main()]: what it does, in order, and the exception that ends it, if
    any. *)
Definition main (env : environment) : list event * option error :=
  match requirements env with
  | Some e => (banner env, Some e)
  | None =>
      (banner env
       ++ [ basicConfig_INFO; QApplication;
            setOrganizationName "GNS3"; setOrganizationDomain "gns3.net";
            setApplicationName "GNS3" ]
       ++ (if QSettings.starts_with "win" (platform env)
           then [setDefaultFormat_IniFormat] else [])
       ++ [ MainWindow_show; exec_ ],
       None)
  end.

(** [v] is at least the required version: at the first number where they
    differ [v] has the larger one, and [v] has every number that is
    required. *)
Fixpoint at_least (required v : list Z) : Prop :=
  match required with
  | [] => True
  | r :: required' =>
      ∃ x v', v = x :: v' ∧ (r < x ∨ x = r ∧ at_least required' v')
  end.

(** A sample environment: CPython 3.3.2 with PyQt 4.10.3 on Qt 4.8.5. *)
Definition sample_environment (qt binding os : string) : environment :=
  {| gns3_version := "1.0a1"; current_year := 2014;
     major := 3; minor := 3; micro := 2; qt_importable := true;
     QT_VERSION_STR := qt; DEFAULT_BINDING := "PyQt";
     BINDING_VERSION_STR := binding; platform := os |}.

(** The Python versions that [main] accepts. *)
Definition python_supported (env : environment) : Prop :=
  major env = 2 ∧ 7 ≤ minor env ∨ major env = 3 ∧ 3 ≤ minor env ∨ 4 ≤ major env.

(** The requirement on the binding [name], as [main] checks it. *)
Definition binding_ok (env : environment) (name : string) (required : list Z) : Prop :=
  DEFAULT_BINDING env = name →
  ∃ binding, version (BINDING_VERSION_STR env) = Return binding
             ∧ at_least required binding.

End Main.

(** ** Reading the settings store

    The reading side of [QtCore.QSettings], modelled after its documented
    behaviour like the writing side above. *)

Module QSettingsRead.
Import QSettings.

(** [value(key, default)]: the setting [key] of the current group, or
    [default] when there is none. *)
Definition value (key : string) (default : pyvalue) (q : t) : pyvalue :=
  match store q !! (groupPrefix (groupStack q) +:+ key) with
  | Some v => v
  | None => default
  end.

(** [beginReadArray(prefix)] enters the array group and returns the number
    kept under its ["size"], 0 when there is none; [toInt] is the
    conversion of a stored value to an integer. *)
Definition beginReadArray (toInt : pyvalue → Z) (prefix : string) (q : t) : Z * t :=
  let q' := {| store := store q;
               groupStack := {| str := prefix; num := -1; maxNum := -1 |}
                             :: groupStack q |} in
  (match store q' !! (groupPrefix (groupStack q') +:+ "size") with
   | Some v => toInt v
   | None => 0
   end, q').

End QSettingsRead.

(** ** Dynamips: loading the settings and the image catalogue
    ([_loadSettings], [_loadIOSImages], [__init__]; the tables of
    [gns3/modules/dynamips/settings.py]) *)

Module DynamipsLoad.
Import Dynamips.

(** The Python types named in [DYNAMIPS_SETTING_TYPES]. *)
Inductive setting_type := str_ | int_ | bool_.

Section Loading.

(** The default path of the Dynamips executable, which [settings.py]
    chooses from [sys.platform] when it is imported. *)
Variable DEFAULT_DYNAMIPS_PATH : string.

(** What the Qt binding does, taken as given: the conversion of a value
    to the type asked for with [type=], which raises when the value does
    not convert; the conversion of the stored array size to an integer,
    which Qt does itself and which never raises; and the text that
    [str.format] puts in place of a value. *)
Variable convert : setting_type → pyvalue → result pyvalue.
Variable toInt : pyvalue → Z.
Variable format : pyvalue → string.

Definition DYNAMIPS_SETTINGS : dict pyvalue :=
  [ ("path", VStr DEFAULT_DYNAMIPS_PATH);
    ("base_hypervisor_port", VInt 7200);
    ("base_console_port", VInt 2101);
    ("base_aux_port", VInt 2501);
    ("allocate_hypervisor_per_device", VBool true);
    ("memory_usage_limit_per_hypervisor", VInt 1024);
    ("allocate_hypervisor_per_ios_image", VBool true);
    ("base_udp_port", VInt 10001);
    ("udp_incrementation_per_hypervisor", VInt 100);
    ("ghost_ios_support", VBool true);
    ("jit_sharing_support", VBool false);
    ("sparse_memory_support", VBool true);
    ("mmap_support", VBool true) ].

Definition DYNAMIPS_SETTING_TYPES : dict setting_type :=
  [ ("path", str_);
    ("base_hypervisor_port", int_);
    ("base_console_port", int_);
    ("base_aux_port", int_);
    ("allocate_hypervisor_per_device", bool_);
    ("memory_usage_limit_per_hypervisor", int_);
    ("allocate_hypervisor_per_ios_image", bool_);
    ("base_udp_port", int_);
    ("udp_incrementation_per_hypervisor", int_);
    ("ghost_ios_support", bool_);
    ("jit_sharing_support", bool_);
    ("sparse_memory_support", bool_);
    ("mmap_support", bool_) ].

(** [self._settings[name] = v] *)
Definition set_setting (name : string) (v : pyvalue) : world → world :=
  set_this (λ d, {| _settings := <[name := v]> (_settings d);
                    _ios_images := _ios_images d; _servers := _servers d |}).

(** The body of the loop of [_loadSettings], for the tables [types]. *)
Definition load_setting (types : dict setting_type) (settings : QSettings.t)
    (item : string * pyvalue) : M world unit :=
  t ← lift (getitem types item.1);
  v ← lift (convert t (QSettingsRead.value item.1 item.2 settings));
  modify (set_setting item.1 v).

Definition _loadSettings : M world unit :=
  settings ← gets (λ w, QSettings.beginGroup "Dynamips" (QSettings.open (persisted w)));
  for_each DYNAMIPS_SETTINGS (load_setting DYNAMIPS_SETTING_TYPES settings).

(** The record that one turn of the loop of [_loadIOSImages] reads at the
    current array index, and the key it files it under; the turn raises
    when the memory size does not convert. *)
Definition read_image (settings : QSettings.t) : result (string * ios_image) :=
  let path := QSettingsRead.value "path" (VStr "") settings in
  let image := QSettingsRead.value "image" (VStr "") settings in
  let startup_config := QSettingsRead.value "image" (VStr "") settings in
  let platform := QSettingsRead.value "platform" (VStr "") settings in
  let chassis := QSettingsRead.value "chassis" (VStr "") settings in
  let idlepc := QSettingsRead.value "idlepc" (VStr "") settings in
  ram ← convert int_ (QSettingsRead.value "ram" (VInt 128) settings);
  let server := QSettingsRead.value "server" (VStr "local") settings in
  mret (format server +:+ ":" +:+ format image,
        ({[ "path" := path; "image" := image; "startup-config" := startup_config;
            "platform" := platform; "chassis" := chassis; "idlepc" := idlepc;
            "ram" := ram; "server" := server ]} : ios_image)).

(** [self._ios_images[key] = record] *)
Definition set_image (entry : string * ios_image) : world → world :=
  set_this (λ d, {| _settings := _settings d;
                    _ios_images := dict_set entry.1 entry.2 (_ios_images d);
                    _servers := _servers d |}).

(** The loop of [_loadIOSImages] over the indices. *)
Fixpoint load_images (settings : QSettings.t) (indices : list Z) : M world unit :=
  match indices with
  | [] => mret tt
  | index :: rest =>
      let settings := QSettings.setArrayIndex index settings in
      entry ← lift (read_image settings);
      modify (set_image entry) ;;
      load_images settings rest
  end.

Definition _loadIOSImages : M world unit :=
  opened ← gets (λ w, QSettingsRead.beginReadArray toInt "ios_image"
                        (QSettings.beginGroup "IOS_images"
                           (QSettings.open (persisted w))));
  load_images opened.2 (seqZ 0 opened.1).

(** [Dynamips()] *)
Definition __init__ : M world unit :=
  modify (set_this (λ _, {| _settings := ∅; _ios_images := []; _servers := [] |})) ;;
  _loadSettings ;;
  _loadIOSImages.

(** An image definition with the eight fields that [_loadIOSImages]
    gives a record, as it gives them: the startup configuration is read
    from the image name, and the memory size is an integer. *)
Definition image_record (path image platform chassis idlepc server : pyvalue) (ram : Z)
  : ios_image :=
  {[ "path" := path; "image" := image; "startup-config" := image;
     "platform" := platform; "chassis" := chassis; "idlepc" := idlepc;
     "ram" := VInt ram; "server" := server ]}.

(** An entry of the catalogue as [_loadIOSImages] files it. *)
Definition loaded_entry (entry : string * ios_image) : Prop :=
  ∃ path image platform chassis idlepc server stored ram,
    convert int_ stored = Return ram
    ∧ entry.2 = {[ "path" := path; "image" := image; "startup-config" := image;
                   "platform" := platform; "chassis" := chassis; "idlepc" := idlepc;
                   "ram" := ram; "server" := server ]}
    ∧ entry.1 = format server +:+ ":" +:+ format image.

(** An entry that a save and a load give back as it is: its memory size
    is an integer that the binding reads back unchanged. *)
Definition canonical_entry (entry : string * ios_image) : Prop :=
  ∃ path image platform chassis idlepc server ram,
    entry.2 = image_record path image platform chassis idlepc server ram
    ∧ entry.1 = format server +:+ ":" +:+ format image
    ∧ convert int_ (VInt ram) = Return (VInt ram).

End Loading.

End DynamipsLoad.

(** ** Views of what loading gives *)

Module DynamipsLoadView.
Import Dynamips DynamipsStore DynamipsLoad.

(** The setting that the loop of [_loadSettings] computes for [name],
    when the conversion returns. *)
Definition loaded_setting (convert : setting_type → pyvalue → result pyvalue)
    (store : gmap string pyvalue) (name : string) (default : pyvalue)
    (t : setting_type) : result pyvalue :=
  convert t (match store !! settings_key name with
             | Some v => v
             | None => default
             end).

(** Every setting of the table converts: the value kept in the store, or
    the default where the store has none. *)
Definition settings_load (convert : setting_type → pyvalue → result pyvalue)
    (DEFAULT_DYNAMIPS_PATH : string) (store : gmap string pyvalue) : Prop :=
  ∀ name default t,
    dict_get (DYNAMIPS_SETTINGS DEFAULT_DYNAMIPS_PATH) name = Some default →
    dict_get DYNAMIPS_SETTING_TYPES name = Some t →
    ∃ v, loaded_setting convert store name default t = Return v.

(** The key of the field [name] of the record at [index] of the saved
    catalogue. *)
Definition array_key (index : Z) (name : string) : string :=
  "IOS_images/ios_image/" +:+ QSettings.number (index + 1) +:+ "/" +:+ name.

(** A string of decimal digits. *)
Fixpoint all_digits (s : string) : Prop :=
  match s with
  | EmptyString => True
  | String c r => is_Some (digit_of c) ∧ all_digits r
  end.

(** The number that a string of digits reads as, after [acc]. *)
Fixpoint value_of (acc : Z) (s : string) : Z :=
  match s with
  | EmptyString => acc
  | String c r => value_of (10 * acc + default 0 (digit_of c)) r
  end.

(** The number of records that the store announces for the catalogue,
    and the field [name] of the record at [index]. *)
Definition stored_size (toInt : pyvalue → Z) (store : gmap string pyvalue) : Z :=
  match store !! "IOS_images/ios_image/size" with
  | Some v => toInt v
  | None => 0
  end.

Definition stored_field (store : gmap string pyvalue) (index : Z) (name : string)
    (default : pyvalue) : pyvalue :=
  match store !! array_key index name with
  | Some v => v
  | None => default
  end.

(** The memory size of every announced record converts. *)
Definition catalog_loads (convert : setting_type → pyvalue → result pyvalue)
    (toInt : pyvalue → Z) (store : gmap string pyvalue) : Prop :=
  ∀ index, 0 ≤ index < stored_size toInt store →
    ∃ ram, convert int_ (stored_field store index "ram" (VInt 128)) = Return ram.

(** The handle is inside the array of the catalogue, at some entry. *)
Definition in_array (q : QSettings.t) : Prop :=
  ∃ g, QSettings.groupStack q = [g; images_group]
       ∧ QSettings.str g = "ios_image" ∧ QSettings.maxNum g = -1.

(** One binding's conversions, for the examples: a value of the type asked
    for is kept, an integer when it fits 32 bits, and any other value
    raises [TypeError]; a stored integer is its own size when it fits
    32 bits; a string is formatted as itself. *)
Definition sample_convert (t : setting_type) (v : pyvalue) : result pyvalue :=
  match t, v with
  | str_, VStr _ | bool_, VBool _ => Return v
  | int_, VInt n =>
      if ((-2147483648 <=? n) && (n <=? 2147483647))%bool then Return v
      else Raise TypeError
  | _, _ => Raise TypeError
  end.

Definition sample_toInt (v : pyvalue) : Z :=
  match v with
  | VInt n => if ((-2147483648 <=? n) && (n <=? 2147483647))%bool then n else 0
  | _ => 0
  end.

Definition sample_format (v : pyvalue) : string :=
  match v with VStr s => s | _ => "" end.

(** A catalogue of two images and the settings of the table, for the
    examples. *)
Definition sample_images : dict ios_image :=
  [ ("local:c3725.image",
     image_record (VStr "/images/c3725.image") (VStr "c3725.image") (VStr "c3725")
       (VStr "") (VStr "0x60c09aa0") (VStr "local") 128);
    ("10.0.0.2:c7200.image",
     image_record (VStr "/images/c7200.image") (VStr "c7200.image") (VStr "c7200")
       (VStr "") (VStr "") (VStr "10.0.0.2") 512) ].

Definition default_settings : gmap string pyvalue :=
  list_to_map (DYNAMIPS_SETTINGS "dynamips").

(** A store that holds one setting of the module and a catalogue of one
    record, for the examples. *)
Definition sample_store : gmap string pyvalue :=
  {[ "Dynamips/base_udp_port" := VInt 20001;
     "IOS_images/ios_image/size" := VInt 1;
     "IOS_images/ios_image/1/image" := VStr "c3725.image";
     "IOS_images/ios_image/1/ram" := VInt 256 ]}.

End DynamipsLoadView.

(** * Properties *)

(** ** Built-ins on concrete inputs *)

Example int_0 : int "0" = Return 0.
Proof. reflexivity. Qed.
Example int_12 : int " -1_2 " = Return (-12).
Proof. reflexivity. Qed.
Example int_bad : int "1__2" = Raise ValueError /\ int "s0" = Raise ValueError /\ int "" = Raise ValueError.
Proof. repeat split. Qed.
Example split0_ex : split0 ":" "1:101" = "1" /\ split0 ":" "17" = "17".
Proof. split; reflexivity. Qed.

Example number_ex : QSettings.number 0 = "0" /\ QSettings.number 12 = "12" /\ QSettings.number 100 = "100".
Proof. repeat split. Qed.

(** ** Lists: removing the first occurrence *)

Section RemoveFirst.
Context {A : Type} `{EqDecision A}.

Lemma remove_first_sublist (x : A) (l l' : list A) :
  remove_first x l = Some l' → l' `sublist_of` l.
Proof.
  revert l'. induction l as [|y l IH]; intros l'; simpl; [done|].
  case_decide.
  - intros [= <-]. by apply sublist_cons.
  - destruct (remove_first x l) as [l0|]; simpl; [|done].
    intros [= <-]. apply sublist_skip. by apply IH.
Qed.

Lemma remove_first_None (x : A) (l : list A) :
  remove_first x l = None ↔ x ∉ l.
Proof.
  induction l as [|y l IH]; simpl.
  - split; [intros _; apply not_elem_of_nil | done].
  - case_decide as Hy.
    + subst. split; [done|]. intros Hn. exfalso. apply Hn. left.
    + rewrite not_elem_of_cons. destruct (remove_first x l); simpl.
      * split; [done|]. intros [_ Hn]. apply IH in Hn. done.
      * split; [|done]. intros _. split; [congruence|]. by apply IH.
Qed.

(** Whatever was in the list is still there, except possibly [x]. *)
Lemma remove_first_others (x : A) (l l' : list A) :
  remove_first x l = Some l' → ∀ y, y ∈ l → y = x ∨ y ∈ l'.
Proof.
  revert l'. induction l as [|z l IH]; intros l'; simpl; [done|].
  case_decide as Hz.
  - intros [= <-] y [->|Hy]%elem_of_cons; [by left | by right].
  - destruct (remove_first x l) as [l0|]; simpl; [|done].
    intros [= <-] y [->|Hy]%elem_of_cons.
    + right. left.
    + destruct (IH _ eq_refl y Hy) as [->|?]; [by left|]. right. by right.
Qed.

(** The first occurrence is not among elements known to differ. *)
Lemma remove_first_middle (x : A) (before after : list A) :
  x ∉ before → remove_first x (before ++ x :: after) = Some (before ++ after).
Proof.
  induction before as [|y before IH]; simpl; intros Hx.
  - by rewrite decide_True.
  - apply not_elem_of_cons in Hx as [Hne Hx].
    rewrite decide_False by congruence. by rewrite IH.
Qed.

End RemoveFirst.

(** ** Dynamips.setSettings *)

Module DynamipsSettings.
Import Dynamips.

Lemma changed_params_filter (current settings : gmap string pyvalue) :
  dom settings ⊆ dom current →
  changed_params current settings = Return (filter (differs current) settings).
Proof.
  unfold changed_params.
  apply (map_fold_weak_ind (λ r m,
    dom m ⊆ dom current → r = Return (filter (differs current) m))).
  - intros _. by rewrite map_filter_empty.
  - intros name value m r Hfresh IH Hdom.
    rewrite dom_insert in Hdom.
    assert (is_Some (current !! name)) as [old Hold].
    { apply elem_of_dom. set_solver. }
    rewrite IH by set_solver. simpl.
    unfold lookup_item. rewrite Hold. simpl.
    destruct (py_ne old value) eqn:Hne.
    + rewrite map_filter_insert_True; [done|]. exists old. done.
    + rewrite map_filter_insert_not'; [done| |].
      * intros (o & Ho & Hn). simpl in *. congruence.
      * intros y Hy. congruence.
Qed.

Lemma changed_params_cases (current settings : gmap string pyvalue) :
  (dom settings ⊆ dom current ∧ ∃ p, changed_params current settings = Return p)
  ∨ (∃ key, changed_params current settings = Raise (KeyError key)
            ∧ key ∈ dom settings ∧ key ∉ dom current).
Proof.
  unfold changed_params.
  apply (map_fold_weak_ind (λ r m,
    (dom m ⊆ dom current ∧ ∃ p, r = Return p) ∨
    (∃ key, r = Raise (KeyError key) ∧ key ∈ dom m ∧ key ∉ dom current))).
  - left. split; [set_solver | eexists; reflexivity].
  - intros name value m r Hfresh [[Hdom [p ->]] | (key & -> & Hin & Hout)].
    + simpl. unfold lookup_item.
      destruct (current !! name) as [old|] eqn:Hold.
      * left. split; [|simpl; eauto].
        rewrite dom_insert. apply elem_of_dom_2 in Hold. set_solver.
      * right. exists name. simpl. split; [done|].
        apply not_elem_of_dom in Hold. split; [|done].
        rewrite dom_insert. set_solver.
    + right. exists key. simpl. set_solver.
Qed.

(** A key that the current settings lack makes the loop raise [KeyError]. *)
Lemma changed_params_KeyError (current settings : gmap string pyvalue) :
  ¬ dom settings ⊆ dom current →
  ∃ key, changed_params current settings = Raise (KeyError key)
         ∧ key ∈ dom settings ∧ key ∉ dom current.
Proof.
  intros Hn. destruct (changed_params_cases current settings) as [[Hd _] | H];
    [done | exact H].
Qed.

Lemma emit_all (f : server → event) (l : list server) (w : world) :
  for_each l (λ srv, emit (f srv)) w
  = (Return tt, {| this := this w; persisted := persisted w;
                   local_server := local_server w; connected := connected w;
                   trace := trace w ++ (f <$> l) |}).
Proof.
  revert w. induction l as [|x l IH]; intros w; simpl.
  - rewrite app_nil_r. by destruct w.
  - unfold mbind, M_bind, emit, modify. rewrite IH. simpl.
    by rewrite <- app_assoc.
Qed.

(** C1, amended. [setSettings(new_settings)] on a module whose settings
    have every key of [new_settings] returns normally; if some key's value
    differs from the current one, the servers list is walked once and one
    ["dynamips.settings"] notification is sent for each entry of the list,
    in the order of the list (a server that is listed twice gets two),
    whose payload has exactly the differing keys (with their new values);
    if none differs nothing is sent; and the settings end up as the old
    ones updated with the new. *)
Theorem setSettings_sends_changed_keys (w : world) (new_settings : gmap string pyvalue) :
  dom new_settings ⊆ dom (_settings (this w)) →
  ∃ (params : gmap string pyvalue) (w' : world),
    setSettings new_settings w = (Return tt, w')
    ∧ params ⊆ new_settings
    ∧ (∀ name, name ∈ dom params ↔
         ∃ value old, new_settings !! name = Some value
                      ∧ _settings (this w) !! name = Some old
                      ∧ py_ne old value = true)
    ∧ (params ≠ ∅ →
         trace w' = (trace w ++
           ((λ srv, send_notification srv "dynamips.settings" params)
              <$> _servers (this w)))%list)
    ∧ (params = ∅ → trace w' = trace w)
    ∧ _settings (this w') = new_settings ∪ _settings (this w)
    ∧ _servers (this w') = _servers (this w).
Proof.
  intros Hdom.
  exists (filter (differs (_settings (this w))) new_settings).
  unfold setSettings.
  unfold mbind at 1, M_bind at 1, gets; simpl.
  unfold mbind at 1, M_bind at 1, lift; simpl.
  rewrite (changed_params_filter _ _ Hdom).
  set (params := filter (differs (_settings (this w))) new_settings).
  assert (Hsub : params ⊆ new_settings) by apply map_filter_subseteq.
  assert (Hkeys : ∀ name, name ∈ dom params ↔
            ∃ value old, new_settings !! name = Some value
                         ∧ _settings (this w) !! name = Some old
                         ∧ py_ne old value = true).
  { intros name. rewrite elem_of_dom. unfold is_Some. split.
    - intros [value Hv].
      apply map_lookup_filter_Some in Hv as [Hv (old & Ho & Hn)]. eauto.
    - intros (value & old & Hv & Ho & Hn). exists value.
      apply map_lookup_filter_Some. split; [done|]. exists old. done. }
  unfold mbind at 1, M_bind at 1.
  destruct (decide (params = ∅)) as [Hp|Hp].
  - rewrite bool_decide_eq_true_2 by done. simpl.
    eexists. split; [reflexivity|]. simpl.
    split; [done|]. split; [done|]. split; [done|]. done.
  - rewrite bool_decide_eq_false_2 by done.
    unfold mbind at 1, M_bind at 1, gets; simpl.
    rewrite emit_all. simpl.
    eexists. split; [reflexivity|]. simpl.
    split; [done|]. split; [done|]. split; [done|]. done.
Qed.

Lemma setSettings_sends_changed_keys_witness :
  let w := {| this := {| _settings := {[ "path" := VStr "dynamips";
                                         "base_udp_port" := VInt 10001 ]};
                         _ios_images := []; _servers := [1%nat; 2%nat] |};
              persisted := ∅; local_server := 1%nat; connected := true;
              trace := [] |} in
  let new_settings : gmap string pyvalue :=
    {[ "path" := VStr "dynamips"; "base_udp_port" := VInt 20001 ]} in
  dom new_settings ⊆ dom (_settings (this w))
  ∧ ∃ params w',
      setSettings new_settings w = (Return tt, w')
      ∧ params ⊆ new_settings
      ∧ (∀ name, name ∈ dom params ↔
           ∃ value old, new_settings !! name = Some value
                        ∧ _settings (this w) !! name = Some old
                        ∧ py_ne old value = true)
      ∧ (params ≠ ∅ →
           trace w' = (trace w ++
             ((λ srv, send_notification srv "dynamips.settings" params)
                <$> _servers (this w)))%list)
      ∧ (params = ∅ → trace w' = trace w)
      ∧ _settings (this w') = new_settings ∪ _settings (this w)
      ∧ _servers (this w') = _servers (this w).
Proof.
  intros w new_settings.
  assert (H : dom new_settings ⊆ dom (_settings (this w))).
  { apply (bool_decide_unpack _). vm_compute. exact I. }
  split; [exact H|].
  exact (setSettings_sends_changed_keys w new_settings H).
Defined.

(** C1, as stated, fails: after two [createNode] calls the local server is
    in the servers list twice, and a [setSettings] that changes a value
    sends it two notifications, not exactly one. *)
Lemma setSettings_notifies_a_server_twice :
  let w := run_calls [CreateNode FrameRelaySwitch true; CreateNode FrameRelaySwitch true]
             (fresh_world {[ "path" := VStr "dynamips" ]} [] ∅ 0%nat) in
  let new_settings : gmap string pyvalue := {[ "path" := VStr "/usr/bin/dynamips" ]} in
  dom new_settings ⊆ dom (_settings (this w))
  ∧ _servers (this w) = [0%nat; 0%nat]
  ∧ (setSettings new_settings w).1 = Return tt
  ∧ trace (setSettings new_settings w).2
    = trace w ++ [ send_notification 0%nat "dynamips.settings" new_settings;
                   send_notification 0%nat "dynamips.settings" new_settings ]
  ∧ length (notified 0%nat (drop (length (trace w)) (trace (setSettings new_settings w).2)))
    = 2%nat.
Proof.
  split; [apply (bool_decide_unpack _); vm_compute; exact I|].
  split; [reflexivity|]. split; [vm_compute; reflexivity|].
  split; vm_compute; reflexivity.
Qed.

(** On the same input the single changed key is what each server gets. *)
Example setSettings_example :
  let w := {| this := {| _settings := {[ "path" := VStr "dynamips";
                                         "base_udp_port" := VInt 10001 ]};
                         _ios_images := []; _servers := [1%nat; 2%nat] |};
              persisted := ∅; local_server := 1%nat; connected := true;
              trace := [] |} in
  trace (setSettings {[ "path" := VStr "dynamips";
                        "base_udp_port" := VInt 20001 ]} w).2
  = [ send_notification 1%nat "dynamips.settings" {[ "base_udp_port" := VInt 20001 ]};
      send_notification 2%nat "dynamips.settings" {[ "base_udp_port" := VInt 20001 ]} ].
Proof. vm_compute. reflexivity. Qed.

End DynamipsSettings.

(** ** Dynamips: the servers list *)

Module DynamipsServers.
Import Dynamips.

Lemma addServer_servers srv w :
  ∃ w', addServer srv w = (Return tt, w')
        ∧ _servers (this w') = (_servers (this w) ++ [srv])%list
        ∧ connected w' = connected w ∧ local_server w' = local_server w.
Proof. eexists. split; [reflexivity|]. done. Qed.

Lemma removeServer_servers srv w :
  match remove_first srv (_servers (this w)) with
  | Some l => ∃ w', removeServer srv w = (Return tt, w') ∧ _servers (this w') = l
  | None => removeServer srv w = (Raise ValueError, w)
  end.
Proof.
  unfold removeServer, list_remove, mbind, M_bind, gets, lift; simpl.
  destruct (remove_first srv (_servers (this w))); [|done].
  eexists. split; reflexivity.
Qed.

(** What [createNode] does to the list: one more entry for the local
    server when it is (or gets) connected, nothing otherwise. *)
Lemma createNode_servers cls reachable w :
  ∃ r w', createNode cls reachable w = (Return r, w')
    ∧ _servers (this w') =
        (if (connected w || reachable)%bool
         then _servers (this w) ++ [local_server w] else _servers (this w))%list.
Proof.
  unfold createNode. destruct (connected w) eqn:Hc; simpl.
  - do 2 eexists. split; [reflexivity|]. done.
  - destruct reachable; simpl.
    + do 2 eexists. split; [reflexivity|]. done.
    + do 2 eexists. split; [reflexivity|]. done.
Qed.

(** One call either appends the server it registers or leaves a sublist
    of the list. *)
Lemma run_call_servers c w :
  match registers c w with
  | Some srv => _servers (this (run_call c w).2) = _servers (this w) ++ [srv]
  | None => _servers (this (run_call c w).2) `sublist_of` _servers (this w)
  end.
Proof.
  destruct c as [srv|srv|cls reachable]; simpl.
  - done.
  - pose proof (removeServer_servers srv w) as H.
    destruct (remove_first srv (_servers (this w))) as [l|] eqn:Hl.
    + destruct H as (w' & -> & Hs). simpl. rewrite Hs.
      by eapply remove_first_sublist.
    + by rewrite H.
  - destruct (createNode_servers cls reachable w) as (r & w' & Hrun & Hs).
    unfold mbind, M_bind. rewrite Hrun. simpl. rewrite Hs.
    by destruct (connected w || reachable)%bool.
Qed.

Lemma run_calls_NoDup cs : ∀ w,
  NoDup (_servers (this w)) → registers_new cs w →
  NoDup (_servers (this (run_calls cs w))).
Proof.
  induction cs as [|c cs IH]; intros w Hnd Hnew; [done|].
  destruct Hnew as [Hc Hrest]. simpl. apply IH; [|done].
  pose proof (run_call_servers c w) as Hcall.
  destruct (registers c w) as [srv|].
  - rewrite Hcall. apply NoDup_app. split; [done|].
    split; [|apply NoDup_singleton].
    intros x Hx ->%list_elem_of_singleton. done.
  - by eapply sublist_NoDup.
Qed.

(** C9, as the code has it.  Starting from a fresh module, a sequence of
    [addServer], [removeServer] and [createNode] calls in which every
    server that gets appended is not in the list at that moment leaves the
    servers list without duplicates.  (The list grows only at its end and
    shrinks only through [removeServer]; nothing in the module itself
    checks for presence before appending.) *)
Theorem servers_NoDup_when_registering_new
    (settings : gmap string pyvalue) (images : dict ios_image)
    (store : gmap string pyvalue) (local : server) (cs : list call) :
  registers_new cs (fresh_world settings images store local) →
  NoDup (_servers (this (run_calls cs (fresh_world settings images store local)))).
Proof. intros H. apply run_calls_NoDup; [apply NoDup_nil_2 | exact H]. Qed.

Lemma servers_NoDup_when_registering_new_witness :
  registers_new [CreateNode FrameRelaySwitch true; AddServer 5%nat;
                 RemoveServer 0%nat; CreateNode C3725 false]
                (fresh_world ∅ [] ∅ 0%nat)
  ∧ NoDup (_servers (this (run_calls
             [CreateNode FrameRelaySwitch true; AddServer 5%nat;
              RemoveServer 0%nat; CreateNode C3725 false]
             (fresh_world ∅ [] ∅ 0%nat)))).
Proof.
  assert (H : registers_new [CreateNode FrameRelaySwitch true; AddServer 5%nat;
                             RemoveServer 0%nat; CreateNode C3725 false]
                            (fresh_world ∅ [] ∅ 0%nat)).
  { simpl. repeat split; apply (bool_decide_unpack _); vm_compute; exact I. }
  split; [exact H|].
  exact (servers_NoDup_when_registering_new ∅ [] ∅ 0%nat _ H).
Defined.

(** C9, as stated, fails: two [createNode] calls on a fresh module put the
    local server in the list twice. *)
Lemma servers_duplicate_after_two_createNode :
  _servers (this (run_calls [CreateNode FrameRelaySwitch true;
                             CreateNode FrameRelaySwitch true]
                            (fresh_world ∅ [] ∅ 0%nat))) = [0%nat; 0%nat]
  ∧ ¬ NoDup (_servers (this (run_calls [CreateNode FrameRelaySwitch true;
                                        CreateNode FrameRelaySwitch true]
                                       (fresh_world ∅ [] ∅ 0%nat)))).
Proof.
  assert (E : _servers (this (run_calls [CreateNode FrameRelaySwitch true;
                                         CreateNode FrameRelaySwitch true]
                                        (fresh_world ∅ [] ∅ 0%nat)))
              = [0%nat; 0%nat]) by reflexivity.
  split; [exact E|]. rewrite E.
  intros Hnd. apply NoDup_cons in Hnd as [Hnotin _]. apply Hnotin. left.
Qed.

(** ... and so do two [addServer] calls with the same server. *)
Example servers_duplicate_after_two_addServer :
  _servers (this (run_calls [AddServer 3%nat; AddServer 3%nat]
                            (fresh_world ∅ [] ∅ 0%nat))) = [3%nat; 3%nat].
Proof. reflexivity. Qed.

End DynamipsServers.

(** ** Dynamips: allocating an image and setting a node up *)

Module DynamipsSetup.
Import Dynamips.

(** [first_image] returns the first record of the catalogue whose platform
    is the wanted one, when every record before it has a platform field. *)
Lemma first_image_first_match platform (before : list ios_image) image rest p :
  Forall (λ r, ∃ q, r !! "platform" = Some q ∧ py_eq q platform = false) before →
  image !! "platform" = Some p → py_eq p platform = true →
  first_image platform (before ++ image :: rest) = Return (Some image).
Proof.
  intros Hbefore Hp Heq. induction Hbefore as [|r before (q & Hq & Hne) _ IH]; simpl.
  - unfold lookup_item. rewrite Hp. simpl. by rewrite Heq.
  - unfold lookup_item. rewrite Hq. simpl. by rewrite Hne.
Qed.

Lemma first_image_no_match platform (images : list ios_image) :
  Forall (λ r, ∃ q, r !! "platform" = Some q ∧ py_eq q platform = false) images →
  first_image platform images = Return None.
Proof.
  induction 1 as [|r images (q & Hq & Hne) _ IH]; simpl; [done|].
  unfold lookup_item. rewrite Hq. simpl. by rewrite Hne.
Qed.

(** Whatever the catalogue holds, a router is set up with the path and
    the memory size written in [setupNode] itself. *)
Lemma setupNode_router_fixed_image (n : node) (w : world) image :
  is_router (node_cls n) = true →
  _allocateIOSImage n w = (Return image, w) →
  ∃ w', setupNode n w = (Return tt, w')
    ∧ trace w' = (trace w ++
        [setup n [VStr "/home/grossmj/Documents/IOS images/c3725-adventerprisek9-mz.124-15.T14.image";
                  VInt 128]])%list.
Proof.
  intros Hr Ha. unfold setupNode. rewrite Hr.
  unfold mbind at 1, M_bind at 1. rewrite Ha.
  eexists. split; [reflexivity|]. done.
Qed.

Lemma setupNode_other (n : node) (w : world) :
  is_router (node_cls n) = false →
  ∃ w', setupNode n w = (Return tt, w') ∧ trace w' = (trace w ++ [setup n []])%list.
Proof.
  intros Hr. unfold setupNode. rewrite Hr. eexists. split; [reflexivity|]. done.
Qed.

(** C4 on concrete inputs.  With a catalogue whose second record is the
    first one for platform ["c3725"] (path ["/images/c3725.image"], 256 MB),
    the scan does pick that record, but [setup] is called with another path
    and 128; with an empty catalogue the scan finds nothing, and [setup] is
    still called with that path and 128. *)
Theorem setupNode_does_not_use_catalog :
  let router := {| node_cls := C3725; node_server := 0%nat;
                   node_settings := {[ "platform" := VStr "c3725" ]} |} in
  let record (path platform : string) (ram : Z) : ios_image :=
    {[ "path" := VStr path; "platform" := VStr platform; "ram" := VInt ram ]} in
  let catalog := [ ("local:c7200.image", record "/images/c7200.image" "c7200" 512);
                   ("local:c3725.image", record "/images/c3725.image" "c3725" 256);
                   ("local:other.image", record "/images/other.image" "c3725" 96) ] in
  let w := fresh_world ∅ catalog ∅ 0%nat in
  let w0 := fresh_world ∅ [] ∅ 0%nat in
  (_allocateIOSImage router w).1 = Return (Some (record "/images/c3725.image" "c3725" 256))
  ∧ trace (setupNode router w).2
    = [setup router [VStr "/home/grossmj/Documents/IOS images/c3725-adventerprisek9-mz.124-15.T14.image";
                     VInt 128]]
  ∧ (_allocateIOSImage router w0).1 = Return None
  ∧ trace (setupNode router w0).2
    = [setup router [VStr "/home/grossmj/Documents/IOS images/c3725-adventerprisek9-mz.124-15.T14.image";
                     VInt 128]].
Proof. vm_compute. repeat split. Qed.

End DynamipsSetup.

(** ** Dynamips: saving the image catalogue *)

Module DynamipsImages.
Import Dynamips.

Lemma others_insert_inside key value s :
  QSettings.starts_with "IOS_images/" key = true →
  others (<[key := value]> s) = others s.
Proof.
  intros Hk. unfold others. apply map_filter_insert_not.
  intros y [_ Hout].
  change (QSettings.starts_with "IOS_images/" key = false) in Hout. congruence.
Qed.

Lemma others_idemp s : others (others s) = others s.
Proof.
  unfold others. apply map_eq. intros k. apply option_eq. intros v.
  rewrite !map_lookup_filter_Some. tauto.
Qed.

Lemma setValue_writing s q key value :
  writing s q → writing s (QSettings.setValue key value q).
Proof.
  intros [Hs (g & Hstack & Hmax)]. split; [|exists g; done].
  simpl. rewrite Hstack, others_insert_inside; [done|]. reflexivity.
Qed.

Lemma setArrayIndex_writing s q i :
  writing s q → writing s (QSettings.setArrayIndex i q).
Proof.
  intros [Hs (g & Hstack & Hmax)]. unfold QSettings.setArrayIndex.
  rewrite Hstack, Hmax. simpl. split; [done|]. eexists. split; reflexivity.
Qed.

Lemma write_image_writing s st image :
  writing s st.1 → writing s (write_image st image).1.
Proof.
  intros H. unfold write_image. simpl.
  apply (map_fold_weak_ind (λ q _, writing s q)).
  - by apply setArrayIndex_writing.
  - intros name value m q _ Hq. by apply setValue_writing.
Qed.

Lemma write_images_writing s (images : list ios_image) : ∀ st,
  writing s st.1 → writing s (foldl write_image st images).1.
Proof.
  induction images as [|image images IH]; intros st H; simpl; [done|].
  apply IH. by apply write_image_writing.
Qed.

Lemma saveIOSImages_saved w :
  _saveIOSImages w
  = (Return tt, set_persisted (saved (_ios_images (this w)) (persisted w)) w).
Proof. reflexivity. Qed.

(** Saving starts by clearing the group: the outcome depends on the old
    store only through the settings outside ["IOS_images"]. *)
Lemma saved_clears images s : saved images s = saved images (others s).
Proof.
  unfold saved, _saveIOSImages, modify. simpl.
  unfold QSettings.remove. simpl. fold (others s). fold (others (others s)).
  by rewrite others_idemp.
Qed.

Lemma saved_others images s : others (saved images s) = others s.
Proof.
  unfold saved, _saveIOSImages, modify. simpl.
  unfold QSettings.remove. simpl. fold (others s).
  set (q0 := QSettings.beginWriteArray _ _ _).
  assert (writing (others s) q0) as Hq0.
  { subst q0. unfold QSettings.beginWriteArray.
    destruct (Z.ltb_spec (Z.of_nat (length images)) 0) as [Hneg|_]; [lia|].
    apply setValue_writing. split; [done|]. eexists. split; reflexivity. }
  pose proof (write_images_writing (others s) images.*2 (q0, 0) Hq0)
    as [Hs (g & Hstack & Hmax)].
  unfold QSettings.endArray. rewrite Hstack, Hmax. simpl.
  rewrite Hs. apply others_idemp.
Qed.

(** Saving the catalogue twice in a row leaves what saving it once
    leaves. *)
Lemma saveIOSImages_twice (w : world) :
  _saveIOSImages (_saveIOSImages w).2 = (Return tt, (_saveIOSImages w).2).
Proof.
  rewrite (saveIOSImages_saved w). simpl.
  rewrite saveIOSImages_saved. simpl. f_equal.
  unfold set_persisted. simpl. f_equal.
  rewrite saved_clears, saved_others. symmetry. apply saved_clears.
Qed.

(** A save after one stale record: the stale entries are gone. *)
Example saveIOSImages_example :
  let record (path : string) : ios_image :=
    {[ "path" := VStr path; "ram" := VInt 128 ]} in
  let w := fresh_world ∅ [("local:a", record "/a"); ("local:b", record "/b")]
             {[ "IOS_images/ios_image/size" := VInt 3;
                "IOS_images/ios_image/3/path" := VStr "/stale";
                "Dynamips/path" := VStr "dynamips" ]} 0%nat in
  persisted (_saveIOSImages w).2
  = {[ "Dynamips/path" := VStr "dynamips";
       "IOS_images/ios_image/size" := VInt 2;
       "IOS_images/ios_image/1/path" := VStr "/a";
       "IOS_images/ios_image/1/ram" := VInt 128;
       "IOS_images/ios_image/2/path" := VStr "/b";
       "IOS_images/ios_image/2/ram" := VInt 128 ]}.
Proof. vm_compute. reflexivity. Qed.

End DynamipsImages.

(** ** Frame-relay switch: creation and deletion *)

Module FRSWLifecycle.
Import FRSW.

Lemma setup_sends_create w :
  setup w = (Return tt,
             {| heap := heap w; this := this w;
                trace := trace w ++ [send_message (_server (this w))
                                       "dynamips.frsw.create" None setupCallback_] |}).
Proof. reflexivity. Qed.

(** A reply with an id and a name provisions the node, whatever the error
    flag says. *)
Lemma setupCallback_reply w response error id new_name :
  response !! "id" = Some id → response !! "name" = Some new_name →
  setupCallback response error w
  = (Return tt,
     {| heap := heap w;
        this := set_name new_name (set_frsw_id id (this w));
        trace := trace w ++ [newname_signal new_name] |}).
Proof.
  intros Hid Hname. unfold setupCallback, lookup_item, mbind, M_bind, lift.
  rewrite Hid. simpl. rewrite Hname. reflexivity.
Qed.

(** A reply without an id makes the callback raise [KeyError] before it
    has done anything. *)
Lemma setupCallback_no_id w response error :
  response !! "id" = None →
  setupCallback response error w = (Raise (KeyError "id"), w).
Proof.
  intros Hid. unfold setupCallback, lookup_item, mbind, M_bind, lift.
  by rewrite Hid.
Qed.

(** C3 on concrete inputs.  An error reply (code and message, error flag
    set) to a node just constructed: the callback raises [KeyError] and no
    signal is emitted, in particular no error signal; the id stays [None].
    And when the reply carries an id and a name, the error flag changes
    nothing: the node takes the id and announces the name. *)
Theorem setupCallback_ignores_error_flag :
  let w := {| heap := []; this := init 0%nat; trace := [] |} in
  let failure : gmap string pyvalue :=
    {[ "code" := VInt (-32000); "message" := VStr "cannot create" ]} in
  let odd : gmap string pyvalue :=
    {[ "id" := VInt 7; "name" := VStr "FR1"; "code" := VInt (-32000);
       "message" := VStr "cannot create" ]} in
  setupCallback failure true w = (Raise (KeyError "id"), w)
  ∧ trace (setupCallback failure true w).2 = []
  ∧ _frsw_id (this (setupCallback failure true w).2) = VNone
  ∧ (setupCallback odd true w).1 = Return tt
  ∧ _frsw_id (this (setupCallback odd true w).2) = VInt 7
  ∧ trace (setupCallback odd true w).2 = [newname_signal (VStr "FR1")].
Proof. vm_compute. repeat split. Qed.

(** C5. [delete()] first tells the observers to take the links down and
    then sends the destroy message, keyed by the node's id.  The callback
    on a success reply emits the deleted signal; on an error reply, which
    carries a code and a message, it emits the error signal with the
    node's name, that code and that message.  Neither callback touches
    the node, so its id is what it was. *)
Theorem delete_then_callback (w : world) (reply failure : gmap string pyvalue)
    (code message : pyvalue) :
  failure !! "code" = Some code →
  failure !! "message" = Some message →
  delete w
  = (Return tt,
     {| heap := heap w; this := this w;
        trace := trace w ++
          [delete_links_signal;
           send_message (_server (this w)) "dynamips.frsw.delete"
             (Some [("id", _frsw_id (this w))]) _deleteCallback_] |})
  ∧ _deleteCallback reply false w
    = (Return tt,
       {| heap := heap w; this := this w; trace := trace w ++ [delete_signal] |})
  ∧ _deleteCallback failure true w
    = (Return tt,
       {| heap := heap w; this := this w;
          trace := trace w ++
            [error_signal (_settings_name (this w)) code message] |}).
Proof.
  intros Hcode Hmessage. split; [|split].
  - unfold delete, mbind, M_bind, emit, modify, gets. simpl.
    by rewrite <- app_assoc.
  - reflexivity.
  - unfold _deleteCallback, lookup_item, mbind, M_bind, lift, gets.
    rewrite Hmessage. simpl. rewrite Hcode. reflexivity.
Qed.

Lemma delete_then_callback_witness :
  let w := {| heap := [];
              this := set_name (VStr "FR1") (set_frsw_id (VInt 7) (init 0%nat));
              trace := [] |} in
  let failure : gmap string pyvalue :=
    {[ "code" := VInt (-32000); "message" := VStr "busy" ]} in
  (failure !! "code" = Some (VInt (-32000)) ∧ failure !! "message" = Some (VStr "busy"))
  ∧ (delete w
     = (Return tt,
        {| heap := heap w; this := this w;
           trace := trace w ++
             [delete_links_signal;
              send_message (_server (this w)) "dynamips.frsw.delete"
                (Some [("id", _frsw_id (this w))]) _deleteCallback_] |})
     ∧ _deleteCallback ∅ false w
       = (Return tt,
          {| heap := heap w; this := this w; trace := trace w ++ [delete_signal] |})
     ∧ _deleteCallback failure true w
       = (Return tt,
          {| heap := heap w; this := this w;
             trace := trace w ++
               [error_signal (_settings_name (this w)) (VInt (-32000)) (VStr "busy")] |})).
Proof.
  intros w failure.
  assert (Hc : failure !! "code" = Some (VInt (-32000))) by reflexivity.
  assert (Hm : failure !! "message" = Some (VStr "busy")) by reflexivity.
  split; [split; [exact Hc | exact Hm]|].
  exact (delete_then_callback w ∅ failure _ _ Hc Hm).
Defined.

End FRSWLifecycle.

(** ** Frame-relay switch: attaching and detaching an NIO *)

Module FRSWNio.
Import FRSW.

(** The port object after [port.nio = None]. *)
Lemma detach_lookup (h : list Port) l p :
  h !! l = Some p →
  alter (λ obj, {| name := name obj; port := port obj; nio := None |}) l h !! l
  = Some {| name := name p; port := port p; nio := None |}.
Proof. intros H. rewrite list_lookup_alter, H. by rewrite decide_True. Qed.

(** C7. [deleteNIO(port)] clears the port's NIO first and calls the server
    afterwards: whatever the server's [send_message] does when it is
    called, it is called once, with the detach message that carries the
    node's id and the port's number, in a state in which the port object
    already has no NIO, every other port is as it was and nothing has been
    sent yet.  So [deleteNIO] appends this one message to the trace and
    leaves the port free. *)
Theorem deleteNIO_detaches_then_sends (w : world) (port_ref : loc) (p : Port)
    (send : event → M world unit) :
  heap w !! port_ref = Some p →
  ∃ detached : world,
    heap detached !! port_ref = Some {| name := name p; port := port p; nio := None |}
    ∧ (∀ l, l ≠ port_ref → heap detached !! l = heap w !! l)
    ∧ this detached = this w
    ∧ trace detached = trace w
    ∧ deleteNIO_with send port_ref w
      = send (send_message (_server (this w)) "dynamips.frsw.delete_nio"
                (Some [("id", _frsw_id (this w)); ("port", port_number p)])
                deleteNIOCallback_) detached
    ∧ deleteNIO port_ref w = deleteNIO_with emit port_ref w
    ∧ deleteNIO port_ref w
      = emit (send_message (_server (this w)) "dynamips.frsw.delete_nio"
                (Some [("id", _frsw_id (this w)); ("port", port_number p)])
                deleteNIOCallback_) detached
    ∧ trace (deleteNIO port_ref w).2
      = trace w ++ [send_message (_server (this w)) "dynamips.frsw.delete_nio"
                      (Some [("id", _frsw_id (this w)); ("port", port_number p)])
                      deleteNIOCallback_]
    ∧ heap (deleteNIO port_ref w).2 = heap detached.
Proof.
  intros Hp.
  exists (set_heap (alter (λ obj, {| name := name obj; port := port obj;
                                     nio := None |}) port_ref) w).
  split; [by apply detach_lookup|].
  split; [intros l Hl; simpl; by apply list_lookup_alter_ne|].
  split; [done|]. split; [done|].
  split.
  { unfold deleteNIO_with, deref, mbind, M_bind, gets, modify. simpl.
    by rewrite (list_lookup_total_correct _ _ _ Hp). }
  split; [done|].
  unfold deleteNIO, deref, mbind, M_bind, gets, modify. simpl.
  rewrite (list_lookup_total_correct _ _ _ Hp). done.
Qed.

Lemma deleteNIO_detaches_then_sends_witness :
  let w := {| heap := [ {| name := "0"; port := Some 0;
                           nio := Some (NIO_UDP 10001 "127.0.0.1" 10002) |} ];
              this := set_ports [0%nat] (set_frsw_id (VInt 7) (init 0%nat));
              trace := [] |} in
  let p := {| name := "0"; port := Some 0;
              nio := Some (NIO_UDP 10001 "127.0.0.1" 10002) |} in
  let send : event → M world unit :=
    λ e w, if isFree (heap w !!! 0%nat) then emit e w
           else (Raise AttributeError, w) in
  heap w !! 0%nat = Some p
  ∧ ∃ detached : world,
      heap detached !! 0%nat = Some {| name := name p; port := port p; nio := None |}
      ∧ (∀ l, l ≠ 0%nat → heap detached !! l = heap w !! l)
      ∧ this detached = this w
      ∧ trace detached = trace w
      ∧ deleteNIO_with send 0%nat w
        = send (send_message (_server (this w)) "dynamips.frsw.delete_nio"
                  (Some [("id", _frsw_id (this w)); ("port", port_number p)])
                  deleteNIOCallback_) detached
      ∧ deleteNIO 0%nat w = deleteNIO_with emit 0%nat w
      ∧ deleteNIO 0%nat w
        = emit (send_message (_server (this w)) "dynamips.frsw.delete_nio"
                  (Some [("id", _frsw_id (this w)); ("port", port_number p)])
                  deleteNIOCallback_) detached
      ∧ trace (deleteNIO 0%nat w).2
        = trace w ++ [send_message (_server (this w)) "dynamips.frsw.delete_nio"
                        (Some [("id", _frsw_id (this w)); ("port", port_number p)])
                        deleteNIOCallback_]
      ∧ heap (deleteNIO 0%nat w).2 = heap detached.
Proof.
  intros w p send.
  assert (H : heap w !! 0%nat = Some p) by reflexivity.
  split; [exact H|].
  exact (deleteNIO_detaches_then_sends w 0%nat p send H).
Defined.

(** A server that looks at the port when it is called finds it free: with
    a [send_message] that records the message only if the port has no
    NIO, and raises otherwise, [deleteNIO] returns and the message is
    recorded. *)
Example deleteNIO_server_sees_free_port :
  let w := {| heap := [ {| name := "0"; port := Some 0;
                           nio := Some (NIO_UDP 10001 "127.0.0.1" 10002) |} ];
              this := set_ports [0%nat] (set_frsw_id (VInt 7) (init 0%nat));
              trace := [] |} in
  let send : event → M world unit :=
    λ e w, if isFree (heap w !!! 0%nat) then emit e w
           else (Raise AttributeError, w) in
  deleteNIO_with send 0%nat w
  = (Return tt,
     {| heap := [ {| name := "0"; port := Some 0; nio := None |} ];
        this := this w;
        trace := [ send_message 0%nat "dynamips.frsw.delete_nio"
                     (Some [("id", VInt 7); ("port", VInt 0)]) deleteNIOCallback_ ] |}).
Proof. reflexivity. Qed.

Lemma dict_get_set {V} (k k' : string) (v : V) (d : dict V) :
  dict_get (dict_set k v d) k' = if String.eqb k k' then Some v else dict_get d k'.
Proof.
  induction d as [|[k0 v0] d IH]; simpl.
  - destruct (String.eqb_spec k k'); done.
  - destruct (String.eqb_spec k0 k) as [->|Hne]; simpl.
    + destruct (String.eqb_spec k k'); done.
    + destruct (String.eqb_spec k0 k') as [->|Hne'].
      * destruct (String.eqb_spec k k'); [congruence | done].
      * apply IH.
Qed.

Lemma nio_mapping_snoc port_name mapping entry :
  nio_mapping port_name (mapping ++ [entry])
  = nio_mapping_step port_name (nio_mapping port_name mapping) entry.
Proof. unfold nio_mapping. by rewrite foldl_app. Qed.

(** Every entry of the mapping sent along is an entry of the current
    mapping seen from the port: its key is an endpoint on the port, and
    its value is the other end. *)
Lemma nio_mapping_sound port_name mapping k v :
  dict_get (nio_mapping port_name mapping) k = Some v →
  split0 ":" k = port_name ∧ ((k, v) ∈ mapping ∨ (v, k) ∈ mapping).
Proof.
  revert k v. induction mapping as [|[s d] mapping IH] using rev_ind; intros k v.
  - done.
  - rewrite nio_mapping_snoc. unfold nio_mapping_step. simpl.
    intros H.
    assert (Hold : dict_get (nio_mapping port_name mapping) k = Some v →
                   split0 ":" k = port_name
                   ∧ ((k, v) ∈ mapping ++ [(s, d)] ∨ (v, k) ∈ mapping ++ [(s, d)])).
    { intros H0. destruct (IH _ _ H0) as [? [?|?]]; set_solver. }
    destruct (String.eqb_spec port_name (split0 ":" d)) as [Hd|Hd];
      destruct (String.eqb_spec port_name (split0 ":" s)) as [Hs|Hs];
      rewrite ?dict_get_set in H;
      repeat match type of H with
             | context [String.eqb ?a ?b] => destruct (String.eqb_spec a b)
             end;
      simplify_eq; try (by apply Hold); split; try done; set_solver.
Qed.

(** Every current entry with an end on the port gives that endpoint as a
    key of the mapping sent along. *)
Lemma nio_mapping_complete port_name mapping s d :
  (s, d) ∈ mapping →
  (split0 ":" s = port_name → is_Some (dict_get (nio_mapping port_name mapping) s))
  ∧ (split0 ":" d = port_name → is_Some (dict_get (nio_mapping port_name mapping) d)).
Proof.
  induction mapping as [|[s' d'] mapping IH] using rev_ind; intros Hin.
  - by apply elem_of_nil in Hin.
  - rewrite nio_mapping_snoc. unfold nio_mapping_step. simpl.
    assert (Hkeep : ∀ k, is_Some (dict_get (nio_mapping port_name mapping) k) →
      is_Some (dict_get
        (if String.eqb port_name (split0 ":" d')
         then dict_set d' s'
                (if String.eqb port_name (split0 ":" s')
                 then dict_set s' d' (nio_mapping port_name mapping)
                 else nio_mapping port_name mapping)
         else if String.eqb port_name (split0 ":" s')
              then dict_set s' d' (nio_mapping port_name mapping)
              else nio_mapping port_name mapping) k)).
    { intros k Hk.
      destruct (String.eqb port_name (split0 ":" d'));
        destruct (String.eqb port_name (split0 ":" s'));
        rewrite ?dict_get_set;
        repeat match goal with
               | |- context [String.eqb ?a ?b] => destruct (String.eqb a b)
               end; eauto. }
    apply elem_of_app in Hin as [Hin|Hin].
    + destruct (IH Hin) as [H1 H2]. split; intros H; apply Hkeep; eauto.
    + apply list_elem_of_singleton in Hin as [= -> ->].
      split; intros <-; rewrite ?String.eqb_refl.
      * destruct (String.eqb (split0 ":" s') (split0 ":" d')) eqn:E;
          rewrite ?dict_get_set, ?String.eqb_refl;
          repeat match goal with
                 | |- context [String.eqb ?a ?b] => destruct (String.eqb a b)
                 end; eauto.
      * destruct (String.eqb (split0 ":" d') (split0 ":" s')) eqn:E;
          rewrite ?dict_get_set, ?String.eqb_refl; eauto.
Qed.

(** C6, as the code has it.  [addNIO(port, nio)] with a UDP NIO sends one
    request whose payload has the node's id, the NIO kind, the port's
    number, [lport], [rhost], [rport], and a mapping made from the current
    entries that touch the port: each of its keys is an endpoint on the
    port and its value the other end of a current entry (so an entry whose
    destination is on the port goes in reversed), and every endpoint on
    the port that occurs in the current mapping is one of its keys. *)
Theorem addNIO_sends_port_view_of_mapping (w : world) (port_ref : loc) (p : Port)
    (lport : Z) (rhost : string) (rport : Z) :
  heap w !! port_ref = Some p →
  ∃ m : dict string,
    addNIO port_ref (NIO_UDP lport rhost rport) w
    = (Return tt,
       {| heap := heap w; this := this w;
          trace := trace w ++
            [send_message (_server (this w)) "dynamips.frsw.add_nio"
               (Some [("id", _frsw_id (this w)); ("nio", VStr "NIO_UDP");
                      ("port", port_number p); ("lport", VInt lport);
                      ("rhost", VStr rhost); ("rport", VInt rport);
                      ("mapping", VDict m)])
               _addNIOCallback_] |})
    ∧ (∀ k v, dict_get m k = Some v →
         split0 ":" k = name p
         ∧ ((k, v) ∈ _settings_mapping (this w) ∨ (v, k) ∈ _settings_mapping (this w)))
    ∧ (∀ s d, (s, d) ∈ _settings_mapping (this w) →
         (split0 ":" s = name p → is_Some (dict_get m s))
         ∧ (split0 ":" d = name p → is_Some (dict_get m d))).
Proof.
  intros Hp. exists (nio_mapping (name p) (_settings_mapping (this w))).
  split; [|split].
  - unfold addNIO, deref, mbind, M_bind, gets, lift. simpl.
    rewrite (list_lookup_total_correct _ _ _ Hp). reflexivity.
  - intros k v. apply nio_mapping_sound.
  - intros s d. apply nio_mapping_complete.
Qed.

Lemma addNIO_sends_port_view_of_mapping_witness :
  let p := {| name := "0"; port := Some 0; nio := None |} in
  let w := {| heap := [p];
              this := set_mapping [("0:100", "1:200"); ("2:300", "0:400")]
                        (set_ports [0%nat] (set_frsw_id (VInt 7) (init 0%nat)));
              trace := [] |} in
  heap w !! 0%nat = Some p
  ∧ ∃ m : dict string,
      addNIO 0%nat (NIO_UDP 10001 "127.0.0.1" 10002) w
      = (Return tt,
         {| heap := heap w; this := this w;
            trace := trace w ++
              [send_message (_server (this w)) "dynamips.frsw.add_nio"
                 (Some [("id", _frsw_id (this w)); ("nio", VStr "NIO_UDP");
                        ("port", port_number p); ("lport", VInt 10001);
                        ("rhost", VStr "127.0.0.1"); ("rport", VInt 10002);
                        ("mapping", VDict m)])
                 _addNIOCallback_] |})
      ∧ (∀ k v, dict_get m k = Some v →
           split0 ":" k = name p
           ∧ ((k, v) ∈ _settings_mapping (this w) ∨ (v, k) ∈ _settings_mapping (this w)))
      ∧ (∀ s d, (s, d) ∈ _settings_mapping (this w) →
           (split0 ":" s = name p → is_Some (dict_get m s))
           ∧ (split0 ":" d = name p → is_Some (dict_get m d))).
Proof.
  intros p w.
  assert (H : heap w !! 0%nat = Some p) by reflexivity.
  split; [exact H|].
  exact (addNIO_sends_port_view_of_mapping w 0%nat p 10001 "127.0.0.1" 10002 H).
Defined.

(** C6, as stated, fails where the port is the destination of an entry:
    with the mapping [{"1:101": "2:202"}] and the port named ["2"], the
    payload's mapping is [{"2:202": "1:101"}], which is not the current
    mapping restricted to its entries that touch the port. *)
Lemma addNIO_mapping_is_not_a_restriction :
  let p := {| name := "2"; port := Some 2; nio := None |} in
  let w := {| heap := [p];
              this := set_mapping [("1:101", "2:202")]
                        (set_ports [0%nat] (set_frsw_id (VInt 7) (init 0%nat)));
              trace := [] |} in
  trace (addNIO 0%nat (NIO_UDP 10001 "127.0.0.1" 10002) w).2
  = [send_message 0%nat "dynamips.frsw.add_nio"
       (Some [("id", VInt 7); ("nio", VStr "NIO_UDP"); ("port", VInt 2);
              ("lport", VInt 10001); ("rhost", VStr "127.0.0.1");
              ("rport", VInt 10002);
              ("mapping", VDict [("2:202", "1:101")])])
       _addNIOCallback_]
  ∧ restricted_mapping "2" (_settings_mapping (this w)) = [("1:101", "2:202")]
  ∧ py_eq (VDict [("2:202", "1:101")])
          (VDict (restricted_mapping "2" (_settings_mapping (this w)))) = false.
Proof. vm_compute. repeat split. Qed.

(** Where the port is only ever a source, the payload's mapping is the
    restriction. *)
Example addNIO_example_port_0 :
  nio_mapping "0" [("0:100", "1:200"); ("1:201", "2:300")] = [("0:100", "1:200")]
  ∧ nio_mapping "0" [("0:100", "1:200"); ("2:300", "0:400")]
    = [("0:100", "1:200"); ("0:400", "2:300")].
Proof. split; reflexivity. Qed.

End FRSWNio.

(** ** Frame-relay switch: reconciling the ports with a new mapping *)

Module FRSWUpdate.
Import FRSW.

Lemma contains_elem (x : string) (l : list string) : contains x l = true ↔ x ∈ l.
Proof.
  unfold contains. rewrite existsb_exists. split.
  - intros (y & Hy & ->%String.eqb_eq). by apply list_elem_of_In.
  - intros Hx. exists x. split; [by apply list_elem_of_In | apply String.eqb_refl].
Qed.

Lemma add_label_elem (label x : string) (acc : list string) :
  x ∈ add_label label acc ↔ x = label ∨ x ∈ acc.
Proof.
  unfold add_label. destruct (contains label acc) eqn:Hc.
  - apply contains_elem in Hc. split; [by right | by intros [->|?]].
  - rewrite elem_of_app, list_elem_of_singleton. tauto.
Qed.

Lemma endpoint_labels_snoc mapping entry :
  endpoint_labels (mapping ++ [entry])
  = add_label (split0 ":" entry.2)
      (add_label (split0 ":" entry.1) (endpoint_labels mapping)).
Proof. unfold endpoint_labels. by rewrite foldl_app. Qed.

(** The list built by the first loop holds exactly the labels of the
    mapping. *)
Lemma endpoint_labels_spec mapping label :
  label ∈ endpoint_labels mapping ↔ is_label mapping label.
Proof.
  unfold is_label.
  induction mapping as [|[s d] mapping IH] using rev_ind.
  - split; [by intros ?%elem_of_nil | by intros (? & ? & ?%elem_of_nil & _)].
  - rewrite endpoint_labels_snoc, !add_label_elem, IH. simpl. split.
    + intros [->|[->|(s' & d' & Hin & Hl)]].
      * exists s, d. split; [set_solver | by right].
      * exists s, d. split; [set_solver | by left].
      * exists s', d'. split; [set_solver | done].
    + intros (s' & d' & [Hin|[= -> ->]%list_elem_of_singleton]%elem_of_app & Hl).
      * right. right. eauto.
      * destruct Hl; [right; by left | by left].
Qed.

Lemma bound_lookup (h : list Port) (l : loc) :
  bound h l ↔ ∃ p, h !! l = Some p ∧ isFree p = false.
Proof.
  unfold bound. split.
  - intros Hb. destruct (h !! l) as [p|] eqn:Hl.
    + exists p. by rewrite (list_lookup_total_correct _ _ _ Hl) in Hb.
    + rewrite list_lookup_total_alt, Hl in Hb. done.
  - intros (p & Hl & Hf). by rewrite (list_lookup_total_correct _ _ _ Hl).
Qed.

Lemma set_ports_same w ps :
  _ports (this w) = ps → set_this (set_ports ps) w = w.
Proof. destruct w as [h [] t]. simpl. by intros ->. Qed.

(** One turn of the second loop, by cases. *)
Lemma reconcile_free p copy tc w ports' :
  isFree (heap w !!! p) = true →
  remove_first p (_ports (this w)) = Some ports' →
  reconcile (p :: copy) tc w = reconcile copy tc (set_this (set_ports ports') w).
Proof.
  intros Hfree Hrm. simpl. unfold mbind, M_bind, deref, gets, lift, list_remove, modify.
  by rewrite Hfree, Hrm.
Qed.

Lemma reconcile_bound p copy tc w tc1 :
  isFree (heap w !!! p) = false →
  remove_first (name (heap w !!! p)) tc = Some tc1 →
  reconcile (p :: copy) tc w = reconcile copy tc1 w.
Proof.
  intros Hfree Hrm. simpl. unfold mbind, M_bind, deref, gets, lift, list_remove.
  by rewrite Hfree, Hrm.
Qed.

Lemma reconcile_bound_missing p copy tc w :
  isFree (heap w !!! p) = false →
  remove_first (name (heap w !!! p)) tc = None →
  reconcile (p :: copy) tc w = (Raise ValueError, w).
Proof.
  intros Hfree Hrm. simpl. unfold mbind, M_bind, deref, gets, lift, list_remove.
  by rewrite Hfree, Hrm.
Qed.

(** The second loop.  With [kept] the ports already scanned and left in
    place, it either runs through [copy], dropping its free ports and
    taking the names of its bound ports off [ports_to_create], or it stops
    with [ValueError] at a bound port ([culprit]) whose name it cannot take
    off, the ports after it untouched. *)
Lemma reconcile_run (copy : list loc) : ∀ (kept : list loc) (tc : list string) (w : world),
  _ports (this w) = kept ++ copy →
  Forall (bound (heap w)) kept →
  (∃ tc', reconcile copy tc w
          = (Return tc', set_this (set_ports (kept ++ filter (bound (heap w)) copy)) w)
     ∧ tc' `sublist_of` tc
     ∧ (∀ x, x ∈ tc → x ∈ tc' ∨ ∃ l, l ∈ copy ∧ bound (heap w) l ∧ name (heap w !!! l) = x)
     ∧ (∀ l, l ∈ copy → bound (heap w) l → name (heap w !!! l) ∈ tc))
  ∨ (∃ scanned culprit rest,
       copy = scanned ++ culprit :: rest
       ∧ bound (heap w) culprit
       ∧ reconcile copy tc w
         = (Raise ValueError,
            set_this (set_ports (kept ++ filter (bound (heap w)) scanned
                                 ++ culprit :: rest)) w)).
Proof.
  induction copy as [|p copy IH]; intros kept tc w Hports Hkept.
  - left. exists tc. simpl. split; [|split; [done|split]].
    + rewrite app_nil_r in *. by rewrite set_ports_same.
    + intros x Hx. by left.
    + intros l Hl. by apply elem_of_nil in Hl.
  - destruct (isFree (heap w !!! p)) eqn:Hfree.
    + (* a free port: it is taken out of the list *)
      assert (Hnb : ¬ bound (heap w) p) by (unfold bound; congruence).
      assert (p ∉ kept) as Hnotin.
      { intros Hin. apply Hnb. by eapply (proj1 (Forall_forall _ _) Hkept). }
      assert (Hrm : remove_first p (_ports (this w)) = Some (kept ++ copy)).
      { rewrite Hports. by apply remove_first_middle. }
      rewrite (reconcile_free _ _ _ _ _ Hfree Hrm).
      rewrite (filter_cons_False _ _ _ Hnb).
      set (w1 := set_this (set_ports (kept ++ copy)) w).
      destruct (IH kept tc w1 eq_refl Hkept)
        as [(tc' & Hrun & Hsub & Hcov & Hnames)
           | (scanned & culprit & rest & -> & Hb & Hrun)].
      * left. exists tc'. split; [exact Hrun|]. split; [done|]. split.
        -- intros x Hx. destruct (Hcov x Hx) as [?|(l & Hl & ? & ?)]; [by left|].
           right. exists l. split; [by right | done].
        -- intros l [->|Hl]%elem_of_cons Hb; [done | by apply Hnames].
      * right. exists (p :: scanned), culprit, rest. split; [done|]. split; [done|].
        rewrite (filter_cons_False _ _ _ Hnb). exact Hrun.
    + (* a bound port: its name is taken off the names to create *)
      assert (Hb : bound (heap w) p) by done.
      destruct (remove_first (name (heap w !!! p)) tc) as [tc1|] eqn:Hrm.
      * rewrite (reconcile_bound _ _ _ _ _ Hfree Hrm).
        rewrite (filter_cons_True _ _ _ Hb).
        assert (Hports' : _ports (this w) = (kept ++ [p]) ++ copy).
        { by rewrite <- app_assoc. }
        assert (Hkept' : Forall (bound (heap w)) (kept ++ [p])).
        { apply Forall_app. split; [done|]. by apply Forall_singleton. }
        pose proof (remove_first_sublist _ _ _ Hrm) as Hsub1.
        destruct (IH (kept ++ [p]) tc1 w Hports' Hkept')
          as [(tc' & Hrun & Hsub & Hcov & Hnames)
             | (scanned & culprit & rest & -> & Hbc & Hrun)].
        -- left. exists tc'. rewrite <- app_assoc in Hrun. split; [exact Hrun|].
           split; [by etrans|]. split.
           ++ intros x Hx.
              destruct (remove_first_others _ _ _ Hrm x Hx) as [->|Hx1].
              ** right. exists p. split; [left | done].
              ** destruct (Hcov x Hx1) as [?|(l & Hl & ? & ?)]; [by left|].
                 right. exists l. split; [by right | done].
           ++ intros l [->|Hl]%elem_of_cons Hbl.
              ** destruct (decide (name (heap w !!! p) ∈ tc)) as [?|Hn]; [done|].
                 apply remove_first_None in Hn. congruence.
              ** apply (sublist_subseteq _ _ Hsub1). by apply Hnames.
        -- right. exists (p :: scanned), culprit, rest. split; [done|]. split; [done|].
           rewrite (filter_cons_True _ _ _ Hb).
           rewrite <- app_assoc in Hrun. exact Hrun.
      * rewrite (reconcile_bound_missing _ _ _ _ Hfree Hrm).
        right. exists [], p, copy. split; [done|]. split; [done|].
        rewrite filter_nil. simpl. by rewrite set_ports_same.
Qed.

(** The body of the third loop, by cases on [int(port_name)]. *)
Lemma create_port_run port_name w :
  create_port port_name w
  = match int port_name with
    | Return n =>
        (Return tt,
         {| heap := heap w ++ [{| name := port_name; port := Some n; nio := None |}];
            this := set_ports (_ports (this w) ++ [length (heap w)]) (this w);
            trace := trace w |})
    | Raise e => (Raise e, set_heap (λ h, h ++ [SerialPort port_name]) w)
    end.
Proof.
  unfold create_port, alloc, mbind, M_bind, lift, modify. simpl.
  destruct (int port_name) as [n|e]; [|done].
  unfold set_this, set_heap. simpl.
  rewrite alter_app_r_alt by done. rewrite Nat.sub_diag. reflexivity.
Qed.

(** When the third loop runs to its end, it has put one new free port per
    name on the heap, in order, and appended their addresses to the ports
    list. *)
Lemma create_ports_run names : ∀ w w',
  for_each names create_port w = (Return tt, w') →
  ∃ objs, heap w' = heap w ++ objs
    ∧ name <$> objs = names
    ∧ Forall (λ obj, nio obj = None) objs
    ∧ _ports (this w') = _ports (this w) ++ seq (length (heap w)) (length names)
    ∧ trace w' = trace w.
Proof.
  induction names as [|port_name names IH]; intros w w'; simpl.
  - intros [= <-]. exists []. by rewrite !app_nil_r.
  - unfold mbind, M_bind. rewrite create_port_run.
    destruct (int port_name) as [n|e]; [|done].
    intros Hrest. apply IH in Hrest as (objs & Hheap & Hnames & Hfree & Hports & Htrace).
    simpl in *.
    exists ({| name := port_name; port := Some n; nio := None |} :: objs).
    rewrite Hheap, Hports, <- !app_assoc. simpl.
    split; [done|]. split; [by f_equal|]. split; [by constructor|].
    split; [|done]. rewrite length_app. simpl. by rewrite Nat.add_1_r.
Qed.

(** [update] with a dictionary under ["mapping"], by the outcome of the
    second loop. *)
Lemma update_run new_settings mapping w :
  new_settings !! "mapping" = Some (VDict mapping) →
  update new_settings w
  = match reconcile (_ports (this w)) (endpoint_labels mapping) w with
    | (Return ports_to_create, w1) =>
        match for_each ports_to_create create_port w1 with
        | (Return _, w2) => (Return tt, set_this (set_mapping mapping) w2)
        | (Raise e, w2) => (Raise e, w2)
        end
    | (Raise e, w1) => (Raise e, w1)
    end.
Proof.
  intros Hm. unfold update, lookup_item, mbind, M_bind, lift, gets, modify.
  rewrite Hm. simpl.
  destruct (reconcile _ _ w) as [[tc|e] w1]; [|done].
  destruct (for_each tc create_port w1) as [[[]|e] w2]; done.
Qed.

(** What a completed [update] leaves: the bound ports of before, in
    order, then one new free port for each label that no bound port
    carries. *)
Lemma update_completed new_settings mapping w w' :
  new_settings !! "mapping" = Some (VDict mapping) →
  update new_settings w = (Return tt, w') →
  ∃ created objs,
    heap w' = heap w ++ objs
    ∧ name <$> objs = created
    ∧ _ports (this w')
      = filter (bound (heap w)) (_ports (this w))
        ++ seq (length (heap w)) (length created)
    ∧ (∀ label, is_label mapping label →
         label ∈ created
         ∨ ∃ l, l ∈ _ports (this w) ∧ bound (heap w) l ∧ name (heap w !!! l) = label)
    ∧ _settings_mapping (this w') = mapping.
Proof.
  intros Hm Hrun. rewrite (update_run _ _ _ Hm) in Hrun.
  destruct (reconcile_run (_ports (this w)) [] (endpoint_labels mapping) w
              eq_refl (Forall_nil_2 _))
    as [(tc' & Hrec & _ & Hcov & _) | (scanned & culprit & rest & _ & _ & Hrec)];
    rewrite Hrec in Hrun; [|done].
  simpl in Hrun.
  destruct (for_each tc' create_port _) as [[[]|e] w2] eqn:Hcreate; [|done].
  injection Hrun as <-.
  apply create_ports_run in Hcreate as (objs & Hheap & Hnames & _ & Hports & _).
  simpl in *. exists tc', objs. split; [done|]. split; [done|]. split; [done|].
  split; [|done]. intros label Hl. apply Hcov. by apply endpoint_labels_spec.
Qed.

(** C2. After a call [update(new_settings)] that completes, with [mapping]
    the new mapping: every endpoint label of [mapping] has a port in the
    ports list; every port that was in the list, was free, and whose name
    is no label of [mapping] is no longer in the list; and every port that
    was in the list and bound to an interface is still in the list,
    unchanged. *)
Theorem update_reconciles_ports (w w' : world) (new_settings : gmap string pyvalue)
    (mapping : dict string) :
  new_settings !! "mapping" = Some (VDict mapping) →
  update new_settings w = (Return tt, w') →
  (∀ label, is_label mapping label → has_port w' label)
  ∧ (∀ l p, l ∈ _ports (this w) → heap w !! l = Some p → isFree p = true →
            ¬ is_label mapping (name p) → l ∉ _ports (this w'))
  ∧ (∀ l p, l ∈ _ports (this w) → heap w !! l = Some p → isFree p = false →
            l ∈ _ports (this w') ∧ heap w' !! l = Some p).
Proof.
  intros Hm Hrun.
  destruct (update_completed _ _ _ _ Hm Hrun)
    as (created & objs & Hheap & Hnames & Hports & Hcov & _).
  split; [|split].
  - intros label Hl. unfold has_port.
    destruct (Hcov label Hl) as [Hnew | (l & Hin & Hb & Hname)].
    + apply list_elem_of_lookup in Hnew as [i Hi].
      rewrite <- Hnames, list_lookup_fmap in Hi.
      destruct (objs !! i) as [obj|] eqn:Hobj; [|done].
      injection Hi as Hi.
      exists (length (heap w) + i)%nat, obj. split; [|split; [|done]].
      * rewrite Hports, elem_of_app. right. apply elem_of_seq.
        apply lookup_lt_Some in Hobj. rewrite <- Hnames, length_fmap. lia.
      * rewrite Hheap, lookup_app_r by lia.
        by replace (length (heap w) + i - length (heap w))%nat with i by lia.
    + apply bound_lookup in Hb as Hb'. destruct Hb' as (p & Hp & _).
      exists l, p. split; [|split].
      * rewrite Hports, elem_of_app. left. by apply list_elem_of_filter.
      * rewrite Hheap. by apply lookup_app_l_Some.
      * by rewrite (list_lookup_total_correct _ _ _ Hp) in Hname.
  - intros l p Hin Hp Hfree _. rewrite Hports, elem_of_app. intros [Hl|Hl].
    + apply list_elem_of_filter in Hl as [Hb _].
      apply bound_lookup in Hb as (p' & Hp' & Hf). congruence.
    + apply elem_of_seq in Hl. apply lookup_lt_Some in Hp. lia.
  - intros l p Hin Hp Hbound. split.
    + rewrite Hports, elem_of_app. left. apply list_elem_of_filter.
      split; [|done]. apply bound_lookup. eauto.
    + rewrite Hheap. by apply lookup_app_l_Some.
Qed.

Lemma update_reconciles_ports_witness :
  sample_settings [("1:101", "2:202")] !! "mapping" = Some (VDict [("1:101", "2:202")])
  ∧ update (sample_settings [("1:101", "2:202")]) (sample_switch "5" [])
    = (Return tt, (update (sample_settings [("1:101", "2:202")]) (sample_switch "5" [])).2)
  ∧ (∀ label, is_label [("1:101", "2:202")] label →
       has_port (update (sample_settings [("1:101", "2:202")]) (sample_switch "5" [])).2
         label)
  ∧ (∀ l p, l ∈ _ports (this (sample_switch "5" [])) →
            heap (sample_switch "5" []) !! l = Some p → isFree p = true →
            ¬ is_label [("1:101", "2:202")] (name p) →
            l ∉ _ports (this (update (sample_settings [("1:101", "2:202")])
                                (sample_switch "5" [])).2))
  ∧ (∀ l p, l ∈ _ports (this (sample_switch "5" [])) →
            heap (sample_switch "5" []) !! l = Some p → isFree p = false →
            l ∈ _ports (this (update (sample_settings [("1:101", "2:202")])
                                (sample_switch "5" [])).2)
            ∧ heap (update (sample_settings [("1:101", "2:202")])
                      (sample_switch "5" [])).2 !! l = Some p).
Proof.
  assert (Hm : sample_settings [("1:101", "2:202")] !! "mapping"
               = Some (VDict [("1:101", "2:202")])) by reflexivity.
  assert (Hrun : update (sample_settings [("1:101", "2:202")]) (sample_switch "5" [])
                 = (Return tt, (update (sample_settings [("1:101", "2:202")])
                                  (sample_switch "5" [])).2))
    by (vm_compute; reflexivity).
  split; [exact Hm|]. split; [exact Hrun|].
  exact (update_reconciles_ports _ _ _ _ Hm Hrun).
Defined.

(** The same call, evaluated: the free port ["5"] is gone, the bound port
    ["1"] stays, and a port ["2"] with number 2 is new. *)
Example update_example :
  (update (sample_settings [("1:101", "2:202")]) (sample_switch "5" [])).2
  = {| heap := [ {| name := "1"; port := Some 1;
                    nio := Some (NIO_UDP 10001 "127.0.0.1" 10002) |};
                 {| name := "5"; port := None; nio := None |};
                 {| name := "2"; port := Some 2; nio := None |} ];
       this := set_mapping [("1:101", "2:202")]
                 (set_ports [0%nat; 2%nat] (set_frsw_id (VInt 7) (init 0%nat)));
       trace := [] |}.
Proof. vm_compute. reflexivity. Qed.

(** A free port named in the mapping is not kept either: it is replaced
    by a new port object of that name. *)
Example update_replaces_free_port :
  _ports (this (update (sample_settings [("1:101", "2:202")])
                  (sample_switch "2" [])).2) = [0%nat; 2%nat].
Proof. vm_compute. reflexivity. Qed.

(** C10. If some port of the ports list carries an interface and its name
    is no endpoint label of the new mapping, [update(new_settings)] raises
    [ValueError], from the removal of a name that the list of names to
    create does not hold.  It stops at a bound port ([culprit]): the free
    ports scanned before it are already out of the ports list, the ports
    from [culprit] on are as they were, no port has been created, and the
    stored mapping is the old one. *)
Theorem update_raises_at_bound_port_outside_mapping (w : world)
    (new_settings : gmap string pyvalue) (mapping : dict string) (l : loc) (p : Port) :
  new_settings !! "mapping" = Some (VDict mapping) →
  l ∈ _ports (this w) → heap w !! l = Some p → isFree p = false →
  ¬ is_label mapping (name p) →
  ∃ (w' : world) (scanned : list loc) (culprit : loc) (rest : list loc),
    update new_settings w = (Raise ValueError, w')
    ∧ _ports (this w) = scanned ++ culprit :: rest
    ∧ bound (heap w) culprit
    ∧ _ports (this w') = filter (bound (heap w)) scanned ++ culprit :: rest
    ∧ _settings_mapping (this w') = _settings_mapping (this w)
    ∧ heap w' = heap w
    ∧ trace w' = trace w.
Proof.
  intros Hm Hin Hp Hbound Hnolabel. rewrite (update_run _ _ _ Hm).
  destruct (reconcile_run (_ports (this w)) [] (endpoint_labels mapping) w
              eq_refl (Forall_nil_2 _))
    as [(tc' & _ & _ & _ & Hnames) | (scanned & culprit & rest & Hsplit & Hb & Hrec)].
  - exfalso. apply Hnolabel. apply endpoint_labels_spec.
    assert (Hbl : bound (heap w) l) by (apply bound_lookup; eauto).
    specialize (Hnames l Hin Hbl).
    by rewrite (list_lookup_total_correct _ _ _ Hp) in Hnames.
  - rewrite Hrec. simpl.
    eexists _, scanned, culprit, rest. split; [reflexivity|]. done.
Qed.

Lemma update_raises_at_bound_port_outside_mapping_witness :
  (sample_settings [("3:101", "2:202")] !! "mapping" = Some (VDict [("3:101", "2:202")])
   ∧ 0%nat ∈ _ports (this (sample_switch "5" [("1:1", "5:5")]))
   ∧ heap (sample_switch "5" [("1:1", "5:5")]) !! 0%nat
     = Some {| name := "1"; port := Some 1;
               nio := Some (NIO_UDP 10001 "127.0.0.1" 10002) |}
   ∧ isFree {| name := "1"; port := Some 1;
               nio := Some (NIO_UDP 10001 "127.0.0.1" 10002) |} = false
   ∧ ¬ is_label [("3:101", "2:202")] "1")
  ∧ ∃ (w' : world) (scanned : list loc) (culprit : loc) (rest : list loc),
      update (sample_settings [("3:101", "2:202")]) (sample_switch "5" [("1:1", "5:5")])
      = (Raise ValueError, w')
      ∧ _ports (this (sample_switch "5" [("1:1", "5:5")])) = scanned ++ culprit :: rest
      ∧ bound (heap (sample_switch "5" [("1:1", "5:5")])) culprit
      ∧ _ports (this w')
        = filter (bound (heap (sample_switch "5" [("1:1", "5:5")]))) scanned
          ++ culprit :: rest
      ∧ _settings_mapping (this w')
        = _settings_mapping (this (sample_switch "5" [("1:1", "5:5")]))
      ∧ heap w' = heap (sample_switch "5" [("1:1", "5:5")])
      ∧ trace w' = trace (sample_switch "5" [("1:1", "5:5")]).
Proof.
  assert (Hm : sample_settings [("3:101", "2:202")] !! "mapping"
               = Some (VDict [("3:101", "2:202")])) by reflexivity.
  assert (Hin : 0%nat ∈ _ports (this (sample_switch "5" [("1:1", "5:5")]))).
  { simpl. right. left. }
  assert (Hp : heap (sample_switch "5" [("1:1", "5:5")]) !! 0%nat
               = Some {| name := "1"; port := Some 1;
                         nio := Some (NIO_UDP 10001 "127.0.0.1" 10002) |})
    by reflexivity.
  assert (Hb : isFree {| name := "1"; port := Some 1;
                         nio := Some (NIO_UDP 10001 "127.0.0.1" 10002) |} = false)
    by reflexivity.
  assert (Hn : ¬ is_label [("3:101", "2:202")] "1").
  { intros (s & d & Hsd & Hl). apply list_elem_of_singleton in Hsd as [= -> ->].
    destruct Hl as [Hl|Hl]; vm_compute in Hl; discriminate. }
  split; [by repeat split|].
  exact (update_raises_at_bound_port_outside_mapping _ _ _ _ _ Hm Hin Hp Hb Hn).
Defined.

(** The same call, evaluated: the free port scanned first is gone, the
    bound port is left alone, nothing is created, the mapping is the old
    one. *)
Example update_raises_example :
  update (sample_settings [("3:101", "2:202")]) (sample_switch "5" [("1:1", "5:5")])
  = (Raise ValueError,
     {| heap := heap (sample_switch "5" [("1:1", "5:5")]);
        this := set_mapping [("1:1", "5:5")]
                  (set_ports [0%nat] (set_frsw_id (VInt 7) (init 0%nat)));
        trace := [] |}).
Proof. vm_compute. reflexivity. Qed.

End FRSWUpdate.

(** ** Frame-relay switch: every way [update] can end *)

Module FRSWOutcome.
Import FRSW FRSWView FRSWUpdate.

Lemma remove_first_perm {A} `{EqDecision A} (x : A) (l l' : list A) :
  remove_first x l = Some l' → l ≡ₚ x :: l'.
Proof.
  revert l'. induction l as [|y l IH]; intros l'; simpl; [done|].
  case_decide as Hy.
  - intros [= <-]. by subst.
  - destruct (remove_first x l) as [l0|]; simpl; [|done].
    intros [= <-]. rewrite (IH _ eq_refl). apply Permutation_swap.
Qed.

Lemma int_raises_ValueError s e : int s = Raise e → e = ValueError.
Proof. unfold int. by destruct (match lstrip s with "" => _ | _ => _ end); intros [=]. Qed.

Lemma add_label_NoDup label acc : NoDup acc → NoDup (add_label label acc).
Proof.
  intros Hnd. unfold add_label. destruct (contains label acc) eqn:Hc; [done|].
  apply NoDup_app. split; [done|]. split; [|apply NoDup_singleton].
  intros x Hx ->%list_elem_of_singleton.
  apply contains_elem in Hx. congruence.
Qed.

(** The first loop never lists a label twice. *)
Lemma endpoint_labels_NoDup mapping : NoDup (endpoint_labels mapping).
Proof.
  induction mapping as [|entry mapping IH] using rev_ind; [constructor|].
  rewrite endpoint_labels_snoc. by do 2 apply add_label_NoDup.
Qed.

Lemma reconcile_free_missing p copy tc w :
  isFree (heap w !!! p) = true →
  remove_first p (_ports (this w)) = None →
  reconcile (p :: copy) tc w = (Raise ValueError, w).
Proof.
  intros Hfree Hrm. simpl. unfold mbind, M_bind, deref, gets, lift, list_remove.
  by rewrite Hfree, Hrm.
Qed.

(** When the second loop returns, the names it was given are those of the
    bound ports it scanned, each taken off once, and the names it hands
    on. *)
Lemma reconcile_returns copy : ∀ tc w tc' w1,
  reconcile copy tc w = (Return tc', w1) →
  heap w1 = heap w
  ∧ tc ≡ₚ (name_at (heap w) <$> filter (bound (heap w)) copy) ++ tc'.
Proof.
  induction copy as [|p copy IH]; intros tc w tc' w1 Hrun.
  - simpl in Hrun. by injection Hrun as <- <-.
  - destruct (isFree (heap w !!! p)) eqn:Hfree.
    + assert (Hnb : ¬ bound (heap w) p) by (unfold bound; congruence).
      rewrite (filter_cons_False _ _ _ Hnb).
      destruct (remove_first p (_ports (this w))) as [ports'|] eqn:Hrm.
      * rewrite (reconcile_free _ _ _ _ _ Hfree Hrm) in Hrun.
        by apply IH in Hrun as [Hheap Hperm].
      * by rewrite (reconcile_free_missing _ _ _ _ Hfree Hrm) in Hrun.
    + assert (Hb : bound (heap w) p) by done.
      rewrite (filter_cons_True _ _ _ Hb).
      destruct (remove_first (name (heap w !!! p)) tc) as [tc1|] eqn:Hrm.
      * rewrite (reconcile_bound _ _ _ _ _ Hfree Hrm) in Hrun.
        apply IH in Hrun as [Hheap Hperm]. split; [done|].
        rewrite (remove_first_perm _ _ _ Hrm), Hperm. done.
      * by rewrite (reconcile_bound_missing _ _ _ _ Hfree Hrm) in Hrun.
Qed.

(** The third loop, however it ends: it has appended [k] new ports, whose
    objects are the first [k] of the objects [objs] it put on the heap;
    it returns exactly when every name is an integer literal, and raises
    [ValueError] otherwise. *)
Lemma create_ports_cases names : ∀ w,
  ∃ r w' objs k,
    for_each names create_port w = (r, w')
    ∧ heap w' = heap w ++ objs
    ∧ this w' = set_ports (_ports (this w) ++ seq (length (heap w)) k) (this w)
    ∧ trace w' = trace w
    ∧ (r = Return tt ∧ Forall2 created names objs ∧ k = length objs
       ∨ r = Raise ValueError ∧ ¬ Forall is_int names).
Proof.
  induction names as [|port_name names IH]; intros w.
  - exists (Return tt), w, [], 0%nat. simpl. rewrite !app_nil_r.
    split; [done|]. split; [done|]. split; [by destruct w as [h [] t]|].
    split; [done|]. left. by repeat split.
  - simpl. unfold mbind, M_bind. rewrite create_port_run.
    destruct (int port_name) as [n|e] eqn:Hint.
    + set (w1 := {| heap := _; this := _; trace := _ |}).
      destruct (IH w1) as (r & w' & objs & k & Hrun & Hheap & Hthis & Htrace & Hr).
      exists r, w', ({| name := port_name; port := Some n; nio := None |} :: objs),
        (S k).
      simpl in *. rewrite Hrun. split; [done|].
      split; [by rewrite Hheap, <- app_assoc|].
      split.
      { rewrite Hthis, length_app, <- app_assoc. simpl.
        by rewrite Nat.add_1_r. }
      split; [done|].
      destruct Hr as [(-> & Hobjs & ->) | [-> Hnot]].
      * left. split; [done|]. split; [|done]. constructor; [|done].
        exists n. done.
      * right. split; [done|]. intros Hall. apply Hnot.
        by apply Forall_cons in Hall as [_ ?].
    + apply int_raises_ValueError in Hint as Hv. subst e.
      exists (Raise ValueError), (set_heap (λ h, h ++ [SerialPort port_name]) w),
        [SerialPort port_name], 0%nat.
      simpl. rewrite app_nil_r. split; [done|]. split; [done|].
      split; [by destruct w as [h [] t]|]. split; [done|].
      right. split; [done|]. intros Hall.
      apply Forall_cons in Hall as [[m Hm] _]. congruence.
Qed.

Lemma created_is_int names objs : Forall2 created names objs → Forall is_int names.
Proof.
  induction 1 as [|s obj names objs (n & Hn & _) _ IH]; constructor; [|done].
  by exists n.
Qed.

Lemma created_names names objs : Forall2 created names objs → name <$> objs = names.
Proof.
  induction 1 as [|s obj names objs (n & _ & ->) _ IH]; [done|].
  simpl. by f_equal.
Qed.

(** Reading the new objects back through their addresses. *)
Lemma new_objects_at {B} (f : Port → B) (h objs : list Port) :
  (λ l, f ((h ++ objs) !!! l)) <$> seq (length h) (length objs) = f <$> objs.
Proof.
  apply list_eq. intros i. rewrite !list_lookup_fmap.
  destruct (decide (i < length objs)%nat) as [Hi|Hi].
  - rewrite lookup_seq_lt by done. simpl.
    rewrite lookup_total_app_r by lia.
    replace (length h + i - length h)%nat with i by lia.
    destruct (lookup_lt_is_Some_2 objs i Hi) as [obj Hobj].
    by rewrite (list_lookup_total_correct _ _ _ Hobj), Hobj.
  - rewrite lookup_seq_ge by lia. rewrite lookup_ge_None_2 by lia. done.
Qed.

Lemma bound_names_at (h objs : list Port) (ls : list loc) :
  name_at (h ++ objs) <$> filter (bound h) ls = name_at h <$> filter (bound h) ls.
Proof.
  apply list_fmap_ext. intros i l Hl.
  apply list_elem_of_lookup_2, list_elem_of_filter in Hl as [Hb _].
  apply bound_lookup in Hb as (p & Hp & _). unfold name_at.
  by rewrite (lookup_total_app_l _ _ _ (lookup_lt_Some _ _ _ Hp)).
Qed.

(** [update], however it ends.  [scanned] are the ports the second loop
    got past and [rest] those it did not reach; [objs] are the port
    objects the third loop put on the heap, the first [k] of which it
    appended to the ports list. *)
Lemma update_cases new_settings mapping w :
  new_settings !! "mapping" = Some (VDict mapping) →
  ∃ r w' objs k scanned rest,
    update new_settings w = (r, w')
    ∧ heap w' = heap w ++ objs
    ∧ trace w' = trace w
    ∧ _ports (this w) = scanned ++ rest
    ∧ _ports (this w')
      = filter (bound (heap w)) scanned ++ rest ++ seq (length (heap w)) k
    ∧ (r = Return tt ∧ rest = [] ∧ k = length objs
       ∧ (∃ names, Forall2 created names objs
                   ∧ endpoint_labels mapping ≡ₚ bound_names w ++ names)
       ∧ _settings_mapping (this w') = mapping
       ∨ r = Raise ValueError
         ∧ _settings_mapping (this w') = _settings_mapping (this w)).
Proof.
  intros Hm. rewrite (update_run _ _ _ Hm).
  destruct (reconcile_run (_ports (this w)) [] (endpoint_labels mapping) w
              eq_refl (Forall_nil_2 _))
    as [(tc' & Hrec & _) | (scanned & culprit & rest & Hsplit & _ & Hrec)].
  - apply reconcile_returns in Hrec as Hperm. destruct Hperm as [_ Hperm].
    rewrite Hrec. simpl.
    set (w1 := set_this (set_ports (filter (bound (heap w)) (_ports (this w)))) w).
    destruct (create_ports_cases tc' w1)
      as (r & w2 & objs & k & Hrun & Hheap & Hthis & Htrace & Hr).
    rewrite Hrun. simpl in *.
    destruct Hr as [(-> & Hobjs & ->) | [-> Hnot]].
    + exists (Return tt), (set_this (set_mapping mapping) w2), objs, (length objs),
        (_ports (this w)), [].
      simpl. rewrite Hthis, app_nil_r. simpl.
      split; [done|]. split; [done|]. split; [done|]. split; [done|].
      split; [done|]. left. split; [done|]. split; [done|]. split; [done|].
      split; [|done]. exists tc'. done.
    + exists (Raise ValueError), w2, objs, k, (_ports (this w)), [].
      rewrite Hthis, app_nil_r. simpl.
      split; [done|]. split; [done|]. split; [done|]. split; [done|].
      split; [done|]. right. done.
  - rewrite Hrec. simpl.
    eexists (Raise ValueError), _, [], 0%nat, scanned, (culprit :: rest).
    split; [reflexivity|]. simpl. rewrite !app_nil_r.
    split; [done|]. split; [done|]. split; [done|]. split; [done|]. by right.
Qed.

(** The second loop returns when the bound ports it scans have distinct
    names, all among the names it is given. *)
Lemma reconcile_succeeds (copy : list loc) : ∀ (kept : list loc) (tc : list string) (w : world),
  _ports (this w) = kept ++ copy →
  Forall (bound (heap w)) kept →
  NoDup (name_at (heap w) <$> filter (bound (heap w)) copy) →
  (∀ x, x ∈ name_at (heap w) <$> filter (bound (heap w)) copy → x ∈ tc) →
  ∃ tc' w1, reconcile copy tc w = (Return tc', w1).
Proof.
  induction copy as [|p copy IH]; intros kept tc w Hports Hkept Hnd Hsub.
  - by exists tc, w.
  - destruct (isFree (heap w !!! p)) eqn:Hfree.
    + assert (Hnb : ¬ bound (heap w) p) by (unfold bound; congruence).
      rewrite (filter_cons_False _ _ _ Hnb) in Hnd, Hsub.
      assert (p ∉ kept) as Hnotin.
      { intros Hin. apply Hnb. by eapply (proj1 (Forall_forall _ _) Hkept). }
      assert (Hrm : remove_first p (_ports (this w)) = Some (kept ++ copy)).
      { rewrite Hports. by apply remove_first_middle. }
      rewrite (reconcile_free _ _ _ _ _ Hfree Hrm).
      by apply (IH kept).
    + assert (Hb : bound (heap w) p) by done.
      rewrite (filter_cons_True _ _ _ Hb) in Hnd, Hsub. simpl in Hnd, Hsub.
      apply NoDup_cons in Hnd as [Hnotin Hnd].
      destruct (remove_first (name (heap w !!! p)) tc) as [tc1|] eqn:Hrm.
      * rewrite (reconcile_bound _ _ _ _ _ Hfree Hrm).
        apply (IH (kept ++ [p])); [by rewrite <- app_assoc | | done |].
        { apply Forall_app. split; [done|]. by apply Forall_singleton. }
        intros x Hx.
        assert (x ∈ tc) as Hxtc by (apply Hsub; by right).
        destruct (remove_first_others _ _ _ Hrm x Hxtc) as [->|?]; done.
      * apply remove_first_None in Hrm. exfalso. apply Hrm, Hsub. left.
Qed.

(** X1. For a mapping whose endpoint labels are ASCII text, [update]
    returns exactly when the bound ports of the list have distinct names,
    each of them an endpoint label of the new mapping, and every label
    that no bound port carries is an integer literal; and when it does
    not return it raises [ValueError]. *)
Theorem update_completes_iff (w : world) (new_settings : gmap string pyvalue)
    (mapping : dict string) :
  new_settings !! "mapping" = Some (VDict mapping) →
  Forall is_ascii (endpoint_labels mapping) →
  ((∃ w', update new_settings w = (Return tt, w'))
   ↔ NoDup (bound_names w)
     ∧ (∀ x, x ∈ bound_names w → is_label mapping x)
     ∧ (∀ x, is_label mapping x → x ∈ bound_names w ∨ is_int x))
  ∧ ((∃ w', update new_settings w = (Return tt, w'))
     ∨ (∃ w', update new_settings w = (Raise ValueError, w'))).
Proof.
  intros Hm _. split; [|
    destruct (update_cases _ _ w Hm)
      as (r & w2 & objs & k & scanned & rest & Hrun' & _ & _ & _ & _ & Hr);
    rewrite Hrun'; destruct Hr as [(-> & _) | [-> _]]; [left | right]; by eexists].
  split.
  - intros [w' Hrun].
    destruct (update_cases _ _ w Hm)
      as (r & w2 & objs & k & scanned & rest & Hrun' & _ & _ & _ & _ & Hr).
    rewrite Hrun in Hrun'. injection Hrun' as <- <-.
    destruct Hr as [(_ & _ & _ & (names & Hobjs & Hperm) & _) | [[=] _]].
    pose proof (endpoint_labels_NoDup mapping) as Hnd. rewrite Hperm in Hnd.
    apply NoDup_app in Hnd as (Hnd & _ & _).
    split; [done|]. split.
    + intros x Hx. apply endpoint_labels_spec. rewrite Hperm, elem_of_app. by left.
    + intros x Hx. apply endpoint_labels_spec in Hx.
      rewrite Hperm, elem_of_app in Hx. destruct Hx as [?|Hx]; [by left|].
      right. apply created_is_int in Hobjs.
      by apply (proj1 (Forall_forall _ _) Hobjs).
  - intros (Hnd & Hsub & Hint). rewrite (update_run _ _ _ Hm).
    destruct (reconcile_succeeds (_ports (this w)) [] (endpoint_labels mapping) w
                eq_refl (Forall_nil_2 _) Hnd) as (tc' & w1 & Hrec).
    { intros x Hx. apply endpoint_labels_spec. by apply Hsub. }
    rewrite Hrec. apply reconcile_returns in Hrec as [Hheap Hperm].
    destruct (create_ports_cases tc' w1)
      as (r & w2 & objs & k & Hrun & _ & _ & _ & Hr).
    rewrite Hrun.
    destruct Hr as [(-> & _) | [-> Hnot]]; [by eexists|].
    exfalso. apply Hnot. apply Forall_forall. intros x Hx.
    pose proof (endpoint_labels_NoDup mapping) as Hndl. rewrite Hperm in Hndl.
    apply NoDup_app in Hndl as (_ & Hdisj & _).
    destruct (Hint x) as [Hb|?]; [|by apply Hdisj in Hb|done].
    apply endpoint_labels_spec. rewrite Hperm, elem_of_app. by right.
Qed.

Lemma update_completes_iff_witness :
  (sample_settings [("1:101", "2:202")] !! "mapping" = Some (VDict [("1:101", "2:202")])
   ∧ Forall is_ascii (endpoint_labels [("1:101", "2:202")]))
  ∧ ((∃ w', update (sample_settings [("1:101", "2:202")]) (sample_switch "5" [])
            = (Return tt, w'))
     ↔ NoDup (bound_names (sample_switch "5" []))
       ∧ (∀ x, x ∈ bound_names (sample_switch "5" []) →
               is_label [("1:101", "2:202")] x)
       ∧ (∀ x, is_label [("1:101", "2:202")] x →
               x ∈ bound_names (sample_switch "5" []) ∨ is_int x))
  ∧ ((∃ w', update (sample_settings [("1:101", "2:202")]) (sample_switch "5" [])
            = (Return tt, w'))
     ∨ (∃ w', update (sample_settings [("1:101", "2:202")]) (sample_switch "5" [])
              = (Raise ValueError, w'))).
Proof.
  assert (Hm : sample_settings [("1:101", "2:202")] !! "mapping"
               = Some (VDict [("1:101", "2:202")])) by reflexivity.
  assert (Ha : Forall is_ascii (endpoint_labels [("1:101", "2:202")])).
  { apply (bool_decide_unpack _). vm_compute. exact I. }
  split; [by split|].
  exact (update_completes_iff (sample_switch "5" []) _ _ Hm Ha).
Defined.

(** X2. After an [update] that returns, the ports list has exactly one port
    for each endpoint label of the new mapping and no other port: the
    names of its ports are pairwise distinct, and they are the labels. *)
Theorem update_ports_are_the_labels (w w' : world)
    (new_settings : gmap string pyvalue) (mapping : dict string) :
  new_settings !! "mapping" = Some (VDict mapping) →
  update new_settings w = (Return tt, w') →
  NoDup (port_names w')
  ∧ ∀ label, label ∈ port_names w' ↔ is_label mapping label.
Proof.
  intros Hm Hrun.
  destruct (update_cases _ _ w Hm)
    as (r & w2 & objs & k & scanned & rest & Hrun' & Hheap & _ & Hsplit & Hports & Hr).
  rewrite Hrun in Hrun'. injection Hrun' as <- <-.
  destruct Hr as [(_ & -> & -> & (names & Hobjs & Hperm) & _) | [[=] _]].
  rewrite app_nil_r in Hsplit. subst scanned.
  assert (Hnames : port_names w' = bound_names w ++ names).
  { unfold port_names. rewrite Hports, Hheap. simpl. rewrite fmap_app.
    rewrite bound_names_at. unfold name_at at 2.
    rewrite (new_objects_at name). by rewrite (created_names _ _ Hobjs). }
  split.
  - rewrite Hnames, <- Hperm. apply endpoint_labels_NoDup.
  - intros label. rewrite Hnames, <- Hperm. apply endpoint_labels_spec.
Qed.

Lemma update_ports_are_the_labels_witness :
  sample_settings [("1:101", "2:202")] !! "mapping" = Some (VDict [("1:101", "2:202")])
  ∧ update (sample_settings [("1:101", "2:202")]) (sample_switch "2" [])
    = (Return tt, (update (sample_settings [("1:101", "2:202")]) (sample_switch "2" [])).2)
  ∧ NoDup (port_names (update (sample_settings [("1:101", "2:202")])
                         (sample_switch "2" [])).2)
  ∧ ∀ label, label ∈ port_names (update (sample_settings [("1:101", "2:202")])
                                   (sample_switch "2" [])).2
             ↔ is_label [("1:101", "2:202")] label.
Proof.
  assert (Hm : sample_settings [("1:101", "2:202")] !! "mapping"
               = Some (VDict [("1:101", "2:202")])) by reflexivity.
  assert (Hrun : update (sample_settings [("1:101", "2:202")]) (sample_switch "2" [])
                 = (Return tt, (update (sample_settings [("1:101", "2:202")])
                                  (sample_switch "2" [])).2))
    by (vm_compute; reflexivity).
  split; [exact Hm|]. split; [exact Hrun|].
  exact (update_ports_are_the_labels _ _ _ _ Hm Hrun).
Defined.

(** X3. After an [update] that returns, every port of the list is either a
    port of the old list that carries an interface, its object untouched,
    or a new object: free, named after an endpoint label of the mapping,
    with [int] of that name as its number. *)
Theorem update_ports_bound_or_created (w w' : world)
    (new_settings : gmap string pyvalue) (mapping : dict string) :
  new_settings !! "mapping" = Some (VDict mapping) →
  update new_settings w = (Return tt, w') →
  ∀ l, l ∈ _ports (this w') →
    (l ∈ _ports (this w) ∧ bound (heap w) l ∧ heap w' !! l = heap w !! l)
    ∨ ((length (heap w) ≤ l)%nat
       ∧ ∃ obj, heap w' !! l = Some obj ∧ created (name obj) obj
                ∧ is_label mapping (name obj)).
Proof.
  intros Hm Hrun l Hl.
  destruct (update_cases _ _ w Hm)
    as (r & w2 & objs & k & scanned & rest & Hrun' & Hheap & _ & Hsplit & Hports & Hr).
  rewrite Hrun in Hrun'. injection Hrun' as <- <-.
  destruct Hr as [(_ & -> & -> & (names & Hobjs & Hperm) & _) | [[=] _]].
  rewrite app_nil_r in Hsplit. subst scanned. simpl in Hports.
  rewrite Hports, elem_of_app in Hl. destruct Hl as [Hl|Hl].
  - left. apply list_elem_of_filter in Hl as [Hb Hin]. split; [done|]. split; [done|].
    apply bound_lookup in Hb as (p & Hp & _).
    rewrite Hheap, Hp. by apply lookup_app_l_Some.
  - right. apply elem_of_seq in Hl as [Hge Hlt]. split; [done|].
    destruct (lookup_lt_is_Some_2 objs (l - length (heap w))) as [obj Hobj]; [lia|].
    exists obj. rewrite Hheap, lookup_app_r by done. split; [done|].
    destruct (Forall2_lookup_r _ _ _ _ _ Hobjs Hobj) as (s & Hs & Hc).
    assert (name obj = s) as Hname by (by destruct Hc as (n & _ & ->)).
    rewrite Hname. split; [done|].
    apply endpoint_labels_spec. rewrite Hperm, elem_of_app. right.
    by eapply list_elem_of_lookup_2.
Qed.

Lemma update_ports_bound_or_created_witness :
  sample_settings [("1:101", "2:202")] !! "mapping" = Some (VDict [("1:101", "2:202")])
  ∧ update (sample_settings [("1:101", "2:202")]) (sample_switch "5" [])
    = (Return tt, (update (sample_settings [("1:101", "2:202")]) (sample_switch "5" [])).2)
  ∧ ∀ l, l ∈ _ports (this (update (sample_settings [("1:101", "2:202")])
                              (sample_switch "5" [])).2) →
      (l ∈ _ports (this (sample_switch "5" []))
       ∧ bound (heap (sample_switch "5" [])) l
       ∧ heap (update (sample_settings [("1:101", "2:202")])
                 (sample_switch "5" [])).2 !! l
         = heap (sample_switch "5" []) !! l)
      ∨ ((length (heap (sample_switch "5" [])) ≤ l)%nat
         ∧ ∃ obj, heap (update (sample_settings [("1:101", "2:202")])
                          (sample_switch "5" [])).2 !! l = Some obj
                  ∧ created (name obj) obj
                  ∧ is_label [("1:101", "2:202")] (name obj)).
Proof.
  assert (Hm : sample_settings [("1:101", "2:202")] !! "mapping"
               = Some (VDict [("1:101", "2:202")])) by reflexivity.
  assert (Hrun : update (sample_settings [("1:101", "2:202")]) (sample_switch "5" [])
                 = (Return tt, (update (sample_settings [("1:101", "2:202")])
                                  (sample_switch "5" [])).2))
    by (vm_compute; reflexivity).
  split; [exact Hm|]. split; [exact Hrun|].
  exact (update_ports_bound_or_created _ _ _ _ Hm Hrun).
Defined.

(** X4. However [update] ends, given a dictionary under ["mapping"]: it
    returns or raises [ValueError]; it sends nothing and emits no signal;
    no port object that existed is modified and every port that carried
    an interface is still in the ports list; and when it raises, the
    stored mapping is the old one. *)
Theorem update_never_drops_bound_ports (w w' : world) (r : result unit)
    (new_settings : gmap string pyvalue) (mapping : dict string) :
  new_settings !! "mapping" = Some (VDict mapping) →
  update new_settings w = (r, w') →
  (r = Return tt ∨ r = Raise ValueError)
  ∧ trace w' = trace w
  ∧ (∀ l p, heap w !! l = Some p → heap w' !! l = Some p)
  ∧ (∀ l, l ∈ _ports (this w) → bound (heap w) l → l ∈ _ports (this w'))
  ∧ (r = Raise ValueError → _settings_mapping (this w') = _settings_mapping (this w)).
Proof.
  intros Hm Hrun.
  destruct (update_cases _ _ w Hm)
    as (r2 & w2 & objs & k & scanned & rest & Hrun' & Hheap & Htrace & Hsplit
        & Hports & Hr).
  rewrite Hrun in Hrun'. injection Hrun' as <- <-.
  split; [destruct Hr as [(-> & _)|[-> _]]; [by left | by right]|].
  split; [done|]. split.
  { intros l p Hp. rewrite Hheap. by apply lookup_app_l_Some. }
  split.
  - intros l Hl Hb. rewrite Hports, !elem_of_app.
    rewrite Hsplit, elem_of_app in Hl. destruct Hl as [Hl|Hl].
    + left. by apply list_elem_of_filter.
    + right. by left.
  - intros ->. by destruct Hr as [([=] & _) | [_ ?]].
Qed.

Lemma update_never_drops_bound_ports_witness :
  (sample_settings [("3:101", "x:202")] !! "mapping" = Some (VDict [("3:101", "x:202")])
   ∧ update (sample_settings [("3:101", "x:202")]) (sample_switch "5" [("1:1", "5:5")])
     = (Raise ValueError,
        (update (sample_settings [("3:101", "x:202")])
           (sample_switch "5" [("1:1", "5:5")])).2))
  ∧ ((Raise ValueError = Return tt ∨ Raise ValueError = Raise (A:=unit) ValueError)
     ∧ trace (update (sample_settings [("3:101", "x:202")])
                (sample_switch "5" [("1:1", "5:5")])).2
       = trace (sample_switch "5" [("1:1", "5:5")])
     ∧ (∀ l p, heap (sample_switch "5" [("1:1", "5:5")]) !! l = Some p →
               heap (update (sample_settings [("3:101", "x:202")])
                       (sample_switch "5" [("1:1", "5:5")])).2 !! l = Some p)
     ∧ (∀ l, l ∈ _ports (this (sample_switch "5" [("1:1", "5:5")])) →
             bound (heap (sample_switch "5" [("1:1", "5:5")])) l →
             l ∈ _ports (this (update (sample_settings [("3:101", "x:202")])
                                 (sample_switch "5" [("1:1", "5:5")])).2))
     ∧ (Raise ValueError = Raise (A:=unit) ValueError →
        _settings_mapping (this (update (sample_settings [("3:101", "x:202")])
                                   (sample_switch "5" [("1:1", "5:5")])).2)
        = _settings_mapping (this (sample_switch "5" [("1:1", "5:5")])))).
Proof.
  assert (Hm : sample_settings [("3:101", "x:202")] !! "mapping"
               = Some (VDict [("3:101", "x:202")])) by reflexivity.
  assert (Hrun : update (sample_settings [("3:101", "x:202")])
                   (sample_switch "5" [("1:1", "5:5")])
                 = (Raise ValueError,
                    (update (sample_settings [("3:101", "x:202")])
                       (sample_switch "5" [("1:1", "5:5")])).2))
    by (vm_compute; reflexivity).
  split; [split; [exact Hm | exact Hrun]|].
  exact (update_never_drops_bound_ports _ _ _ _ _ Hm Hrun).
Defined.

(** A label that is not an integer literal: on a switch whose ports are
    all free, [update] raises [ValueError] while creating the ports; the
    ports created before the bad label are in the list, the old ones are
    gone, and the mapping is not stored. *)
Example update_bad_label :
  let w := {| heap := [ {| name := "9"; port := Some 9; nio := None |} ];
              this := set_ports [0%nat] (init 0%nat); trace := [] |} in
  update (sample_settings [("1:101", "s0:202"); ("3:1", "4:1")]) w
  = (Raise ValueError,
     {| heap := [ {| name := "9"; port := Some 9; nio := None |};
                  {| name := "1"; port := Some 1; nio := None |};
                  {| name := "s0"; port := None; nio := None |} ];
        this := set_ports [1%nat] (init 0%nat); trace := [] |}).
Proof. vm_compute. reflexivity. Qed.

End FRSWOutcome.

(** ** Frame-relay switch: further behaviour of the requests and callbacks *)

Module FRSWMore.
Import FRSW FRSWView FRSWLifecycle FRSWNio FRSWUpdate FRSWOutcome.

Lemma dict_set_fresh {V} (k : string) (v : V) (d : dict V) :
  k ∉ d.*1 → dict_set k v d = d ++ [(k, v)].
Proof.
  induction d as [|[k0 v0] d IH]; simpl; [done|].
  intros [Hne Hk]%not_elem_of_cons.
  destruct (String.eqb_spec k0 k) as [->|_]; [done|]. by rewrite IH.
Qed.

(** The entries of the mapping whose source is on the port. *)
Lemma nio_mapping_sources port_name mapping :
  NoDup mapping.*1 →
  (∀ entry, entry ∈ mapping → String.eqb port_name (split0 ":" entry.2) = false) →
  nio_mapping port_name mapping
  = List.filter (λ entry, String.eqb port_name (split0 ":" entry.1)) mapping.
Proof.
  induction mapping as [|[s d] mapping IH] using rev_ind; intros Hnd Hdest; [done|].
  rewrite nio_mapping_snoc, List.filter_app. unfold nio_mapping_step. simpl.
  rewrite fmap_app in Hnd. apply NoDup_app in Hnd as (Hnd & Hdisj & _).
  assert (Hd : String.eqb port_name (split0 ":" d) = false).
  { apply (Hdest (s, d)), elem_of_app. right. left. }
  rewrite Hd.
  rewrite IH; [|done|intros e He; apply Hdest, elem_of_app; by left].
  destruct (String.eqb port_name (split0 ":" s)); [|by rewrite app_nil_r].
  apply dict_set_fresh. intros Hin.
  apply list_elem_of_fmap in Hin as ([s' d'] & -> & Hin).
  apply list_elem_of_In, List.filter_In in Hin as [Hin _].
  apply (Hdisj s'); [|left].
  apply list_elem_of_fmap. exists (s', d'). split; [done|]. by apply list_elem_of_In.
Qed.

(** X6. When no entry of the current mapping has its destination on the
    port (and the mapping is a dictionary: no key twice), the mapping that
    [addNIO] sends is the current mapping restricted to the entries that
    touch the port, in the order of the current mapping. *)
Theorem addNIO_mapping_of_a_source_port (port_name : string) (mapping : dict string) :
  NoDup mapping.*1 →
  (∀ source destination, (source, destination) ∈ mapping →
     split0 ":" destination ≠ port_name) →
  nio_mapping port_name mapping = restricted_mapping port_name mapping.
Proof.
  intros Hnd Hdest.
  assert (Hd : ∀ entry, entry ∈ mapping →
                 String.eqb port_name (split0 ":" entry.2) = false).
  { intros [s d] He. apply String.eqb_neq. intros ->. by eapply Hdest. }
  rewrite (nio_mapping_sources _ _ Hnd Hd). unfold restricted_mapping.
  apply List.filter_ext_in. intros e He. unfold touches.
  rewrite (Hd e) by (by apply list_elem_of_In). by rewrite orb_false_r.
Qed.

Lemma addNIO_mapping_of_a_source_port_witness :
  (NoDup [("0:100", "1:200"); ("1:201", "2:300"); ("0:101", "2:301")].*1
   ∧ ∀ source destination,
       (source, destination) ∈ [("0:100", "1:200"); ("1:201", "2:300"); ("0:101", "2:301")] →
       split0 ":" destination ≠ "0")
  ∧ nio_mapping "0" [("0:100", "1:200"); ("1:201", "2:300"); ("0:101", "2:301")]
    = restricted_mapping "0" [("0:100", "1:200"); ("1:201", "2:300"); ("0:101", "2:301")].
Proof.
  assert (Hnd : NoDup [("0:100", "1:200"); ("1:201", "2:300"); ("0:101", "2:301")].*1).
  { apply (bool_decide_unpack _). vm_compute. exact I. }
  assert (Hdest : ∀ source destination,
            (source, destination)
              ∈ [("0:100", "1:200"); ("1:201", "2:300"); ("0:101", "2:301")] →
            split0 ":" destination ≠ "0").
  { intros s d Hin. repeat (apply elem_of_cons in Hin as [[= -> ->]|Hin]);
      [by vm_compute..|by apply elem_of_nil in Hin]. }
  split; [split; [exact Hnd | exact Hdest]|].
  exact (addNIO_mapping_of_a_source_port "0" _ Hnd Hdest).
Defined.

(** X7. An error reply without a code or without a message: [_deleteCallback]
    raises [KeyError] for the missing key and emits nothing. *)
Theorem deleteCallback_incomplete_error_reply (w : world)
    (result : gmap string pyvalue) :
  result !! "code" = None ∨ result !! "message" = None →
  ∃ key, result !! key = None
         ∧ _deleteCallback result true w = (Raise (KeyError key), w).
Proof.
  intros Hmissing. unfold _deleteCallback, lookup_item, mbind, M_bind, lift, gets.
  destruct (result !! "message") as [message|] eqn:Hm.
  - destruct Hmissing as [Hc|[=]]. exists "code". simpl. by rewrite Hc.
  - exists "message". done.
Qed.

Lemma deleteCallback_incomplete_error_reply_witness :
  (({[ "message" := VStr "busy" ]} : gmap string pyvalue) !! "code" = None
   ∨ ({[ "message" := VStr "busy" ]} : gmap string pyvalue) !! "message" = None)
  ∧ ∃ key, ({[ "message" := VStr "busy" ]} : gmap string pyvalue) !! key = None
           ∧ _deleteCallback {[ "message" := VStr "busy" ]} true
               {| heap := []; this := init 0%nat; trace := [] |}
             = (Raise (KeyError key), {| heap := []; this := init 0%nat; trace := [] |}).
Proof.
  assert (H : ({[ "message" := VStr "busy" ]} : gmap string pyvalue) !! "code" = None
              ∨ ({[ "message" := VStr "busy" ]} : gmap string pyvalue) !! "message" = None).
  { left. reflexivity. }
  split; [exact H|].
  exact (deleteCallback_incomplete_error_reply _ _ H).
Defined.

(** X8. The id and the name that the create reply assigns are what the later
    requests and signals carry: after [setupCallback(response)], [delete]
    sends the destroy message with the reply's id, and an error reply to
    it is signalled under the reply's name. *)
Theorem setupCallback_then_delete (w : world) (response failure : gmap string pyvalue)
    (error : bool) (id new_name code message : pyvalue) :
  response !! "id" = Some id → response !! "name" = Some new_name →
  failure !! "code" = Some code → failure !! "message" = Some message →
  ∃ w1 w2 w3,
    setupCallback response error w = (Return tt, w1)
    ∧ delete w1 = (Return tt, w2)
    ∧ _deleteCallback failure true w2 = (Return tt, w3)
    ∧ trace w3 = trace w ++
        [ newname_signal new_name;
          delete_links_signal;
          send_message (_server (this w)) "dynamips.frsw.delete"
            (Some [("id", id)]) _deleteCallback_;
          error_signal new_name code message ]
    ∧ _frsw_id (this w3) = id.
Proof.
  intros Hid Hname Hcode Hmessage.
  rewrite (setupCallback_reply _ _ _ _ _ Hid Hname).
  eexists. eexists. eexists. split; [reflexivity|].
  split; [reflexivity|].
  unfold _deleteCallback, lookup_item, mbind, M_bind, lift, gets.
  rewrite Hmessage. simpl. rewrite Hcode. simpl.
  split; [reflexivity|]. simpl. split; [|done].
  by rewrite <- !app_assoc.
Qed.

Lemma setupCallback_then_delete_witness :
  (({[ "id" := VInt 7; "name" := VStr "FR1" ]} : gmap string pyvalue) !! "id"
     = Some (VInt 7)
   ∧ ({[ "id" := VInt 7; "name" := VStr "FR1" ]} : gmap string pyvalue) !! "name"
     = Some (VStr "FR1")
   ∧ ({[ "code" := VInt (-32000); "message" := VStr "busy" ]} : gmap string pyvalue)
       !! "code" = Some (VInt (-32000))
   ∧ ({[ "code" := VInt (-32000); "message" := VStr "busy" ]} : gmap string pyvalue)
       !! "message" = Some (VStr "busy"))
  ∧ ∃ w1 w2 w3,
      setupCallback {[ "id" := VInt 7; "name" := VStr "FR1" ]} false
        {| heap := []; this := init 3%nat; trace := [] |} = (Return tt, w1)
      ∧ delete w1 = (Return tt, w2)
      ∧ _deleteCallback {[ "code" := VInt (-32000); "message" := VStr "busy" ]} true w2
        = (Return tt, w3)
      ∧ trace w3 = trace {| heap := []; this := init 3%nat; trace := [] |} ++
          [ newname_signal (VStr "FR1");
            delete_links_signal;
            send_message (_server (this {| heap := []; this := init 3%nat; trace := [] |}))
              "dynamips.frsw.delete" (Some [("id", VInt 7)]) _deleteCallback_;
            error_signal (VStr "FR1") (VInt (-32000)) (VStr "busy") ]
      ∧ _frsw_id (this w3) = VInt 7.
Proof.
  assert (H1 : ({[ "id" := VInt 7; "name" := VStr "FR1" ]} : gmap string pyvalue) !! "id"
               = Some (VInt 7)) by reflexivity.
  assert (H2 : ({[ "id" := VInt 7; "name" := VStr "FR1" ]} : gmap string pyvalue) !! "name"
               = Some (VStr "FR1")) by reflexivity.
  assert (H3 : ({[ "code" := VInt (-32000); "message" := VStr "busy" ]}
                  : gmap string pyvalue) !! "code" = Some (VInt (-32000)))
    by reflexivity.
  assert (H4 : ({[ "code" := VInt (-32000); "message" := VStr "busy" ]}
                  : gmap string pyvalue) !! "message" = Some (VStr "busy"))
    by reflexivity.
  split; [by repeat split|].
  exact (setupCallback_then_delete _ _ _ false _ _ _ _ H1 H2 H3 H4).
Defined.

(** X9. A port detached with [deleteNIO] does not survive the next [update]
    that returns: the port object is free from then on, and [update]
    keeps no free port (a label of the mapping gets a new object). *)
Theorem deleteNIO_then_update_removes_port (w w' : world) (port_ref : loc) (p : Port)
    (new_settings : gmap string pyvalue) (mapping : dict string) :
  heap w !! port_ref = Some p →
  new_settings !! "mapping" = Some (VDict mapping) →
  update new_settings (deleteNIO port_ref w).2 = (Return tt, w') →
  port_ref ∉ _ports (this w').
Proof.
  intros Hp Hm Hrun Hin.
  set (w1 := (deleteNIO port_ref w).2) in *.
  assert (Hheap : heap w1 !! port_ref
                  = Some {| name := name p; port := port p; nio := None |}).
  { subst w1. unfold deleteNIO, deref, mbind, M_bind, gets, modify. simpl.
    by apply detach_lookup. }
  destruct (update_cases _ _ w1 Hm)
    as (r & w2 & objs & k & scanned & rest & Hrun' & _ & _ & Hsplit & Hports & Hr).
  rewrite Hrun in Hrun'. injection Hrun' as <- <-.
  destruct Hr as [(_ & -> & _) | [[=] _]].
  rewrite Hports, !elem_of_app in Hin. destruct Hin as [Hin|[Hin|Hin]].
  - apply list_elem_of_filter in Hin as [Hb _].
    apply bound_lookup in Hb as (p' & Hp' & Hfree).
    rewrite Hheap in Hp'. by injection Hp' as <-.
  - by apply elem_of_nil in Hin.
  - apply elem_of_seq in Hin as [Hge _]. apply lookup_lt_Some in Hheap. lia.
Qed.

Lemma deleteNIO_then_update_removes_port_witness :
  (heap (sample_switch "5" [("1:1", "5:5")]) !! 0%nat
   = Some {| name := "1"; port := Some 1;
             nio := Some (NIO_UDP 10001 "127.0.0.1" 10002) |}
   ∧ sample_settings [("3:101", "2:202")] !! "mapping"
     = Some (VDict [("3:101", "2:202")])
   ∧ update (sample_settings [("3:101", "2:202")])
       (deleteNIO 0%nat (sample_switch "5" [("1:1", "5:5")])).2
     = (Return tt,
        (update (sample_settings [("3:101", "2:202")])
           (deleteNIO 0%nat (sample_switch "5" [("1:1", "5:5")])).2).2))
  ∧ 0%nat ∉ _ports (this (update (sample_settings [("3:101", "2:202")])
                            (deleteNIO 0%nat (sample_switch "5" [("1:1", "5:5")])).2).2).
Proof.
  assert (Hp : heap (sample_switch "5" [("1:1", "5:5")]) !! 0%nat
               = Some {| name := "1"; port := Some 1;
                         nio := Some (NIO_UDP 10001 "127.0.0.1" 10002) |})
    by reflexivity.
  assert (Hm : sample_settings [("3:101", "2:202")] !! "mapping"
               = Some (VDict [("3:101", "2:202")])) by reflexivity.
  assert (Hrun : update (sample_settings [("3:101", "2:202")])
                   (deleteNIO 0%nat (sample_switch "5" [("1:1", "5:5")])).2
                 = (Return tt,
                    (update (sample_settings [("3:101", "2:202")])
                       (deleteNIO 0%nat (sample_switch "5" [("1:1", "5:5")])).2).2))
    by (vm_compute; reflexivity).
  split; [by repeat split|].
  exact (deleteNIO_then_update_removes_port _ _ _ _ _ _ Hp Hm Hrun).
Defined.

End FRSWMore.

(** ** Dynamips: further behaviour of settings, servers and the store *)

Module DynamipsMore.
Import Dynamips DynamipsStore DynamipsSettings DynamipsServers DynamipsImages.

(** X10. Saving the catalogue touches nothing outside the ["IOS_images"] group
    of the store, and nothing of the module or of its servers. *)
Theorem saveIOSImages_keeps_other_settings (w : world) (key : string) :
  key ≠ "IOS_images" →
  QSettings.starts_with "IOS_images/" key = false →
  persisted (_saveIOSImages w).2 !! key = persisted w !! key
  ∧ this (_saveIOSImages w).2 = this w
  ∧ trace (_saveIOSImages w).2 = trace w.
Proof.
  intros Hne Hout. rewrite saveIOSImages_saved. simpl. split; [|done].
  pose proof (saved_others (_ios_images (this w)) (persisted w)) as Hothers.
  apply (f_equal (λ m, m !! key)) in Hothers. unfold others in Hothers.
  assert (Hkey : ∀ v, QSettings.outside "IOS_images" (key, v)) by (by split).
  destruct (saved _ _ !! key) as [v|] eqn:Hv.
  - rewrite (map_lookup_filter_Some_2 _ _ _ _ Hv (Hkey v)) in Hothers.
    symmetry in Hothers. by apply map_lookup_filter_Some in Hothers as [-> _].
  - destruct (persisted w !! key) as [v|] eqn:Hw; [|done].
    rewrite (map_lookup_filter_Some_2 _ _ _ _ Hw (Hkey v)) in Hothers.
    apply map_lookup_filter_Some in Hothers as [Hothers _]. congruence.
Qed.

Lemma saveIOSImages_keeps_other_settings_witness :
  ("Dynamips/path" ≠ "IOS_images"
   ∧ QSettings.starts_with "IOS_images/" "Dynamips/path" = false)
  ∧ (persisted (_saveIOSImages
                  (fresh_world ∅ [("local:a", {[ "path" := VStr "/a" ]})]
                     {[ "Dynamips/path" := VStr "dynamips" ]} 0%nat)).2)
      !! "Dynamips/path"
    = (persisted (fresh_world ∅ [("local:a", {[ "path" := VStr "/a" ]})]
                    {[ "Dynamips/path" := VStr "dynamips" ]} 0%nat)) !! "Dynamips/path"
  ∧ this (_saveIOSImages
            (fresh_world ∅ [("local:a", {[ "path" := VStr "/a" ]})]
               {[ "Dynamips/path" := VStr "dynamips" ]} 0%nat)).2
    = this (fresh_world ∅ [("local:a", {[ "path" := VStr "/a" ]})]
              {[ "Dynamips/path" := VStr "dynamips" ]} 0%nat)
  ∧ trace (_saveIOSImages
             (fresh_world ∅ [("local:a", {[ "path" := VStr "/a" ]})]
                {[ "Dynamips/path" := VStr "dynamips" ]} 0%nat)).2
    = trace (fresh_world ∅ [("local:a", {[ "path" := VStr "/a" ]})]
               {[ "Dynamips/path" := VStr "dynamips" ]} 0%nat).
Proof.
  assert (H1 : "Dynamips/path" ≠ "IOS_images") by discriminate.
  assert (H2 : QSettings.starts_with "IOS_images/" "Dynamips/path" = false)
    by reflexivity.
  split; [split; [exact H1 | exact H2]|].
  exact (saveIOSImages_keeps_other_settings _ _ H1 H2).
Defined.

(** X11. [setSettings] with a key that the current settings do not have raises
    [KeyError] for such a key before anything has happened: no server is
    notified, no setting is changed, nothing is saved. *)
Theorem setSettings_unknown_key (w : world) (new_settings : gmap string pyvalue) :
  ¬ dom new_settings ⊆ dom (_settings (this w)) →
  ∃ key, key ∈ dom new_settings ∧ key ∉ dom (_settings (this w))
         ∧ setSettings new_settings w = (Raise (KeyError key), w).
Proof.
  intros Hn.
  destruct (changed_params_KeyError _ _ Hn) as (key & Hrun & Hin & Hout).
  exists key. split; [done|]. split; [done|].
  unfold setSettings, mbind, M_bind, gets, lift. by rewrite Hrun.
Qed.

Lemma setSettings_unknown_key_witness :
  ¬ dom ({[ "ghost_ios" := VBool true ]} : gmap string pyvalue)
      ⊆ dom (_settings (this (fresh_world {[ "path" := VStr "dynamips" ]} [] ∅ 0%nat)))
  ∧ ∃ key, key ∈ dom ({[ "ghost_ios" := VBool true ]} : gmap string pyvalue)
           ∧ key ∉ dom (_settings (this (fresh_world {[ "path" := VStr "dynamips" ]}
                                           [] ∅ 0%nat)))
           ∧ setSettings {[ "ghost_ios" := VBool true ]}
               (fresh_world {[ "path" := VStr "dynamips" ]} [] ∅ 0%nat)
             = (Raise (KeyError key),
                fresh_world {[ "path" := VStr "dynamips" ]} [] ∅ 0%nat).
Proof.
  assert (H : ¬ dom ({[ "ghost_ios" := VBool true ]} : gmap string pyvalue)
                ⊆ dom (_settings (this (fresh_world {[ "path" := VStr "dynamips" ]}
                                          [] ∅ 0%nat)))).
  { apply (bool_decide_unpack _). vm_compute. exact I. }
  split; [exact H|].
  exact (setSettings_unknown_key _ _ H).
Defined.

Lemma append_inj_l (p a b : string) : p +:+ a = p +:+ b → a = b.
Proof. induction p as [|c p IH]; simpl; [done|]. intros [= H]. by apply IH. Qed.

#[local] Instance settings_key_inj : Inj (=) (=) settings_key.
Proof. intros a b. apply append_inj_l. Qed.

(** What [_saveSettings] leaves in the store: every setting of the
    module under its key in the ["Dynamips"] group, over what was there. *)
Lemma saveSettings_store (w : world) :
  _saveSettings w
  = (Return tt,
     set_persisted (kmap settings_key (_settings (this w)) ∪ persisted w) w).
Proof.
  unfold _saveSettings, modify. f_equal. f_equal.
  set (q0 := QSettings.beginGroup "Dynamips" (QSettings.open (persisted w))).
  enough (QSettings.store (map_fold QSettings.setValue q0 (_settings (this w)))
          = kmap settings_key (_settings (this w)) ∪ persisted w
          ∧ QSettings.groupStack (map_fold QSettings.setValue q0 (_settings (this w)))
            = QSettings.groupStack q0) as [Hs _] by done.
  apply (map_fold_weak_ind (λ q m,
    QSettings.store q = kmap settings_key m ∪ persisted w
    ∧ QSettings.groupStack q = QSettings.groupStack q0)).
  - split; [|done]. by rewrite (kmap_empty settings_key), (left_id_L ∅ (∪)).
  - intros name value m q Hfresh [Hstore Hstack]. split; [|done].
    simpl. rewrite Hstack, Hstore, (kmap_insert settings_key), insert_union_l. done.
Qed.

Lemma dict_get_NoDup (d : list (string * string)) k v :
  NoDup d.*1 → (k, v) ∈ d → dict_get d k = Some v.
Proof.
  induction d as [|[k0 v0] d IH]; simpl; intros Hnd Hin.
  - by apply elem_of_nil in Hin.
  - apply NoDup_cons in Hnd as [Hk0 Hnd].
    apply elem_of_cons in Hin as [[= -> ->]|Hin].
    + by rewrite String.eqb_refl.
    + destruct (String.eqb_spec k0 k) as [->|_]; [|by apply IH].
      exfalso. apply Hk0. apply list_elem_of_fmap. by exists (k, v).
Qed.

(** A value is [==] to itself. *)
Lemma py_eq_refl v : well_formed v → py_eq v v = true.
Proof.
  destruct v as [|b|n|s|d]; simpl; intros Hwf.
  - done.
  - by destruct b.
  - apply Z.eqb_refl.
  - apply String.eqb_refl.
  - unfold dict_eq. rewrite Nat.eqb_refl. simpl.
    apply forallb_forall. intros [k v] Hin. simpl.
    rewrite (dict_get_NoDup d k v Hwf) by (by apply list_elem_of_In).
    apply String.eqb_refl.
Qed.

(** X12. A second [setSettings] with the same settings finds nothing changed:
    it notifies no server and leaves the module, the trace and the store
    exactly as the first call left them. *)
Theorem setSettings_again_is_silent (w : world) (new_settings : gmap string pyvalue) :
  dom new_settings ⊆ dom (_settings (this w)) →
  (∀ name value, new_settings !! name = Some value → well_formed value) →
  ∃ w1, setSettings new_settings w = (Return tt, w1)
        ∧ setSettings new_settings w1 = (Return tt, w1).
Proof.
  intros Hdom Hwf.
  assert (Hrun : ∀ w0 params, changed_params (_settings (this w0)) new_settings
                               = Return params →
            setSettings new_settings w0
            = (Return tt,
               set_persisted
                 (kmap settings_key (new_settings ∪ _settings (this w0)) ∪ persisted w0)
                 (set_this (λ d, {| _settings := new_settings ∪ _settings d;
                                    _ios_images := _ios_images d;
                                    _servers := _servers d |})
                    {| this := this w0; persisted := persisted w0;
                       local_server := local_server w0; connected := connected w0;
                       trace := trace w0 ++
                         (if bool_decide (params = ∅) then []
                          else (λ srv, send_notification srv "dynamips.settings" params)
                                 <$> _servers (this w0)) |}))).
  { intros w0 params Hp. unfold setSettings.
    unfold mbind at 1, M_bind at 1, gets. simpl.
    unfold mbind at 1, M_bind at 1, lift. rewrite Hp.
    unfold mbind at 1, M_bind at 1.
    case_bool_decide.
    - simpl. unfold mbind, M_bind, modify. rewrite saveSettings_store. simpl.
      rewrite app_nil_r. by destruct w0.
    - unfold mbind at 1, M_bind at 1, gets. simpl. rewrite emit_all.
      unfold mbind, M_bind, modify. rewrite saveSettings_store. done. }
  eexists. split.
  - apply Hrun. by apply changed_params_filter.
  - set (w1 := set_persisted _ _).
    assert (Hd1 : dom new_settings ⊆ dom (_settings (this w1))).
    { simpl. rewrite dom_union. set_solver. }
    assert (Hnone : filter (differs (_settings (this w1))) new_settings = ∅).
    { apply map_empty_filter. intros name value Hv (old & Hold & Hne).
      simpl in Hold, Hne. rewrite (lookup_union_Some_l _ _ _ _ Hv) in Hold.
      injection Hold as <-. unfold py_ne in Hne.
      rewrite (py_eq_refl value (Hwf _ _ Hv)) in Hne. done. }
    rewrite (Hrun w1 ∅) by (by rewrite (changed_params_filter _ _ Hd1), Hnone).
    rewrite bool_decide_eq_true_2 by done. subst w1. simpl.
    rewrite app_nil_r. unfold set_persisted, set_this. simpl.
    rewrite (assoc_L (∪) new_settings), (idemp_L (∪) new_settings).
    by rewrite (assoc_L (∪) (kmap settings_key _)), (idemp_L (∪) (kmap settings_key _)).
Qed.

Lemma setSettings_again_is_silent_witness :
  (dom ({[ "base_udp_port" := VInt 20001 ]} : gmap string pyvalue)
     ⊆ dom (_settings (this (fresh_world {[ "base_udp_port" := VInt 10001 ]} [] ∅ 0%nat)))
   ∧ ∀ name value,
       ({[ "base_udp_port" := VInt 20001 ]} : gmap string pyvalue) !! name = Some value →
       well_formed value)
  ∧ ∃ w1, setSettings {[ "base_udp_port" := VInt 20001 ]}
            (fresh_world {[ "base_udp_port" := VInt 10001 ]} [] ∅ 0%nat)
          = (Return tt, w1)
          ∧ setSettings {[ "base_udp_port" := VInt 20001 ]} w1 = (Return tt, w1).
Proof.
  assert (H1 : dom ({[ "base_udp_port" := VInt 20001 ]} : gmap string pyvalue)
                 ⊆ dom (_settings (this (fresh_world {[ "base_udp_port" := VInt 10001 ]}
                                           [] ∅ 0%nat)))).
  { apply (bool_decide_unpack _). vm_compute. exact I. }
  assert (H2 : ∀ name value,
             ({[ "base_udp_port" := VInt 20001 ]} : gmap string pyvalue) !! name
             = Some value → well_formed value).
  { intros name value [_ <-]%lookup_singleton_Some. exact I. }
  split; [split; [exact H1 | exact H2]|].
  exact (setSettings_again_is_silent _ _ H1 H2).
Defined.

(** X13. [removeServer] with a server that is not in the list raises
    [ValueError] and changes nothing. *)
Theorem removeServer_unknown_server (w : world) (srv : server) :
  srv ∉ _servers (this w) →
  removeServer srv w = (Raise ValueError, w).
Proof.
  intros Hn. apply remove_first_None in Hn.
  pose proof (removeServer_servers srv w) as H. by rewrite Hn in H.
Qed.

Lemma removeServer_unknown_server_witness :
  4%nat ∉ _servers (this (fresh_world ∅ [] ∅ 0%nat))
  ∧ removeServer 4%nat (fresh_world ∅ [] ∅ 0%nat)
    = (Raise ValueError, fresh_world ∅ [] ∅ 0%nat).
Proof.
  assert (H : 4%nat ∉ _servers (this (fresh_world ∅ [] ∅ 0%nat)))
    by apply not_elem_of_nil.
  split; [exact H|].
  exact (removeServer_unknown_server _ _ H).
Defined.

(** X14. [removeServer] takes out the first entry for the server and keeps the
    others in order; it notifies nobody.  So after [addServer] of a server
    that was already listed, [removeServer] removes the old entry, not the
    one just appended. *)
Theorem removeServer_first_entry (w : world) (srv : server) (before after : list server) :
  _servers (this w) = before ++ srv :: after →
  srv ∉ before →
  ∃ w', removeServer srv w = (Return tt, w')
        ∧ _servers (this w') = before ++ after
        ∧ trace w' = trace w
        ∧ _servers (this (removeServer srv (addServer srv w).2).2)
          = before ++ after ++ [srv].
Proof.
  intros Hservers Hnotin.
  unfold removeServer, list_remove, mbind, M_bind, gets, lift, modify. simpl.
  rewrite Hservers, remove_first_middle by done. simpl.
  eexists. split; [reflexivity|]. simpl. split; [done|]. split; [done|].
  rewrite <- app_assoc. simpl. by rewrite remove_first_middle.
Qed.

Lemma removeServer_first_entry_witness :
  (_servers (this (run_calls [AddServer 1%nat; AddServer 2%nat]
                     (fresh_world ∅ [] ∅ 0%nat)))
   = [] ++ 1%nat :: [2%nat]
   ∧ 1%nat ∉ ([] : list server))
  ∧ ∃ w', removeServer 1%nat (run_calls [AddServer 1%nat; AddServer 2%nat]
                                (fresh_world ∅ [] ∅ 0%nat)) = (Return tt, w')
          ∧ _servers (this w') = [] ++ [2%nat]
          ∧ trace w' = trace (run_calls [AddServer 1%nat; AddServer 2%nat]
                                (fresh_world ∅ [] ∅ 0%nat))
          ∧ _servers (this (removeServer 1%nat
                              (addServer 1%nat
                                 (run_calls [AddServer 1%nat; AddServer 2%nat]
                                    (fresh_world ∅ [] ∅ 0%nat))).2).2)
            = [] ++ [2%nat] ++ [1%nat].
Proof.
  assert (H1 : _servers (this (run_calls [AddServer 1%nat; AddServer 2%nat]
                                 (fresh_world ∅ [] ∅ 0%nat)))
               = [] ++ 1%nat :: [2%nat]) by reflexivity.
  assert (H2 : 1%nat ∉ ([] : list server)) by apply not_elem_of_nil.
  split; [split; [exact H1 | exact H2]|].
  exact (removeServer_first_entry _ _ _ _ H1 H2).
Defined.

End DynamipsMore.

(** ** The entry point: version requirements *)

Module MainChecks.
Import Main.

(** Python's order on lists of numbers, read as an order on versions. *)
Lemma list_lt_at_least (required : list Z) : ∀ v,
  list_lt v required = false ↔ at_least required v.
Proof.
  induction required as [|r required IH]; intros v; simpl.
  - by destruct v.
  - destruct v as [|x v]; simpl.
    + split; [done|]. by intros (x & v' & [=] & _).
    + destruct (Z.eqb_spec x r) as [->|Hne].
      * rewrite IH. split.
        -- intros H. exists r, v. split; [done|]. by right.
        -- intros (x & v' & [= <- <-] & [Hlt | [_ H]]); [lia | done].
      * destruct (Z.ltb_spec x r) as [Hlt|Hge].
        -- split; [done|]. intros (x' & v' & [= <- <-] & [? | [? _]]); lia.
        -- split; [|done]. intros _. exists x, v. split; [done|]. left. lia.
Qed.

Lemma python_checks (env : environment) :
  list_lt [major env; minor env; micro env] [2; 7] = false
  ∧ ((major env =? 3) && list_lt [major env; minor env; micro env] [3; 3])%bool = false
  ↔ python_supported env.
Proof.
  unfold python_supported. simpl.
  destruct (Z.eqb_spec (major env) 2), (Z.eqb_spec (major env) 3),
    (Z.eqb_spec (minor env) 7), (Z.eqb_spec (minor env) 3),
    (Z.ltb_spec (major env) 2), (Z.ltb_spec (major env) 3),
    (Z.ltb_spec (minor env) 7), (Z.ltb_spec (minor env) 3);
    simpl; split; try lia; try (intros [? ?]; try discriminate; lia);
    try (intros _; split; [reflexivity || lia | reflexivity || lia]);
    try (intros [? ?]; discriminate).
Qed.

Lemma ints_raises pieces piece :
  piece ∈ pieces → int piece = Raise ValueError → ints pieces = Raise ValueError.
Proof.
  induction pieces as [|p pieces IH]; intros Hin Hbad; [by apply elem_of_nil in Hin|].
  simpl. apply elem_of_cons in Hin as [<-|Hin].
  - by rewrite Hbad.
  - destruct (int p) as [n|e] eqn:Hp; simpl.
    + by rewrite (IH Hin Hbad).
    + apply FRSWOutcome.int_raises_ValueError in Hp. by subst.
Qed.

Lemma requirements_None (env : environment) :
  requirements env = None
  ↔ python_supported env
    ∧ qt_importable env = true
    ∧ (∃ qt, version (QT_VERSION_STR env) = Return qt ∧ at_least [4; 6] qt)
    ∧ binding_ok env "PyQt" [4; 8; 3]
    ∧ binding_ok env "PySide" [1; 0].
Proof.
  unfold requirements, binding_ok. rewrite <- python_checks.
  destruct (list_lt [major env; minor env; micro env] [2; 7]).
  { split; [done|]. by intros [[[=] _] _]. }
  destruct ((major env =? 3) && list_lt _ [3; 3])%bool.
  { split; [done|]. by intros [[_ [=]] _]. }
  destruct (qt_importable env); simpl.
  2: { split; [done|]. by intros (_ & [=] & _). }
  destruct (version (QT_VERSION_STR env)) as [qt|e].
  2: { split; [done|]. by intros (_ & _ & (qt & [=] & _) & _). }
  destruct (list_lt qt [4; 6]) eqn:Hqt.
  { split; [done|]. intros (_ & _ & (qt' & [= <-] & Hq) & _).
    apply (list_lt_at_least [4; 6]) in Hq. congruence. }
  apply (list_lt_at_least [4; 6]) in Hqt.
  destruct (String.eqb_spec (DEFAULT_BINDING env) "PyQt") as [Hpyqt|Hpyqt].
  - rewrite Hpyqt. simpl.
    destruct (version (BINDING_VERSION_STR env)) as [b|e].
    2: { split; [done|]. intros (_ & _ & _ & Hb & _).
         by destruct (Hb eq_refl) as (b & [=] & _). }
    destruct (list_lt b [4; 8; 3]) eqn:Hb.
    { split; [done|]. intros (_ & _ & _ & Hb' & _).
      destruct (Hb' eq_refl) as (b' & [= <-] & Hb'').
      apply (list_lt_at_least [4; 8; 3]) in Hb''. congruence. }
    apply (list_lt_at_least [4; 8; 3]) in Hb. split; [|done]. intros _.
    split; [done|]. split; [done|]. split; [eauto|]. split; [eauto|]. done.
  - destruct (String.eqb_spec (DEFAULT_BINDING env) "PySide") as [Hside|Hside].
    + destruct (version (BINDING_VERSION_STR env)) as [b|e].
      2: { split; [done|]. intros (_ & _ & _ & _ & Hb).
           by destruct (Hb Hside) as (b & [=] & _). }
      destruct (list_lt b [1; 0]) eqn:Hb.
      { split; [done|]. intros (_ & _ & _ & _ & Hb').
        destruct (Hb' Hside) as (b' & [= <-] & Hb'').
        apply (list_lt_at_least [1; 0]) in Hb''. congruence. }
      apply (list_lt_at_least [1; 0]) in Hb. split; [|done]. intros _.
      split; [done|]. split; [done|]. split; [eauto|]. split; [done|]. eauto.
    + split; [|done]. intros _.
      split; [done|]. split; [done|]. split; [eauto|]. done.
Qed.

(** X15. [main] gets to start the application exactly when the interpreter is
    Python 2.7 or later but not 3.0 to 3.2, the Qt modules can be
    imported, the Qt version is 4.6 or later, and the binding, when it is
    PyQt, is 4.8.3 or later and, when it is PySide, 1.0 or later, the
    versions compared number by number.  Whenever a requirement fails
    [main] has printed its banner and done nothing else. *)
Theorem main_starts_iff (env : environment) :
  ((main env).2 = None
   ↔ python_supported env
     ∧ qt_importable env = true
     ∧ (∃ qt, version (QT_VERSION_STR env) = Return qt ∧ at_least [4; 6] qt)
     ∧ binding_ok env "PyQt" [4; 8; 3]
     ∧ binding_ok env "PySide" [1; 0])
  ∧ ((main env).2 ≠ None → (main env).1 = banner env)
  ∧ ((main env).2 = None →
       (main env).1
       = banner env
         ++ [ basicConfig_INFO; QApplication; setOrganizationName "GNS3";
              setOrganizationDomain "gns3.net"; setApplicationName "GNS3" ]
         ++ (if QSettings.starts_with "win" (platform env)
             then [setDefaultFormat_IniFormat] else [])
         ++ [ MainWindow_show; exec_ ]).
Proof.
  rewrite <- requirements_None. unfold main.
  destruct (requirements env) as [e|]; simpl.
  - split; [done|]. split; [done|]. by intros [=].
  - split; [done|]. split; [by intros []|]. done.
Qed.

(** Versions are compared as numbers, not as text: Qt 4.10 passes for
    4.6, a bare "4" does not. *)
Example main_qt_4_10 :
  (main (sample_environment "4.10.1" "4.10.3" "linux")).2 = None
  ∧ (main (sample_environment "4" "4.10.3" "linux")).2
    = Some (RuntimeError "Requirement is Qt version 4.6 or higher, got version 4")
  ∧ (main (sample_environment "4.8.5" "4.8.3" "win32")).1
    = banner (sample_environment "4.8.5" "4.8.3" "win32")
      ++ [ basicConfig_INFO; QApplication; setOrganizationName "GNS3";
           setOrganizationDomain "gns3.net"; setApplicationName "GNS3";
           setDefaultFormat_IniFormat; MainWindow_show; exec_ ].
Proof. vm_compute. repeat split. Qed.

(** X16. A version string with a part that is no integer literal: once the
    Python and import checks have passed, [main] ends with the
    [ValueError] of [int], not with a [RuntimeError], having printed its
    banner only. *)
Theorem main_version_not_numeric (env : environment) (piece : string) :
  python_supported env →
  qt_importable env = true →
  piece ∈ split "." (QT_VERSION_STR env) →
  int piece = Raise ValueError →
  main env = (banner env, Some (Uncaught ValueError)).
Proof.
  intros Hpy Himport Hpiece Hbad.
  apply python_checks in Hpy as [H27 H33].
  unfold main, requirements. rewrite H27, H33, Himport. simpl.
  unfold version. by rewrite (ints_raises _ _ Hpiece Hbad).
Qed.

Lemma main_version_not_numeric_witness :
  (python_supported (sample_environment "4.8.5-rc1" "4.10.3" "linux")
   ∧ qt_importable (sample_environment "4.8.5-rc1" "4.10.3" "linux") = true
   ∧ "5-rc1" ∈ split "." (QT_VERSION_STR (sample_environment "4.8.5-rc1" "4.10.3" "linux"))
   ∧ int "5-rc1" = Raise ValueError)
  ∧ main (sample_environment "4.8.5-rc1" "4.10.3" "linux")
    = (banner (sample_environment "4.8.5-rc1" "4.10.3" "linux"),
       Some (Uncaught ValueError)).
Proof.
  assert (H1 : python_supported (sample_environment "4.8.5-rc1" "4.10.3" "linux")).
  { right. left. simpl. lia. }
  assert (H2 : qt_importable (sample_environment "4.8.5-rc1" "4.10.3" "linux") = true)
    by reflexivity.
  assert (H3 : "5-rc1" ∈ split "."
                 (QT_VERSION_STR (sample_environment "4.8.5-rc1" "4.10.3" "linux"))).
  { simpl. right. right. left. }
  assert (H4 : int "5-rc1" = Raise ValueError) by reflexivity.
  split; [by repeat split|].
  exact (main_version_not_numeric _ _ H1 H2 H3 H4).
Defined.

End MainChecks.

(** ** Dynamips: loading the settings *)

Module DynamipsLoading.
Import Dynamips DynamipsStore DynamipsLoad DynamipsLoadView DynamipsMore.

Lemma dict_get_None {V} (d : dict V) k : dict_get d k = None ↔ k ∉ d.*1.
Proof.
  induction d as [|[k0 v0] d IH]; simpl.
  - split; [intros _; apply not_elem_of_nil | done].
  - rewrite not_elem_of_cons. destruct (String.eqb_spec k0 k) as [->|Hne].
    + split; [done | by intros [? _]].
    + rewrite IH. split; [by intros ?; split | by intros [_ ?]].
Qed.

Lemma dict_get_Some_elem {V} (d : dict V) k v : dict_get d k = Some v → (k, v) ∈ d.
Proof.
  induction d as [|[k0 v0] d IH]; simpl; [done|].
  destruct (String.eqb_spec k0 k) as [->|Hne].
  - intros [= ->]. left.
  - intros H. right. by apply IH.
Qed.

Lemma dict_get_elem {V} (d : dict V) k v :
  NoDup d.*1 → (k, v) ∈ d → dict_get d k = Some v.
Proof.
  induction d as [|[k0 v0] d IH]; simpl; intros Hnd Hin.
  - by apply elem_of_nil in Hin.
  - apply NoDup_cons in Hnd as [Hk0 Hnd].
    apply elem_of_cons in Hin as [[= -> ->]|Hin].
    + by rewrite String.eqb_refl.
    + destruct (String.eqb_spec k0 k) as [->|_]; [|by apply IH].
      exfalso. apply Hk0. apply list_elem_of_fmap. by exists (k, v).
Qed.

Lemma value_in_Dynamips_group store name default :
  QSettingsRead.value name default
    (QSettings.beginGroup "Dynamips" (QSettings.open store))
  = match store !! settings_key name with
    | Some v => v
    | None => default
    end.
Proof. reflexivity. Qed.

(** One turn of the loop of [_loadSettings]. *)
Lemma load_setting_eq convert types store (item : string * pyvalue) w :
  load_setting convert types
    (QSettings.beginGroup "Dynamips" (QSettings.open store)) item w
  = match dict_get types item.1 with
    | None => (Raise (KeyError item.1), w)
    | Some t =>
        match loaded_setting convert store item.1 item.2 t with
        | Return v => (Return tt, set_setting item.1 v w)
        | Raise e => (Raise e, w)
        end
    end.
Proof.
  unfold load_setting, mbind, M_bind, lift, getitem, modify, loaded_setting.
  rewrite value_in_Dynamips_group.
  destruct (dict_get types item.1) as [t|]; [|done].
  by destruct (convert t _).
Qed.

Lemma for_each_cons {W A} (x : A) (l : list A) (body : A → M W unit) (w : W) :
  for_each (x :: l) body w
  = match body x w with
    | (Return _, w') => for_each l body w'
    | (Raise e, w') => (Raise e, w')
    end.
Proof. reflexivity. Qed.

(** The loop of [_loadSettings] over any table whose names are distinct
    and all have a type: it returns when every conversion returns, and
    otherwise raises what a conversion raises; either way it changes the
    settings of the module only. *)
Lemma load_settings_loop convert types store (items : dict pyvalue) : ∀ w,
  NoDup items.*1 →
  Forall (λ item, is_Some (dict_get types item.1)) items →
  ∃ r w',
    for_each items
      (load_setting convert types
         (QSettings.beginGroup "Dynamips" (QSettings.open store))) w
    = (r, w')
    ∧ persisted w' = persisted w ∧ trace w' = trace w
    ∧ local_server w' = local_server w ∧ connected w' = connected w
    ∧ _servers (this w') = _servers (this w)
    ∧ _ios_images (this w') = _ios_images (this w)
    ∧ ((r = Return tt
        ∧ (∀ name default t,
             dict_get items name = Some default → dict_get types name = Some t →
             ∃ v, loaded_setting convert store name default t = Return v)
        ∧ (∀ name,
             _settings (this w') !! name
             = match dict_get items name, dict_get types name with
               | Some default, Some t =>
                   match loaded_setting convert store name default t with
                   | Return v => Some v
                   | Raise _ => _settings (this w) !! name
                   end
               | _, _ => _settings (this w) !! name
               end))
       ∨ (∃ e name default t,
            r = Raise e
            ∧ dict_get items name = Some default ∧ dict_get types name = Some t
            ∧ loaded_setting convert store name default t = Raise e)).
Proof.
  induction items as [|[n0 d0] items IH]; intros w Hnd Htypes.
  - exists (Return tt), w. repeat split; try done. left. by repeat split.
  - apply NoDup_cons in Hnd as [Hn0 Hnd].
    apply Forall_cons in Htypes as [[t0 Ht0] Htypes]. simpl in Ht0.
    rewrite for_each_cons, load_setting_eq. simpl. rewrite Ht0.
    destruct (loaded_setting convert store n0 d0 t0) as [v|e] eqn:Hload.
    + destruct (IH (set_setting n0 v w) Hnd Htypes)
        as (r & w' & Hrun & Hp & Htr & Hl & Hc & Hs & Hi & Hr).
      exists r, w'. split; [exact Hrun|].
      split; [done|]. split; [done|]. split; [done|]. split; [done|].
      split; [done|]. split; [done|].
      destruct Hr as [(-> & Hall & Hsettings) | (e & name & default & t & -> & Hd & Ht & Hraise)].
      * left. split; [done|]. split.
        -- intros name default t. destruct (String.eqb_spec n0 name) as [->|Hne].
           ++ intros [= <-] Ht. rewrite Ht0 in Ht. injection Ht as <-. by exists v.
           ++ apply Hall.
        -- intros name. rewrite Hsettings. simpl.
           destruct (String.eqb_spec n0 name) as [->|Hne].
           ++ apply dict_get_None in Hn0. simpl in Hn0. rewrite Hn0, Ht0, Hload.
              apply lookup_insert_eq.
           ++ destruct (dict_get items name) as [default|]; [|by apply lookup_insert_ne].
              destruct (dict_get types name) as [t|]; [|by apply lookup_insert_ne].
              destruct (loaded_setting convert store name default t);
                [done | by apply lookup_insert_ne].
      * right. exists e, name, default, t. split; [done|]. split; [|done].
        destruct (String.eqb_spec n0 name) as [->|Hne]; [|done].
        apply dict_get_None in Hn0. simpl in Hn0. congruence.
    + exists (Raise e), w. repeat split; try done.
      right. exists e, n0, d0, t0. by rewrite String.eqb_refl.
Qed.

(** The two tables of [settings.py]: no name twice, and a type for every
    name. *)
Lemma settings_table_NoDup D : NoDup (DYNAMIPS_SETTINGS D).*1.
Proof. apply (bool_decide_unpack _). vm_compute. exact I. Qed.

Lemma settings_table_typed D :
  Forall (λ item, is_Some (dict_get DYNAMIPS_SETTING_TYPES item.1)) (DYNAMIPS_SETTINGS D).
Proof. repeat constructor; eexists; reflexivity. Qed.

(** [_loadSettings], however it ends. *)
Lemma loadSettings_cases (DEFAULT_DYNAMIPS_PATH : string)
    (convert : setting_type → pyvalue → result pyvalue) (w : world) :
  ∃ r w',
    _loadSettings DEFAULT_DYNAMIPS_PATH convert w = (r, w')
    ∧ persisted w' = persisted w ∧ trace w' = trace w
    ∧ _servers (this w') = _servers (this w)
    ∧ _ios_images (this w') = _ios_images (this w)
    ∧ ((r = Return tt
        ∧ settings_load convert DEFAULT_DYNAMIPS_PATH (persisted w)
        ∧ (∀ name,
             _settings (this w') !! name
             = match dict_get (DYNAMIPS_SETTINGS DEFAULT_DYNAMIPS_PATH) name,
                     dict_get DYNAMIPS_SETTING_TYPES name with
               | Some default, Some t =>
                   match loaded_setting convert (persisted w) name default t with
                   | Return v => Some v
                   | Raise _ => _settings (this w) !! name
                   end
               | _, _ => _settings (this w) !! name
               end))
       ∨ (∃ e name default t,
            r = Raise e
            ∧ dict_get (DYNAMIPS_SETTINGS DEFAULT_DYNAMIPS_PATH) name = Some default
            ∧ dict_get DYNAMIPS_SETTING_TYPES name = Some t
            ∧ loaded_setting convert (persisted w) name default t = Raise e)).
Proof.
  destruct (load_settings_loop convert DYNAMIPS_SETTING_TYPES (persisted w)
              (DYNAMIPS_SETTINGS DEFAULT_DYNAMIPS_PATH) w
              (settings_table_NoDup _) (settings_table_typed _))
    as (r & w' & Hrun & Hp & Htr & _ & _ & Hs & Hi & Hr).
  exists r, w'. done.
Qed.

(** X17. [_loadSettings] returns exactly when every setting of the table
    converts to its declared type: the value kept under
    ["Dynamips/<name>"], or the declared default when the store has no
    such key.  It then gives the module, for each of the thirteen names,
    the converted value and leaves every other setting of the module
    alone.  Otherwise it raises what the conversion of one of the
    settings raises.  Either way it changes nothing but the settings of
    the module. *)
Theorem loadSettings_result (DEFAULT_DYNAMIPS_PATH : string)
    (convert : setting_type → pyvalue → result pyvalue) (w : world) :
  ∃ r w',
    _loadSettings DEFAULT_DYNAMIPS_PATH convert w = (r, w')
    ∧ persisted w' = persisted w ∧ trace w' = trace w
    ∧ _servers (this w') = _servers (this w)
    ∧ _ios_images (this w') = _ios_images (this w)
    ∧ (r = Return tt ↔ settings_load convert DEFAULT_DYNAMIPS_PATH (persisted w))
    ∧ (r = Return tt →
         (∀ name default, (name, default) ∈ DYNAMIPS_SETTINGS DEFAULT_DYNAMIPS_PATH →
            ∃ t v, dict_get DYNAMIPS_SETTING_TYPES name = Some t
                   ∧ convert t (match persisted w !! ("Dynamips/" +:+ name) with
                                | Some stored => stored
                                | None => default
                                end) = Return v
                   ∧ _settings (this w') !! name = Some v)
         ∧ (∀ name, name ∉ (DYNAMIPS_SETTINGS DEFAULT_DYNAMIPS_PATH).*1 →
              _settings (this w') !! name = _settings (this w) !! name))
    ∧ (∀ e, r = Raise e →
         ∃ name default t,
           (name, default) ∈ DYNAMIPS_SETTINGS DEFAULT_DYNAMIPS_PATH
           ∧ dict_get DYNAMIPS_SETTING_TYPES name = Some t
           ∧ convert t (match persisted w !! ("Dynamips/" +:+ name) with
                        | Some stored => stored
                        | None => default
                        end) = Raise e).
Proof.
  destruct (loadSettings_cases DEFAULT_DYNAMIPS_PATH convert w)
    as (r & w' & Hrun & Hp & Htr & Hs & Hi & Hr).
  exists r, w'. split; [exact Hrun|].
  split; [done|]. split; [done|]. split; [done|]. split; [done|].
  destruct Hr as [(-> & Hall & Hsettings) | (e & name & default & t & -> & Hd & Ht & Hraise)].
  - split; [done|]. split; [|done]. intros _. split.
    + intros name default Hin.
      pose proof (dict_get_elem _ _ _ (settings_table_NoDup _) Hin) as Hd.
      pose proof (proj1 (Forall_forall _ _) (settings_table_typed DEFAULT_DYNAMIPS_PATH)
                    _ Hin) as [t Ht].
      change (dict_get DYNAMIPS_SETTING_TYPES name = Some t) in Ht.
      destruct (Hall name default t Hd Ht) as [v Hv].
      exists t, v. split; [done|]. split; [exact Hv|].
      by rewrite Hsettings, Hd, Ht, Hv.
    + intros name Hname. rewrite Hsettings.
      apply dict_get_None in Hname. by rewrite Hname.
  - split; [|split; [done|]].
    + split; [done|]. intros Hall. destruct (Hall name default t Hd Ht) as [v Hv].
      congruence.
    + intros e' [= <-]. exists name, default, t.
      split; [by apply dict_get_Some_elem|]. split; [done|]. exact Hraise.
Qed.

End DynamipsLoading.

(** ** Decimal numbers in keys *)

Module Decimal.
Import DynamipsLoadView.

Lemma digit_of_char (d : Z) :
  0 ≤ d < 10 → digit_of (ascii_of_nat (Z.to_nat (48 + d))) = Some d.
Proof.
  intros Hd.
  assert (d = 0 ∨ d = 1 ∨ d = 2 ∨ d = 3 ∨ d = 4 ∨ d = 5 ∨ d = 6 ∨ d = 7 ∨ d = 8 ∨ d = 9)
    as Hcases by lia.
  repeat destruct Hcases as [->|Hcases]; try reflexivity. by subst.
Qed.

Lemma digits_all_digits fuel : ∀ n acc,
  0 ≤ n → all_digits acc → all_digits (QSettings.string_of_pos_digits fuel n acc).
Proof.
  induction fuel as [|fuel IH]; intros n acc Hn Hacc; simpl; [done|].
  assert (all_digits (String (ascii_of_nat (Z.to_nat (48 + n mod 10))) acc)) as Hacc'.
  { split; [|done]. rewrite digit_of_char; [done|]. apply Z.mod_pos_bound. lia. }
  destruct (n / 10 =? 0); [done|]. apply IH; [|done]. apply Z.div_pos; lia.
Qed.

Lemma digits_value fuel : ∀ n acc,
  0 ≤ n < 10 ^ Z.of_nat fuel →
  value_of 0 (QSettings.string_of_pos_digits fuel n acc) = value_of n acc.
Proof.
  induction fuel as [|fuel IH]; intros n acc Hn.
  - simpl in *. by replace n with 0 by lia.
  - simpl QSettings.string_of_pos_digits.
    assert (0 ≤ n mod 10 < 10) as Hmod by (apply Z.mod_pos_bound; lia).
    assert (Hstep : ∀ z, value_of z (String (ascii_of_nat (Z.to_nat (48 + n mod 10))) acc)
                         = value_of (10 * z + n mod 10) acc).
    { intros z. simpl. by rewrite digit_of_char. }
    destruct (Z.eqb_spec (n / 10) 0) as [Hq|Hq].
    + rewrite Hstep. f_equal. rewrite (Z.div_mod n 10) at 2 by lia. lia.
    + rewrite IH, Hstep.
      * f_equal. rewrite (Z.div_mod n 10) at 3 by lia. lia.
      * split; [apply Z.div_pos; lia|].
        apply Z.div_lt_upper_bound; [lia|].
        rewrite Nat2Z.inj_succ, Z.pow_succ_r in Hn by lia. lia.
Qed.

Lemma number_value n : 0 ≤ n → value_of 0 (QSettings.number n) = n.
Proof.
  intros Hn. unfold QSettings.number. rewrite digits_value; [done|].
  split; [done|]. rewrite Nat2Z.inj_succ, Z2Nat.id by apply Z.log2_nonneg.
  destruct (decide (n = 0)) as [->|Hne]; [done|].
  pose proof (Z.log2_spec n ltac:(lia)) as [_ Hlt].
  eapply Z.lt_le_trans; [exact Hlt|].
  apply Z.pow_le_mono_l. split; [lia|]. lia.
Qed.

Lemma number_inj a b : 0 ≤ a → 0 ≤ b → QSettings.number a = QSettings.number b → a = b.
Proof.
  intros Ha Hb Heq. rewrite <- (number_value a), <- (number_value b) by done.
  by rewrite Heq.
Qed.

Lemma number_all_digits n : 0 ≤ n → all_digits (QSettings.number n).
Proof. intros Hn. by apply digits_all_digits. Qed.

Lemma digits_nonempty fuel : ∀ n acc,
  acc ≠ "" → QSettings.string_of_pos_digits fuel n acc ≠ "".
Proof.
  induction fuel as [|fuel IH]; intros n acc Hacc; simpl; [done|].
  destruct (n / 10 =? 0); [done|]. by apply IH.
Qed.

(** A number is written with at least one character, and its first
    character is a digit. *)
Lemma number_first_digit n :
  0 ≤ n → ∃ c r, QSettings.number n = String c r ∧ is_Some (digit_of c).
Proof.
  intros Hn. pose proof (number_all_digits n Hn) as Hd.
  assert (QSettings.number n ≠ "") as Hne.
  { unfold QSettings.number. simpl. destruct (n / 10 =? 0); [done|].
    by apply digits_nonempty. }
  destruct (QSettings.number n) as [|c r]; [done|].
  exists c, r. split; [done|]. by destruct Hd.
Qed.

(** Two keys made of a number, a slash and a rest are equal only when the
    numbers are written the same. *)
Lemma digits_slash_inj (a : string) : ∀ b x y,
  all_digits a → all_digits b →
  a +:+ "/" +:+ x = b +:+ "/" +:+ y → a = b.
Proof.
  induction a as [|c a IH]; intros [|c' b] x y Ha Hb; simpl.
  - done.
  - intros [= <- _]. destruct Hb as [[d Hd] _]. discriminate.
  - intros [= -> _]. destruct Ha as [[d Hd] _]. discriminate.
  - intros [= <- Hrest]. f_equal. destruct Ha as [_ Ha], Hb as [_ Hb].
    by apply (IH b x y).
Qed.

End Decimal.

(** ** Dynamips: what the saved catalogue looks like in the store *)

Module DynamipsCatalog.
Import Dynamips DynamipsStore DynamipsLoad DynamipsLoadView DynamipsImages DynamipsMore Decimal.

Lemma append_assoc (a b c : string) : (a +:+ b) +:+ c = a +:+ (b +:+ c).
Proof.
  induction a as [|x a IH]; [done|].
  change (String x ((a +:+ b) +:+ c) = String x (a +:+ (b +:+ c))). by rewrite IH.
Qed.

(** The prefix of the keys written or read at entry [index] of the
    array. *)
Lemma array_prefix (g : QSettings.QSettingsGroup) (index : Z) (name : string) :
  QSettings.str g = "ios_image" → QSettings.num g = index + 1 → 0 ≤ index →
  QSettings.groupPrefix [g; images_group] +:+ name = array_key index name.
Proof.
  intros Hstr Hnum Hindex. unfold array_key.
  change (QSettings.groupPrefix [g; images_group])
    with ("IOS_images/" +:+ (QSettings.toString g +:+ "/")).
  unfold QSettings.toString. rewrite Hstr, Hnum.
  destruct (Z.ltb_spec 0 (index + 1)) as [_|?]; [|lia].
  rewrite !append_assoc. reflexivity.
Qed.

Lemma array_key_name_inj index a b : array_key index a = array_key index b → a = b.
Proof.
  unfold array_key. intros H.
  apply append_inj_l, append_inj_l in H. by injection H.
Qed.

#[local] Instance array_key_inj index : Inj (=) (=) (array_key index).
Proof. intros a b. apply array_key_name_inj. Qed.

Lemma array_key_index i j a b :
  0 ≤ i → 0 ≤ j → array_key i a = array_key j b → i = j.
Proof.
  unfold array_key. intros Hi Hj H. apply append_inj_l in H.
  apply digits_slash_inj in H; [|apply number_all_digits; lia..].
  apply number_inj in H; lia.
Qed.

Lemma array_key_not_size index name :
  0 ≤ index → array_key index name ≠ "IOS_images/ios_image/size".
Proof.
  unfold array_key. intros Hi H.
  change "IOS_images/ios_image/size" with ("IOS_images/ios_image/" +:+ "size") in H.
  apply append_inj_l in H.
  destruct (number_first_digit (index + 1)) as (c & r & Hn & [d Hd]); [lia|].
  rewrite Hn in H. simpl in H. injection H as -> _. discriminate.
Qed.

(** One record written at entry [index]: its fields are in the store
    under their keys, over what was there. *)
Lemma write_image_store (q : QSettings.t) (index : Z) (record : ios_image) :
  in_array q → 0 ≤ index →
  QSettings.store (write_image (q, index) record).1
  = kmap (array_key index) record ∪ QSettings.store q
  ∧ in_array (write_image (q, index) record).1
  ∧ (write_image (q, index) record).2 = index + 1.
Proof.
  intros (g & Hstack & Hstr & Hmax) Hindex. unfold write_image. simpl.
  set (g' := {| QSettings.str := QSettings.str g; QSettings.num := Z.max index 0 + 1;
                QSettings.maxNum := QSettings.maxNum g |}).
  assert (Hq' : QSettings.setArrayIndex index q
                = {| QSettings.store := QSettings.store q;
                     QSettings.groupStack := [g'; images_group] |}).
  { unfold QSettings.setArrayIndex. rewrite Hstack, Hmax. simpl. subst g'.
    by rewrite Hmax. }
  rewrite Hq'. split; [|split; [|done]].
  - apply (map_fold_weak_ind (λ r m,
      QSettings.store r = kmap (array_key index) m ∪ QSettings.store q
      ∧ QSettings.groupStack r = [g'; images_group])).
    + split; [|done]. simpl. by rewrite (kmap_empty (array_key index)), (left_id_L ∅ (∪)).
    + intros name value m r _ [Hstore Hst]. split; [|done]. simpl.
      rewrite Hst, Hstore, (array_prefix g' index); [|done|subst g'; simpl; lia|done].
      by rewrite (kmap_insert (array_key index)), insert_union_l.
  - enough (QSettings.groupStack (map_fold QSettings.setValue
              {| QSettings.store := QSettings.store q;
                 QSettings.groupStack := [g'; images_group] |} record)
            = [g'; images_group]) as Hst by (exists g'; done).
    by apply (map_fold_weak_ind (λ r _, QSettings.groupStack r = [g'; images_group])).
Qed.

Lemma write_images_in_array (records : list ios_image) : ∀ q index,
  in_array q → 0 ≤ index → in_array (foldl write_image (q, index) records).1.
Proof.
  induction records as [|record records IH]; intros q index Hq Hindex; [done|].
  simpl. destruct (write_image_store q index record Hq Hindex) as (_ & Hq' & Hi').
  destruct (write_image (q, index) record) as [q' index']. simpl in *. subst index'.
  apply IH; [done | lia].
Qed.

(** Keys that belong to no entry from [index] on are not written. *)
Lemma write_images_other (records : list ios_image) : ∀ q index key,
  in_array q → 0 ≤ index →
  (∀ j name, index ≤ j → key ≠ array_key j name) →
  QSettings.store (foldl write_image (q, index) records).1 !! key
  = QSettings.store q !! key.
Proof.
  induction records as [|record records IH]; intros q index key Hq Hindex Hkey; [done|].
  simpl. destruct (write_image_store q index record Hq Hindex) as (Hstore & Hq' & Hi').
  destruct (write_image (q, index) record) as [q' index']. simpl in *. subst index'.
  rewrite IH; [|done|lia|intros j name Hj; apply Hkey; lia].
  rewrite Hstore, lookup_union_r; [done|].
  apply lookup_kmap_None; [apply _|]. intros name Hname. exfalso.
  by apply (Hkey index name).
Qed.

(** The field [name] of the [i]-th record is in the store under its
    key. *)
Lemma write_images_at (records : list ios_image) : ∀ q index i record name v,
  in_array q → 0 ≤ index →
  records !! i = Some record → record !! name = Some v →
  QSettings.store (foldl write_image (q, index) records).1
    !! array_key (index + Z.of_nat i) name = Some v.
Proof.
  induction records as [|r records IH]; intros q index i record name v Hq Hindex Hi Hv;
    [done|].
  simpl. destruct (write_image_store q index r Hq Hindex) as (Hstore & Hq' & Hi').
  destruct (write_image (q, index) r) as [q' index'] eqn:Hw. simpl in *. subst index'.
  destruct i as [|i]; simpl in Hi.
  - injection Hi as ->. rewrite Z.add_0_r.
    rewrite write_images_other; [|done|lia|].
    + rewrite Hstore. apply lookup_union_Some_l.
      by rewrite (lookup_kmap (array_key index)).
    + intros j name' Hj Heq. apply array_key_index in Heq; lia.
  - replace (index + Z.of_nat (S i)) with (index + 1 + Z.of_nat i) by lia.
    apply (IH q' (index + 1) i record); [done | lia | done | done].
Qed.

(** The store that a save leaves: the number of records under ["size"],
    and each field of each record under its key. *)
Lemma saved_size (images : dict ios_image) s :
  saved images s !! "IOS_images/ios_image/size" = Some (VInt (Z.of_nat (length images))).
Proof.
  unfold saved, _saveIOSImages, modify. simpl.
  unfold QSettings.remove. simpl.
  set (q0 := QSettings.beginWriteArray _ _ _).
  assert (Hsize : Z.of_nat (length images) <? 0 = false) by (apply Z.ltb_ge; lia).
  assert (Hq0 : in_array q0).
  { subst q0. unfold QSettings.beginWriteArray. rewrite Hsize.
    eexists. split; [reflexivity|]. done. }
  assert (Hstore0 : QSettings.store q0 !! "IOS_images/ios_image/size"
                    = Some (VInt (Z.of_nat (length images)))).
  { subst q0. unfold QSettings.beginWriteArray. rewrite Hsize. simpl.
    apply lookup_insert_eq. }
  pose proof (write_images_in_array images.*2 q0 0 Hq0 ltac:(lia))
    as (g & Hstack & _ & Hmax).
  unfold QSettings.endArray. rewrite Hstack, Hmax. simpl.
  rewrite write_images_other; [done | done | lia |].
  intros j name Hj Heq. symmetry in Heq. by apply array_key_not_size in Heq.
Qed.

Lemma saved_field (images : dict ios_image) s i entry name v :
  images !! i = Some entry → entry.2 !! name = Some v →
  saved images s !! array_key (Z.of_nat i) name = Some v.
Proof.
  intros Hi Hv. unfold saved, _saveIOSImages, modify. simpl.
  unfold QSettings.remove. simpl.
  set (q0 := QSettings.beginWriteArray _ _ _).
  assert (Hsize : Z.of_nat (length images) <? 0 = false) by (apply Z.ltb_ge; lia).
  assert (Hq0 : in_array q0).
  { subst q0. unfold QSettings.beginWriteArray. rewrite Hsize.
    eexists. split; [reflexivity|]. done. }
  pose proof (write_images_in_array images.*2 q0 0 Hq0 ltac:(lia))
    as (g & Hstack & _ & Hmax).
  unfold QSettings.endArray. rewrite Hstack, Hmax. simpl.
  apply (write_images_at images.*2 q0 0 i entry.2); [done | lia | | done].
  rewrite list_lookup_fmap. unfold dict in *. by rewrite Hi.
Qed.

(** Every key that the writing loop leaves in the store was there before
    or is a field of one of the records, under its key. *)
Lemma write_images_keys (records : list ios_image) : ∀ q index key v,
  in_array q → 0 ≤ index →
  QSettings.store (foldl write_image (q, index) records).1 !! key = Some v →
  (∃ i record name, records !! i = Some record
                    ∧ key = array_key (index + Z.of_nat i) name
                    ∧ record !! name = Some v)
  ∨ QSettings.store q !! key = Some v.
Proof.
  induction records as [|r records IH]; intros q index key v Hq Hindex Hkey;
    [by right|].
  simpl in Hkey. destruct (write_image_store q index r Hq Hindex) as (Hstore & Hq' & Hi').
  destruct (write_image (q, index) r) as [q' index'] eqn:Hw. simpl in *. subst index'.
  destruct (IH q' (index + 1) key v Hq' ltac:(lia) Hkey)
    as [(i & record & name & Hi & -> & Hv) | Hold].
  - left. exists (S i), record, name. split; [done|]. split; [|done].
    f_equal. lia.
  - rewrite Hstore in Hold. apply lookup_union_Some_raw in Hold as [Hnew | [_ Hold]].
    + apply (lookup_kmap_Some (array_key index)) in Hnew as (name & -> & Hv).
      left. exists 0%nat, r, name. split; [done|]. split; [|done].
      f_equal. lia.
    + by right.
Qed.

(** Every key of the store that a save leaves is the size of the array, a
    field of a record of the catalogue, or a key outside the group that
    the old store had. *)
Lemma saved_keys (images : dict ios_image) s key v :
  saved images s !! key = Some v →
  (key = "IOS_images/ios_image/size" ∧ v = VInt (Z.of_nat (length images)))
  ∨ (∃ i entry name, images !! i = Some entry
                     ∧ key = array_key (Z.of_nat i) name
                     ∧ entry.2 !! name = Some v)
  ∨ (QSettings.outside "IOS_images" (key, v) ∧ s !! key = Some v).
Proof.
  unfold saved, _saveIOSImages, modify. simpl.
  unfold QSettings.remove. simpl.
  set (q0 := QSettings.beginWriteArray _ _ _).
  assert (Hsize : Z.of_nat (length images) <? 0 = false) by (apply Z.ltb_ge; lia).
  assert (Hq0 : in_array q0).
  { subst q0. unfold QSettings.beginWriteArray. rewrite Hsize.
    eexists. split; [reflexivity|]. done. }
  assert (Hstore0 : QSettings.store q0
                    = <["IOS_images/ios_image/size" := VInt (Z.of_nat (length images))]>
                        (filter (QSettings.outside "IOS_images") s)).
  { subst q0. unfold QSettings.beginWriteArray. by rewrite Hsize. }
  pose proof (write_images_in_array images.*2 q0 0 Hq0 ltac:(lia))
    as (g & Hstack & _ & Hmax).
  unfold QSettings.endArray. rewrite Hstack, Hmax. simpl.
  intros Hkey.
  apply (write_images_keys images.*2 q0 0 key v Hq0 ltac:(lia)) in Hkey
    as [(i & record & name & Hi & -> & Hv) | Hold].
  - right. left. rewrite list_lookup_fmap in Hi.
    apply fmap_Some in Hi as (entry & Hi & ->). by exists i, entry, name.
  - rewrite Hstore0 in Hold. apply lookup_insert_Some in Hold as [[<- <-] | [_ Hold]].
    + by left.
    + right. right. by apply map_lookup_filter_Some in Hold as [? ?].
Qed.

(** The field of a record that the record does not have is not in the
    store after a save. *)
Lemma saved_field_None (images : dict ios_image) s i entry name :
  images !! i = Some entry → entry.2 !! name = None →
  saved images s !! array_key (Z.of_nat i) name = None.
Proof.
  intros Hi Hnone.
  destruct (saved images s !! array_key (Z.of_nat i) name) as [v|] eqn:Hv; [|done].
  exfalso. apply saved_keys in Hv as [[Hsize _] | [(j & e & n & Hj & Hkey & Hn) | [[_ Hout] _]]].
  - by apply array_key_not_size in Hsize; [|lia].
  - pose proof (array_key_index (Z.of_nat i) (Z.of_nat j) name n
                  ltac:(lia) ltac:(lia) Hkey) as Hij.
    apply Nat2Z.inj in Hij. subst j. apply array_key_name_inj in Hkey. subst n.
    unfold dict in *. congruence.
  - change (QSettings.starts_with "IOS_images/" (array_key (Z.of_nat i) name) = false)
      in Hout.
    unfold array_key in Hout. discriminate Hout.
Qed.

(** C8. [_saveIOSImages] clears the whole group of the catalogue before it
    writes, and writes every record: afterwards the store holds the
    number of records under the array's size and each record's fields
    under the keys of its place in the catalogue, it holds nothing else
    inside the group whatever was there before, and it holds every other
    setting as it was; the module is unchanged and nothing is sent.  So a
    second save in a row leaves exactly what the first one left: no
    record is duplicated or kept from before. *)
Theorem saveIOSImages_idempotent (w : world) :
  ∃ w1, _saveIOSImages w = (Return tt, w1)
    ∧ this w1 = this w ∧ trace w1 = trace w
    ∧ persisted w1 !! "IOS_images/ios_image/size"
      = Some (VInt (Z.of_nat (length (_ios_images (this w)))))
    ∧ (∀ i entry name, _ios_images (this w) !! i = Some entry →
         persisted w1 !! array_key (Z.of_nat i) name = entry.2 !! name)
    ∧ (∀ key v, persisted w1 !! key = Some v →
         key = "IOS_images/ios_image/size"
         ∨ (∃ i entry name, _ios_images (this w) !! i = Some entry
                            ∧ key = array_key (Z.of_nat i) name
                            ∧ entry.2 !! name = Some v)
         ∨ (QSettings.outside "IOS_images" (key, v) ∧ persisted w !! key = Some v))
    ∧ (∀ key v, QSettings.outside "IOS_images" (key, v) →
         persisted w1 !! key = persisted w !! key)
    ∧ _saveIOSImages w1 = (Return tt, w1).
Proof.
  exists (set_persisted (saved (_ios_images (this w)) (persisted w)) w).
  split; [apply saveIOSImages_saved|]. split; [done|]. split; [done|].
  split; [apply saved_size|]. split; [|split; [|split]].
  - intros i entry name Hi. simpl.
    destruct (entry.2 !! name) as [v|] eqn:Hv.
    + by apply (saved_field _ _ _ entry).
    + by apply (saved_field_None _ _ _ entry).
  - intros key v Hkey. simpl in Hkey.
    apply saved_keys in Hkey as [[-> _] | [H | H]]; [by left | by right; left | by right; right].
  - intros key v [Hne Hout]. simpl.
    pose proof (saved_others (_ios_images (this w)) (persisted w)) as Hothers.
    apply (f_equal (λ m, m !! key)) in Hothers. unfold others in Hothers.
    assert (Hkey : ∀ v, QSettings.outside "IOS_images" (key, v)) by (by split).
    destruct (saved _ _ !! key) as [v1|] eqn:Hv.
    + rewrite (map_lookup_filter_Some_2 _ _ _ _ Hv (Hkey v1)) in Hothers.
      symmetry in Hothers. by apply map_lookup_filter_Some in Hothers as [-> _].
    + destruct (persisted w !! key) as [v2|] eqn:Hw; [|done].
      rewrite (map_lookup_filter_Some_2 _ _ _ _ Hw (Hkey v2)) in Hothers.
      apply map_lookup_filter_Some in Hothers as [Hothers _]. congruence.
  - pose proof (saveIOSImages_twice w) as Htwice.
    rewrite (saveIOSImages_saved w) in Htwice. exact Htwice.
Qed.

End DynamipsCatalog.

(** ** Dynamips: constructing a module from the store *)

Module DynamipsInit.
Import Dynamips DynamipsStore DynamipsLoad DynamipsLoadView DynamipsMore.
Import DynamipsLoading Decimal DynamipsCatalog DynamipsImages DynamipsSettings FRSWMore.

#[local] Existing Instance settings_key_inj.

Lemma dict_set_Forall {V} (P : string * V → Prop) k v (d : dict V) :
  P (k, v) → Forall P d → Forall P (dict_set k v d).
Proof.
  intros Hkv. induction 1 as [|[k0 v0] d H0 Hd IH]; simpl.
  - by constructor.
  - destruct (String.eqb_spec k0 k) as [->|_]; by constructor.
Qed.

Lemma dict_set_keys {V} k (v : V) (d : dict V) :
  (dict_set k v d).*1 = if decide (k ∈ d.*1) then d.*1 else d.*1 ++ [k].
Proof.
  induction d as [|[k0 v0] d IH]; [done|].
  cbn [dict_set]. destruct (String.eqb_spec k0 k) as [->|Hne];
    rewrite !fmap_cons; cbn [fst].
  - destruct (decide (k ∈ k :: d.*1)) as [_|Hk]; [done|].
    exfalso. apply Hk, elem_of_cons. by left.
  - rewrite IH.
    destruct (decide (k ∈ d.*1)) as [Hin|Hnotin];
      destruct (decide (k ∈ k0 :: d.*1)) as [Hin'|Hnotin']; try done.
    + exfalso. apply Hnotin', elem_of_cons. by right.
    + apply elem_of_cons in Hin' as [->|?]; done.
Qed.

Lemma dict_set_NoDup {V} k (v : V) (d : dict V) :
  NoDup d.*1 → NoDup (dict_set k v d).*1.
Proof.
  intros Hnd. rewrite dict_set_keys. case_decide as Hk; [done|].
  apply NoDup_app. split; [done|]. split; [|apply NoDup_singleton].
  by intros x Hx ->%list_elem_of_singleton.
Qed.

(** What [setSettings] leaves when every key is known. *)
Lemma setSettings_run (w : world) (new_settings : gmap string pyvalue) :
  dom new_settings ⊆ dom (_settings (this w)) →
  ∃ w1, setSettings new_settings w = (Return tt, w1)
    ∧ _settings (this w1) = new_settings ∪ _settings (this w)
    ∧ persisted w1
      = kmap settings_key (new_settings ∪ _settings (this w)) ∪ persisted w.
Proof.
  intros Hdom. unfold setSettings.
  unfold mbind at 1, M_bind at 1, gets. simpl.
  unfold mbind at 1, M_bind at 1, lift. rewrite (changed_params_filter _ _ Hdom).
  unfold mbind at 1, M_bind at 1.
  case_bool_decide.
  - simpl. unfold mbind, M_bind, modify. rewrite saveSettings_store.
    eexists. split; [reflexivity|]. done.
  - unfold mbind at 1, M_bind at 1, gets. simpl. rewrite emit_all.
    unfold mbind, M_bind, modify. rewrite saveSettings_store.
    eexists. split; [reflexivity|]. done.
Qed.

(** Saving the catalogue leaves the keys outside its group as they are. *)
Lemma saved_outside (images : dict ios_image) (s : gmap string pyvalue) key :
  key ≠ "IOS_images" → QSettings.starts_with "IOS_images/" key = false →
  saved images s !! key = s !! key.
Proof.
  intros Hne Hout.
  pose proof (saved_others images s) as Hothers.
  apply (f_equal (λ m, m !! key)) in Hothers. unfold others in Hothers.
  assert (Hkey : ∀ v, QSettings.outside "IOS_images" (key, v)) by (by split).
  destruct (saved _ _ !! key) as [v|] eqn:Hv.
  - rewrite (map_lookup_filter_Some_2 _ _ _ _ Hv (Hkey v)) in Hothers.
    symmetry in Hothers. by apply map_lookup_filter_Some in Hothers as [-> _].
  - destruct (s !! key) as [v|] eqn:Hw; [|done].
    rewrite (map_lookup_filter_Some_2 _ _ _ _ Hw (Hkey v)) in Hothers.
    apply map_lookup_filter_Some in Hothers as [Hothers _]. congruence.
Qed.

(** The keys of the settings and those of the catalogue are apart. *)
Lemma settings_key_outside name :
  settings_key name ≠ "IOS_images"
  ∧ QSettings.starts_with "IOS_images/" (settings_key name) = false.
Proof. split; [discriminate | reflexivity]. Qed.

Lemma array_key_not_settings_key index field name :
  array_key index field ≠ settings_key name.
Proof. discriminate. Qed.

Lemma saved_settings_not_in_array (settings store : gmap string pyvalue) key :
  (∀ name, key ≠ settings_key name) →
  (kmap settings_key settings ∪ store) !! key = store !! key.
Proof.
  intros Hkey. apply lookup_union_r.
  apply (lookup_kmap_None settings_key). intros name Hname. by destruct (Hkey name).
Qed.

Section Init.
Variable DEFAULT_DYNAMIPS_PATH : string.
Variable convert : setting_type → pyvalue → result pyvalue.
Variable toInt : pyvalue → Z.
Variable format : pyvalue → string.

(** *** The reading handle *)

Lemma read_handle_in_array s :
  in_array (QSettingsRead.beginReadArray toInt "ios_image"
              (QSettings.beginGroup "IOS_images" (QSettings.open s))).2.
Proof. eexists. split; [reflexivity|]. done. Qed.

Lemma setArrayIndex_in_array index q :
  in_array q →
  in_array (QSettings.setArrayIndex index q)
  ∧ QSettings.store (QSettings.setArrayIndex index q) = QSettings.store q.
Proof.
  intros (g & Hstack & Hstr & Hmax). unfold QSettings.setArrayIndex. rewrite Hstack.
  split; [|done]. eexists. split; [reflexivity|]. cbn. by rewrite Hmax.
Qed.

Lemma value_at index name default q :
  in_array q → 0 ≤ index →
  QSettingsRead.value name default (QSettings.setArrayIndex index q)
  = stored_field (QSettings.store q) index name default.
Proof.
  intros (g & Hstack & Hstr & Hmax) Hindex.
  unfold QSettingsRead.value, QSettings.setArrayIndex, stored_field. rewrite Hstack.
  cbn [QSettings.store QSettings.groupStack].
  rewrite (array_prefix _ index); [done | done | cbn; lia | done].
Qed.

(** *** The two loops, however they end *)

Lemma read_image_eq q :
  read_image convert format q
  = match convert int_ (QSettingsRead.value "ram" (VInt 128) q) with
    | Return ram =>
        Return (format (QSettingsRead.value "server" (VStr "local") q) +:+ ":"
                +:+ format (QSettingsRead.value "image" (VStr "") q),
                ({[ "path" := QSettingsRead.value "path" (VStr "") q;
                    "image" := QSettingsRead.value "image" (VStr "") q;
                    "startup-config" := QSettingsRead.value "image" (VStr "") q;
                    "platform" := QSettingsRead.value "platform" (VStr "") q;
                    "chassis" := QSettingsRead.value "chassis" (VStr "") q;
                    "idlepc" := QSettingsRead.value "idlepc" (VStr "") q;
                    "ram" := ram;
                    "server" := QSettingsRead.value "server" (VStr "local") q ]}
                 : ios_image))
    | Raise e => Raise e
    end.
Proof. unfold read_image. by destruct (convert int_ _). Qed.

Lemma read_image_loaded q entry :
  read_image convert format q = Return entry → loaded_entry convert format entry.
Proof.
  rewrite read_image_eq.
  destruct (convert int_ _) as [ram|] eqn:Hram; [|done]. intros [= <-].
  eexists _, _, _, _, _, _, _, _. split; [exact Hram|]. done.
Qed.

Lemma load_images_cons q index rest w :
  load_images convert format q (index :: rest) w
  = match read_image convert format (QSettings.setArrayIndex index q) with
    | Return entry =>
        load_images convert format (QSettings.setArrayIndex index q) rest
          (set_image entry w)
    | Raise e => (Raise e, w)
    end.
Proof.
  cbn [load_images]. unfold mbind at 1, M_bind at 1, lift.
  by destruct (read_image convert format _).
Qed.

(** The loop of [_loadIOSImages] changes the catalogue only, and keeps it
    a dictionary of loaded entries, even when it raises on the way. *)
Lemma load_images_run (indices : list Z) : ∀ q w,
  ∃ r w', load_images convert format q indices w = (r, w')
    ∧ persisted w' = persisted w ∧ trace w' = trace w
    ∧ _settings (this w') = _settings (this w)
    ∧ _servers (this w') = _servers (this w)
    ∧ (Forall (loaded_entry convert format) (_ios_images (this w)) →
       Forall (loaded_entry convert format) (_ios_images (this w')))
    ∧ (NoDup (_ios_images (this w)).*1 → NoDup (_ios_images (this w')).*1).
Proof.
  induction indices as [|index indices IH]; intros q w.
  - exists (Return tt), w. by repeat split.
  - rewrite load_images_cons.
    destruct (read_image convert format _) as [e|err] eqn:Hread.
    + apply read_image_loaded in Hread.
      destruct (IH (QSettings.setArrayIndex index q) (set_image e w))
        as (r & w' & Hrun & Hp & Ht & Hs & Hsrv & Hall & Hnd).
      exists r, w'. split; [exact Hrun|]. simpl in *.
      split; [done|]. split; [done|]. split; [done|]. split; [done|]. split.
      * intros H. apply Hall. apply dict_set_Forall; [|done]. by destruct e.
      * intros H. by apply Hnd, dict_set_NoDup.
    + exists (Raise err), w. by repeat split.
Qed.

(** The loop returns exactly when the memory size of every record it
    reads converts. *)
Lemma load_images_returns (indices : list Z) : ∀ q w,
  Forall (λ index, 0 ≤ index) indices → in_array q →
  (∃ w', load_images convert format q indices w = (Return tt, w'))
  ↔ Forall (λ index, ∃ ram, convert int_ (stored_field (QSettings.store q) index "ram"
                                             (VInt 128)) = Return ram) indices.
Proof.
  induction indices as [|index indices IH]; intros q w Hpos Hq.
  - split; [by constructor | by eexists].
  - apply Forall_cons in Hpos as [Hindex Hpos].
    destruct (setArrayIndex_in_array index q Hq) as [Hq' Hstore'].
    rewrite load_images_cons, read_image_eq, Forall_cons, (value_at index "ram") by done.
    destruct (convert int_ _) as [ram|err].
    + rewrite (IH (QSettings.setArrayIndex index q)) by done. rewrite Hstore'.
      split; [by split; [eexists|] | by intros [_ ?]].
    + split; [by intros [w' [=]] | by intros [[ram [=]] _]].
Qed.

Lemma loadIOSImages_eq w :
  _loadIOSImages convert toInt format w
  = load_images convert format
      (QSettingsRead.beginReadArray toInt "ios_image"
         (QSettings.beginGroup "IOS_images" (QSettings.open (persisted w)))).2
      (seqZ 0 (stored_size toInt (persisted w))) w.
Proof. reflexivity. Qed.

(** [_loadIOSImages], however it ends. *)
Lemma loadIOSImages_run w :
  ∃ r w', _loadIOSImages convert toInt format w = (r, w')
    ∧ persisted w' = persisted w ∧ trace w' = trace w
    ∧ _settings (this w') = _settings (this w)
    ∧ _servers (this w') = _servers (this w)
    ∧ (Forall (loaded_entry convert format) (_ios_images (this w)) →
       Forall (loaded_entry convert format) (_ios_images (this w')))
    ∧ (NoDup (_ios_images (this w)).*1 → NoDup (_ios_images (this w')).*1)
    ∧ (r = Return tt ↔ catalog_loads convert toInt (persisted w))
    ∧ (persisted w !! "IOS_images/ios_image/size" = None →
       r = Return tt ∧ _ios_images (this w') = _ios_images (this w)).
Proof.
  rewrite loadIOSImages_eq.
  set (q0 := (QSettingsRead.beginReadArray toInt "ios_image" _).2).
  destruct (load_images_run (seqZ 0 (stored_size toInt (persisted w))) q0 w)
    as (r & w' & Hrun & Hp & Ht & Hs & Hsrv & Hall & Hnd).
  exists r, w'. split; [exact Hrun|].
  split; [done|]. split; [done|]. split; [done|]. split; [done|].
  split; [done|]. split; [done|]. split.
  - pose proof (load_images_returns (seqZ 0 (stored_size toInt (persisted w))) q0 w) as Hret.
    rewrite Hrun in Hret. unfold catalog_loads.
    assert (Hpos : Forall (λ index, 0 ≤ index) (seqZ 0 (stored_size toInt (persisted w)))).
    { apply Forall_forall. intros index Hin. apply elem_of_seqZ in Hin. lia. }
    specialize (Hret Hpos (read_handle_in_array _)).
    rewrite Forall_forall in Hret. split.
    + intros ->. intros index Hindex. apply Hret; [by eexists|].
      apply elem_of_seqZ. lia.
    + intros Hcat. destruct Hret as [_ Hret].
      destruct Hret as [w'' [= -> _]]; [|done].
      intros index Hin. apply elem_of_seqZ in Hin. apply Hcat. lia.
  - intros Hsize. unfold stored_size in Hrun. rewrite Hsize in Hrun.
    simpl in Hrun. by injection Hrun as <- <-.
Qed.

Lemma init_eq w :
  __init__ DEFAULT_DYNAMIPS_PATH convert toInt format w
  = match _loadSettings DEFAULT_DYNAMIPS_PATH convert
            (set_this (λ _, {| _settings := ∅; _ios_images := []; _servers := [] |}) w)
    with
    | (Return _, loaded) => _loadIOSImages convert toInt format loaded
    | (Raise e, stopped) => (Raise e, stopped)
    end.
Proof. reflexivity. Qed.

(** X18. [Dynamips()] returns exactly when every setting of the table
    converts and the memory size of every record that the store announces
    converts; otherwise it raises.  Either way it neither writes the
    store nor sends anything, and the module it leaves has no server and
    a catalogue that is a dictionary (no key twice) in which every record
    has exactly the eight fields, with the startup configuration equal to
    the image name, filed under ["<server>:<image>"]; the catalogue is
    empty when the store has no array size for it. *)
Theorem init_result (w : world) :
  ∃ r w', __init__ DEFAULT_DYNAMIPS_PATH convert toInt format w = (r, w')
    ∧ persisted w' = persisted w ∧ trace w' = trace w
    ∧ _servers (this w') = []
    ∧ Forall (loaded_entry convert format) (_ios_images (this w'))
    ∧ NoDup (_ios_images (this w')).*1
    ∧ (r = Return tt
       ↔ settings_load convert DEFAULT_DYNAMIPS_PATH (persisted w)
         ∧ catalog_loads convert toInt (persisted w))
    ∧ (persisted w !! "IOS_images/ios_image/size" = None → _ios_images (this w') = []).
Proof.
  rewrite init_eq.
  set (w0 := set_this _ w).
  destruct (loadSettings_cases DEFAULT_DYNAMIPS_PATH convert w0)
    as (r1 & xa & Hrun1 & Hp1 & Ht1 & Hs1 & Hi1 & Hr1).
  rewrite Hrun1.
  destruct Hr1 as [(-> & Hall & _) | (e & name & default & t & -> & Hd & Ht & Hraise)].
  - destruct (loadIOSImages_run xa)
      as (r & wb & Hrun2 & Hp2 & Ht2 & _ & Hs2 & Hloaded & Hnd & Hret & Hempty).
    exists r, wb. split; [exact Hrun2|].
    split; [by rewrite Hp2, Hp1|]. split; [by rewrite Ht2, Ht1|].
    split; [by rewrite Hs2, Hs1|].
    rewrite Hi1 in Hloaded, Hnd, Hempty. rewrite Hp1 in Hret, Hempty.
    split; [by apply Hloaded|]. split; [apply Hnd; constructor|].
    split; [|by intros Hsize; apply Hempty].
    rewrite Hret. split; [by split | by intros [_ ?]].
  - exists (Raise e), xa. split; [done|].
    split; [done|]. split; [done|]. split; [by rewrite Hs1|].
    rewrite Hi1. split; [constructor|]. split; [constructor|].
    split; [|done]. split; [done|]. intros [Hall _].
    destruct (Hall name default t Hd Ht) as [v Hv].
    change (persisted w0) with (persisted w) in Hraise. congruence.
Qed.

(** When both conditions hold, the construction returns, and the settings
    of the module are the converted ones. *)
Lemma init_returns (w : world) :
  settings_load convert DEFAULT_DYNAMIPS_PATH (persisted w) →
  catalog_loads convert toInt (persisted w) →
  ∃ loaded w2,
    __init__ DEFAULT_DYNAMIPS_PATH convert toInt format w = (Return tt, w2)
    ∧ _loadIOSImages convert toInt format loaded = (Return tt, w2)
    ∧ persisted loaded = persisted w ∧ _ios_images (this loaded) = []
    ∧ persisted w2 = persisted w
    ∧ ∀ name,
        _settings (this w2) !! name
        = match dict_get (DYNAMIPS_SETTINGS DEFAULT_DYNAMIPS_PATH) name,
                dict_get DYNAMIPS_SETTING_TYPES name with
          | Some default, Some t =>
              match loaded_setting convert (persisted w) name default t with
              | Return v => Some v
              | Raise _ => None
              end
          | _, _ => None
          end.
Proof.
  intros Hset Hcat. rewrite init_eq.
  set (w0 := set_this _ w).
  destruct (loadSettings_cases DEFAULT_DYNAMIPS_PATH convert w0)
    as (r1 & xa & Hrun1 & Hp1 & Ht1 & Hs1 & Hi1 & Hr1).
  rewrite Hrun1.
  destruct Hr1 as [(-> & _ & Hsettings) | (e & name & default & t & -> & Hd & Ht & Hraise)].
  - destruct (loadIOSImages_run xa)
      as (r & wb & Hrun2 & Hp2 & _ & Hs2 & _ & _ & _ & Hret & _).
    assert (r = Return tt) as -> by (apply Hret; by rewrite Hp1).
    exists xa, wb. split; [done|]. split; [done|]. split; [done|]. split; [done|].
    split; [by rewrite Hp2, Hp1|].
    intros name. rewrite Hs2, Hsettings.
    change (persisted w0) with (persisted w).
    change (_settings (this w0)) with (∅ : gmap string pyvalue).
    by rewrite lookup_empty.
  - destruct (Hset name default t Hd Ht) as [v Hv].
    change (persisted w0) with (persisted w) in Hraise. congruence.
Qed.

(** *** The settings *)

(** The two tables of [settings.py] have the same names. *)
Lemma tables_same_names name :
  dict_get (DYNAMIPS_SETTINGS DEFAULT_DYNAMIPS_PATH) name = None
  ↔ dict_get DYNAMIPS_SETTING_TYPES name = None.
Proof. rewrite !dict_get_None. reflexivity. Qed.

Lemma stored_size_saved_settings (settings store : gmap string pyvalue) :
  stored_size toInt (kmap settings_key settings ∪ store) = stored_size toInt store.
Proof.
  unfold stored_size. rewrite saved_settings_not_in_array; [done|].
  intros name. discriminate.
Qed.

Lemma stored_field_saved_settings (settings store : gmap string pyvalue) index name default :
  stored_field (kmap settings_key settings ∪ store) index name default
  = stored_field store index name default.
Proof.
  unfold stored_field. rewrite saved_settings_not_in_array; [done|].
  intros n. apply array_key_not_settings_key.
Qed.

Lemma catalog_loads_saved_settings (settings store : gmap string pyvalue) :
  catalog_loads convert toInt (kmap settings_key settings ∪ store)
  ↔ catalog_loads convert toInt store.
Proof.
  unfold catalog_loads. rewrite stored_size_saved_settings.
  split; intros H index Hindex; specialize (H index Hindex);
    by rewrite stored_field_saved_settings in *.
Qed.

(** A module constructed from a store that holds the settings
    [saved_settings] under their keys has exactly these settings. *)
Lemma init_reads_settings (saved_settings store : gmap string pyvalue) (w1 : world) :
  persisted w1 = kmap settings_key saved_settings ∪ store →
  Forall (λ item, ∃ v, saved_settings !! item.1 = Some v ∧ convert item.2 v = Return v)
    DYNAMIPS_SETTING_TYPES →
  map_Forall (λ name _, is_Some (dict_get DYNAMIPS_SETTING_TYPES name)) saved_settings →
  catalog_loads convert toInt store →
  ∃ w2, __init__ DEFAULT_DYNAMIPS_PATH convert toInt format w1 = (Return tt, w2)
    ∧ _settings (this w2) = saved_settings
    ∧ persisted w2 = persisted w1.
Proof.
  intros Hstore Hkept Hnames Hcat.
  assert (Hread : ∀ name t, dict_get DYNAMIPS_SETTING_TYPES name = Some t →
            ∀ default, ∃ v, saved_settings !! name = Some v
                            ∧ loaded_setting convert (persisted w1) name default t
                              = Return v).
  { intros name t Ht default.
    pose proof (dict_get_Some_elem _ _ _ Ht) as Hin.
    rewrite Forall_forall in Hkept. destruct (Hkept _ Hin) as (v & Hv & Hc).
    simpl in Hv, Hc. exists v. split; [done|]. unfold loaded_setting.
    rewrite Hstore, (lookup_union_Some_l _ _ _ v); [done|].
    by rewrite (lookup_kmap settings_key). }
  destruct (init_returns w1) as (loaded & w2 & Hrun & _ & _ & _ & Hp & Hsettings).
  { intros name default t _ Ht. destruct (Hread name t Ht default) as (v & _ & Hv).
    by exists v. }
  { rewrite Hstore. by apply catalog_loads_saved_settings. }
  exists w2. split; [done|]. split; [|done].
  apply map_eq. intros name. rewrite Hsettings.
  destruct (dict_get (DYNAMIPS_SETTINGS DEFAULT_DYNAMIPS_PATH) name) as [default|] eqn:Hd.
  - destruct (dict_get DYNAMIPS_SETTING_TYPES name) as [t|] eqn:Ht.
    + destruct (Hread name t Ht default) as (v & Hv & ->). done.
    + apply tables_same_names in Ht. congruence.
  - destruct (saved_settings !! name) as [v|] eqn:Hv; [|done].
    apply Hnames in Hv as [t Ht]. apply tables_same_names in Hd. congruence.
Qed.

(** X19. Saving the settings and constructing a module anew gives the same
    settings back, when the module has a setting for every name of the
    table, which the conversion to the type of the table returns as it
    is, and no other setting, and the catalogue that the store holds can
    be loaded. *)
Theorem settings_round_trip (w : world) :
  Forall (λ item, ∃ v, _settings (this w) !! item.1 = Some v
                       ∧ convert item.2 v = Return v)
    DYNAMIPS_SETTING_TYPES →
  map_Forall (λ name _, is_Some (dict_get DYNAMIPS_SETTING_TYPES name))
    (_settings (this w)) →
  catalog_loads convert toInt (persisted w) →
  ∃ w1 w2, _saveSettings w = (Return tt, w1)
    ∧ __init__ DEFAULT_DYNAMIPS_PATH convert toInt format w1 = (Return tt, w2)
    ∧ _settings (this w2) = _settings (this w)
    ∧ persisted w2 = persisted w1.
Proof.
  intros Hkept Hnames Hcat.
  set (w1 := set_persisted (kmap settings_key (_settings (this w)) ∪ persisted w) w).
  destruct (init_reads_settings (_settings (this w)) (persisted w) w1)
    as (w2 & Hrun & Hs & Hp); [done..|].
  exists w1, w2. split; [apply saveSettings_store|]. done.
Qed.

(** X20. After [setSettings] with known keys, a module constructed anew
    has the updated settings: the new values over the old ones (under
    the same conditions on the updated settings and on the catalogue
    that the store holds). *)
Theorem setSettings_then_init (w : world) (new_settings : gmap string pyvalue) :
  dom new_settings ⊆ dom (_settings (this w)) →
  Forall (λ item, ∃ v, (new_settings ∪ _settings (this w)) !! item.1 = Some v
                       ∧ convert item.2 v = Return v)
    DYNAMIPS_SETTING_TYPES →
  map_Forall (λ name _, is_Some (dict_get DYNAMIPS_SETTING_TYPES name))
    (_settings (this w)) →
  catalog_loads convert toInt (persisted w) →
  ∃ w1 w2, setSettings new_settings w = (Return tt, w1)
    ∧ __init__ DEFAULT_DYNAMIPS_PATH convert toInt format w1 = (Return tt, w2)
    ∧ _settings (this w2) = new_settings ∪ _settings (this w).
Proof.
  intros Hdom Hkept Hnames Hcat.
  destruct (setSettings_run w new_settings Hdom) as (w1 & Hrun1 & _ & Hp1).
  destruct (init_reads_settings (new_settings ∪ _settings (this w)) (persisted w) w1)
    as (w2 & Hrun2 & Hs & _); [done | done | | done |].
  { intros name v Hv. apply lookup_union_Some_raw in Hv as [Hv | [_ Hv]].
    - apply elem_of_dom_2 in Hv. apply Hdom in Hv. apply elem_of_dom in Hv as [old Hold].
      by apply (Hnames _ _ Hold).
    - by apply (Hnames _ _ Hv). }
  by exists w1, w2.
Qed.

(** *** Reading the saved catalogue back *)

Lemma settings_load_saved (images : dict ios_image) (s : gmap string pyvalue) :
  settings_load convert DEFAULT_DYNAMIPS_PATH (saved images s)
  ↔ settings_load convert DEFAULT_DYNAMIPS_PATH s.
Proof.
  unfold settings_load, loaded_setting.
  split; intros H name default t Hd Ht; specialize (H name default t Hd Ht);
    destruct (settings_key_outside name) as [Hne Hout];
    by rewrite (saved_outside _ _ _ Hne Hout) in *.
Qed.

Lemma read_image_saved (images : dict ios_image) s q i entry :
  in_array q → QSettings.store q = saved images s →
  images !! i = Some entry → canonical_entry convert format entry →
  read_image convert format (QSettings.setArrayIndex (Z.of_nat i) q) = Return entry.
Proof.
  intros Hq Hstore Hi
    (path & image & platform & chassis & idlepc & server & ram & Hrec & Hkey & Hconv).
  rewrite read_image_eq, !value_at by (done || lia). rewrite Hstore.
  unfold stored_field.
  rewrite (saved_field images s i entry "path" path),
    (saved_field images s i entry "image" image),
    (saved_field images s i entry "platform" platform),
    (saved_field images s i entry "chassis" chassis),
    (saved_field images s i entry "idlepc" idlepc),
    (saved_field images s i entry "ram" (VInt ram)),
    (saved_field images s i entry "server" server);
    try done; try (rewrite Hrec; reflexivity).
  destruct entry as [key record]. simpl in Hrec, Hkey. subst key record.
  by rewrite Hconv.
Qed.

Lemma load_images_saved (images : dict ios_image) s :
  Forall (canonical_entry convert format) images → NoDup images.*1 →
  ∀ rest before q w,
    images = before ++ rest → in_array q → QSettings.store q = saved images s →
    _ios_images (this w) = before →
    ∃ w', load_images convert format q
            (seqZ (Z.of_nat (length before)) (Z.of_nat (length rest))) w
          = (Return tt, w')
      ∧ _ios_images (this w') = images.
Proof.
  intros Hcan Hnd.
  induction rest as [|entry rest IH]; intros before q w Himages Hq Hstore Hw.
  - exists w. rewrite app_nil_r in Himages. by subst.
  - rewrite seqZ_cons by (simpl; lia). rewrite load_images_cons.
    destruct (setArrayIndex_in_array (Z.of_nat (length before)) q Hq) as [Hq' Hstore'].
    assert (read_image convert format
              (QSettings.setArrayIndex (Z.of_nat (length before)) q) = Return entry)
      as Hread.
    { apply (read_image_saved images s); try done.
      - rewrite Himages. by apply list_lookup_middle.
      - rewrite Forall_forall in Hcan. apply Hcan. rewrite Himages.
        apply elem_of_app. right. left. }
    rewrite Hread.
    destruct (IH (before ++ [entry]) (QSettings.setArrayIndex (Z.of_nat (length before)) q)
                (set_image entry w)) as (w' & Hrun & Himg).
    + by rewrite <- app_assoc.
    + done.
    + by rewrite Hstore'.
    + simpl. rewrite Hw. destruct entry as [key record]. apply dict_set_fresh.
      rewrite Himages, fmap_app, fmap_cons in Hnd.
      apply NoDup_app in Hnd as (_ & Hdisj & _).
      intros Hin. apply (Hdisj _ Hin). left.
    + exists w'. split; [|done]. rewrite <- Hrun. f_equal. f_equal.
      * rewrite length_app. simpl. lia.
      * simpl length. lia.
Qed.

Lemma loadIOSImages_saved (images : dict ios_image) s w :
  toInt (VInt (Z.of_nat (length images))) = Z.of_nat (length images) →
  Forall (canonical_entry convert format) images → NoDup images.*1 →
  persisted w = saved images s → _ios_images (this w) = [] →
  ∃ w', _loadIOSImages convert toInt format w = (Return tt, w')
    ∧ _ios_images (this w') = images.
Proof.
  intros HtoInt Hcan Hnd Hp Hw. rewrite loadIOSImages_eq.
  assert (stored_size toInt (persisted w) = Z.of_nat (length images)) as ->.
  { unfold stored_size. by rewrite Hp, saved_size, HtoInt. }
  apply (load_images_saved images s Hcan Hnd images [] _ w);
    [done | apply read_handle_in_array | exact Hp | exact Hw].
Qed.

(** A module constructed from a store that holds the saved catalogue has
    this catalogue. *)
Lemma init_reads_catalog (images : dict ios_image) s (w1 : world) :
  toInt (VInt (Z.of_nat (length images))) = Z.of_nat (length images) →
  Forall (canonical_entry convert format) images → NoDup images.*1 →
  persisted w1 = saved images s →
  settings_load convert DEFAULT_DYNAMIPS_PATH s →
  ∃ w2, __init__ DEFAULT_DYNAMIPS_PATH convert toInt format w1 = (Return tt, w2)
    ∧ _ios_images (this w2) = images
    ∧ persisted w2 = persisted w1.
Proof.
  intros HtoInt Hcan Hnd Hstore Hset. rewrite init_eq.
  set (w0 := set_this _ w1).
  destruct (loadSettings_cases DEFAULT_DYNAMIPS_PATH convert w0)
    as (r1 & xa & Hrun1 & Hp1 & _ & _ & Hi1 & Hr1).
  rewrite Hrun1.
  destruct Hr1 as [(-> & _) | (e & name & default & t & -> & Hd & Ht & Hraise)].
  - destruct (loadIOSImages_saved images s xa) as (wb & Hrun2 & Himg); try done.
    { by rewrite Hp1. }
    destruct (loadIOSImages_run xa) as (r & wb' & Hrun2' & Hp2 & _).
    rewrite Hrun2 in Hrun2'. injection Hrun2' as <- <-.
    exists wb. split; [done|]. split; [done|]. by rewrite Hp2, Hp1.
  - apply (settings_load_saved images) in Hset.
    destruct (Hset name default t Hd Ht) as [v Hv].
    change (persisted w0) with (persisted w1) in Hraise. rewrite Hstore in Hraise.
    congruence.
Qed.

(** X21. Saving the catalogue and constructing a module anew gives the
    same catalogue back, in the same order, when the catalogue is one
    that loading can give and that the binding reads back as it is: no
    key twice, every record with the eight fields, filed under
    ["<server>:<image>"], its startup configuration equal to its image
    and its memory size an integer that the conversion returns
    unchanged, and a number of records that the binding reads back
    unchanged; and when the settings that the store holds can be
    loaded. *)
Theorem catalog_round_trip (w : world) :
  toInt (VInt (Z.of_nat (length (_ios_images (this w)))))
  = Z.of_nat (length (_ios_images (this w))) →
  Forall (canonical_entry convert format) (_ios_images (this w)) →
  NoDup (_ios_images (this w)).*1 →
  settings_load convert DEFAULT_DYNAMIPS_PATH (persisted w) →
  ∃ w1 w2, _saveIOSImages w = (Return tt, w1)
    ∧ __init__ DEFAULT_DYNAMIPS_PATH convert toInt format w1 = (Return tt, w2)
    ∧ _ios_images (this w2) = _ios_images (this w)
    ∧ persisted w2 = persisted w1.
Proof.
  intros HtoInt Hcan Hnd Hset.
  set (w1 := set_persisted (saved (_ios_images (this w)) (persisted w)) w).
  destruct (init_reads_catalog (_ios_images (this w)) (persisted w) w1)
    as (w2 & Hrun & Hi & Hp); [done..|].
  exists w1, w2. split; [apply saveIOSImages_saved|]. done.
Qed.

(** X22. [setIOSImages] replaces the catalogue whatever it was, and a
    module constructed anew then has the new catalogue, under the same
    conditions on the new catalogue and on the settings that the store
    holds. *)
Theorem setIOSImages_then_init (w : world) (new_ios_images : dict ios_image) :
  toInt (VInt (Z.of_nat (length new_ios_images))) = Z.of_nat (length new_ios_images) →
  Forall (canonical_entry convert format) new_ios_images →
  NoDup new_ios_images.*1 →
  settings_load convert DEFAULT_DYNAMIPS_PATH (persisted w) →
  ∃ w1 w2, setIOSImages new_ios_images w = (Return tt, w1)
    ∧ _ios_images (this w1) = new_ios_images
    ∧ __init__ DEFAULT_DYNAMIPS_PATH convert toInt format w1 = (Return tt, w2)
    ∧ _ios_images (this w2) = new_ios_images.
Proof.
  intros HtoInt Hcan Hnd Hset.
  unfold setIOSImages. unfold mbind, M_bind, modify. rewrite saveIOSImages_saved.
  set (w1 := set_persisted _ _).
  destruct (init_reads_catalog new_ios_images (persisted w) w1)
    as (w2 & Hrun & Hi & Hp); [done..|].
  by exists w1, w2.
Qed.

(** *** The two groups of the store do not disturb each other *)

(** The loop of [_loadSettings] reads the keys of the settings only. *)
Lemma load_settings_ext types (store1 store2 : gmap string pyvalue)
    (items : dict pyvalue) : ∀ w1 w2,
  (∀ name, store1 !! settings_key name = store2 !! settings_key name) →
  _settings (this w1) = _settings (this w2) →
  (for_each items (load_setting convert types
                     (QSettings.beginGroup "Dynamips" (QSettings.open store1))) w1).1
  = (for_each items (load_setting convert types
                       (QSettings.beginGroup "Dynamips" (QSettings.open store2))) w2).1
  ∧ _settings (this (for_each items (load_setting convert types
                       (QSettings.beginGroup "Dynamips" (QSettings.open store1))) w1).2)
    = _settings (this (for_each items (load_setting convert types
                         (QSettings.beginGroup "Dynamips" (QSettings.open store2))) w2).2).
Proof.
  induction items as [|[n0 d0] items IH]; intros w1 w2 Hagree Hw; [done|].
  rewrite !for_each_cons, !load_setting_eq. simpl.
  destruct (dict_get types n0) as [t0|]; [|done].
  unfold loaded_setting. rewrite Hagree.
  destruct (convert t0 _) as [v|e]; [|done].
  apply IH; [done|]. simpl. by rewrite Hw.
Qed.

Lemma loadSettings_ext (w1 w2 : world) :
  (∀ name, persisted w1 !! settings_key name = persisted w2 !! settings_key name) →
  _settings (this w1) = _settings (this w2) →
  (_loadSettings DEFAULT_DYNAMIPS_PATH convert w1).1
  = (_loadSettings DEFAULT_DYNAMIPS_PATH convert w2).1
  ∧ _settings (this (_loadSettings DEFAULT_DYNAMIPS_PATH convert w1).2)
    = _settings (this (_loadSettings DEFAULT_DYNAMIPS_PATH convert w2).2).
Proof. intros Hagree Hw. by apply load_settings_ext. Qed.

(** What is left of the settings when the construction ends is what
    [_loadSettings] left. *)
Lemma init_settings (w : world) :
  _settings (this (__init__ DEFAULT_DYNAMIPS_PATH convert toInt format w).2)
  = _settings (this (_loadSettings DEFAULT_DYNAMIPS_PATH convert
                       (set_this (λ _, {| _settings := ∅; _ios_images := [];
                                          _servers := [] |}) w)).2).
Proof.
  rewrite init_eq.
  destruct (_loadSettings DEFAULT_DYNAMIPS_PATH convert _) as [[[]|e] xa]; [|done].
  destruct (loadIOSImages_run xa) as (r & wb & Hrun & _ & _ & Hs & _).
  by rewrite Hrun.
Qed.

(** X23. Saving the catalogue does not change what a construction of the
    module reads as settings: after [_saveIOSImages], [_loadSettings] on
    the new module ends as it would have before, returning or raising
    the same, and [Dynamips()] leaves the same settings in the module,
    however it ends. *)
Theorem saveIOSImages_keeps_loaded_settings (w : world) :
  let fresh := set_this (λ _, {| _settings := ∅; _ios_images := []; _servers := [] |}) in
  ∃ w1,
    _saveIOSImages w = (Return tt, w1)
    ∧ (_loadSettings DEFAULT_DYNAMIPS_PATH convert (fresh w1)).1
      = (_loadSettings DEFAULT_DYNAMIPS_PATH convert (fresh w)).1
    ∧ _settings (this (__init__ DEFAULT_DYNAMIPS_PATH convert toInt format w1).2)
      = _settings (this (__init__ DEFAULT_DYNAMIPS_PATH convert toInt format w).2).
Proof.
  intros fresh.
  set (w1 := set_persisted (saved (_ios_images (this w)) (persisted w)) w).
  exists w1. split; [apply saveIOSImages_saved|].
  destruct (loadSettings_ext (fresh w1) (fresh w)) as [Hr Hs]; [|done|].
  { intros name. destruct (settings_key_outside name) as [Hne Hout].
    exact (saved_outside _ _ _ Hne Hout). }
  split; [exact Hr|]. by rewrite !init_settings.
Qed.

(** The loop of [_loadIOSImages] reads the keys of the array only. *)
Lemma load_images_ext (indices : list Z) : ∀ q1 q2 w1 w2,
  Forall (λ index, 0 ≤ index) indices →
  in_array q1 → in_array q2 →
  (∀ index name, 0 ≤ index →
     QSettings.store q1 !! array_key index name
     = QSettings.store q2 !! array_key index name) →
  _ios_images (this w1) = _ios_images (this w2) →
  (load_images convert format q1 indices w1).1
  = (load_images convert format q2 indices w2).1
  ∧ _ios_images (this (load_images convert format q1 indices w1).2)
    = _ios_images (this (load_images convert format q2 indices w2).2).
Proof.
  induction indices as [|index indices IH]; intros q1 q2 w1 w2 Hpos Hq1 Hq2 Hagree Hw;
    [done|].
  apply Forall_cons in Hpos as [Hindex Hpos].
  rewrite !load_images_cons.
  destruct (setArrayIndex_in_array index q1 Hq1) as [Hq1' Hs1].
  destruct (setArrayIndex_in_array index q2 Hq2) as [Hq2' Hs2].
  assert (read_image convert format (QSettings.setArrayIndex index q1)
          = read_image convert format (QSettings.setArrayIndex index q2)) as ->.
  { rewrite !read_image_eq, !value_at by done. unfold stored_field.
    by rewrite !Hagree by done. }
  destruct (read_image convert format _) as [entry|e]; [|done].
  apply IH; [done | done | done | by rewrite Hs1, Hs2 |].
  simpl. by rewrite Hw.
Qed.

Lemma loadIOSImages_ext (w1 w2 : world) :
  (∀ index name, 0 ≤ index →
     persisted w1 !! array_key index name = persisted w2 !! array_key index name) →
  persisted w1 !! "IOS_images/ios_image/size"
  = persisted w2 !! "IOS_images/ios_image/size" →
  _ios_images (this w1) = _ios_images (this w2) →
  (_loadIOSImages convert toInt format w1).1 = (_loadIOSImages convert toInt format w2).1
  ∧ _ios_images (this (_loadIOSImages convert toInt format w1).2)
    = _ios_images (this (_loadIOSImages convert toInt format w2).2).
Proof.
  intros Hagree Hsize Hw. rewrite !loadIOSImages_eq.
  assert (stored_size toInt (persisted w1) = stored_size toInt (persisted w2)) as ->.
  { unfold stored_size. by rewrite Hsize. }
  apply load_images_ext; [| apply read_handle_in_array.. | exact Hagree | exact Hw].
  apply Forall_forall. intros index Hin. apply elem_of_seqZ in Hin. lia.
Qed.

(** A construction that returns has loaded the catalogue as
    [_loadIOSImages] loads it into a new module. *)
Lemma init_catalog (w : world) :
  (__init__ DEFAULT_DYNAMIPS_PATH convert toInt format w).1 = Return tt →
  _ios_images (this (__init__ DEFAULT_DYNAMIPS_PATH convert toInt format w).2)
  = _ios_images (this (_loadIOSImages convert toInt format
                         (set_this (λ _, {| _settings := ∅; _ios_images := [];
                                            _servers := [] |}) w)).2).
Proof.
  rewrite init_eq.
  set (w0 := set_this _ w).
  destruct (loadSettings_cases DEFAULT_DYNAMIPS_PATH convert w0)
    as (r1 & xa & Hrun1 & Hp1 & _ & _ & Hi1 & Hr1).
  rewrite Hrun1.
  destruct Hr1 as [(-> & _) | (e & name & default & t & -> & _)]; [|done].
  intros _. apply loadIOSImages_ext; [by rewrite Hp1.. | done].
Qed.

(** X24. Saving the settings does not change what a construction of the
    module reads as catalogue: after [_saveSettings], [_loadIOSImages] on
    a new module ends as it would have before, returning or raising the
    same, with the same catalogue; so two constructions that return, one
    before and one after the save, give the same catalogue. *)
Theorem saveSettings_keeps_loaded_catalog (w : world) :
  let fresh := set_this (λ _, {| _settings := ∅; _ios_images := []; _servers := [] |}) in
  ∃ w1,
    _saveSettings w = (Return tt, w1)
    ∧ (_loadIOSImages convert toInt format (fresh w1)).1
      = (_loadIOSImages convert toInt format (fresh w)).1
    ∧ _ios_images (this (_loadIOSImages convert toInt format (fresh w1)).2)
      = _ios_images (this (_loadIOSImages convert toInt format (fresh w)).2)
    ∧ ((__init__ DEFAULT_DYNAMIPS_PATH convert toInt format w).1 = Return tt →
       (__init__ DEFAULT_DYNAMIPS_PATH convert toInt format w1).1 = Return tt →
       _ios_images (this (__init__ DEFAULT_DYNAMIPS_PATH convert toInt format w1).2)
       = _ios_images (this (__init__ DEFAULT_DYNAMIPS_PATH convert toInt format w).2)).
Proof.
  intros fresh.
  set (w1 := set_persisted (kmap settings_key (_settings (this w)) ∪ persisted w) w).
  exists w1. split; [apply saveSettings_store|].
  destruct (loadIOSImages_ext (fresh w1) (fresh w)) as [Hr Hi]; [| |done|].
  { intros index name Hindex. apply saved_settings_not_in_array.
    intros n. apply array_key_not_settings_key. }
  { apply saved_settings_not_in_array. intros n. discriminate. }
  split; [exact Hr|]. split; [exact Hi|].
  intros Ha Hb. by rewrite (init_catalog w Ha), (init_catalog w1 Hb).
Qed.

End Init.

(** A table whose settings all convert, entry by entry. *)
Lemma settings_load_Forall convert D store :
  Forall (λ item, ∃ t v, dict_get DYNAMIPS_SETTING_TYPES item.1 = Some t
                         ∧ loaded_setting convert store item.1 item.2 t = Return v)
    (DYNAMIPS_SETTINGS D) →
  settings_load convert D store.
Proof.
  intros Hall name default t Hd Ht.
  apply dict_get_Some_elem in Hd.
  destruct (proj1 (Forall_forall _ _) Hall _ Hd) as (t' & v & Ht' & Hv).
  change (dict_get DYNAMIPS_SETTING_TYPES name = Some t') in Ht'.
  change (loaded_setting convert store name default t' = Return v) in Hv.
  rewrite Ht in Ht'. injection Ht' as <-. by exists v.
Qed.

Lemma sample_store_catalog_loads :
  catalog_loads sample_convert sample_toInt sample_store.
Proof.
  intros index Hindex.
  assert (Hs : stored_size sample_toInt sample_store = 1) by reflexivity.
  rewrite Hs in Hindex. assert (index = 0) as -> by lia.
  eexists. vm_compute. reflexivity.
Qed.

Lemma sample_store_settings_load :
  settings_load sample_convert "dynamips" sample_store.
Proof.
  apply settings_load_Forall.
  repeat constructor; eexists _, _; (split; [reflexivity | vm_compute; reflexivity]).
Qed.

Lemma settings_round_trip_witness :
  let w := fresh_world default_settings [] sample_store 0%nat in
  (Forall (λ item, ∃ v, _settings (this w) !! item.1 = Some v
                        ∧ sample_convert item.2 v = Return v) DYNAMIPS_SETTING_TYPES
   ∧ map_Forall (λ name _, is_Some (dict_get DYNAMIPS_SETTING_TYPES name))
       (_settings (this w))
   ∧ catalog_loads sample_convert sample_toInt (persisted w))
  ∧ ∃ w1 w2, _saveSettings w = (Return tt, w1)
      ∧ __init__ "dynamips" sample_convert sample_toInt sample_format w1 = (Return tt, w2)
      ∧ _settings (this w2) = _settings (this w)
      ∧ persisted w2 = persisted w1.
Proof.
  assert (H1 : Forall (λ item, ∃ v, default_settings !! item.1 = Some v
                                    ∧ sample_convert item.2 v = Return v)
                 DYNAMIPS_SETTING_TYPES).
  { repeat constructor; eexists; (split; [vm_compute; reflexivity | reflexivity]). }
  assert (H2 : map_Forall (λ name _, is_Some (dict_get DYNAMIPS_SETTING_TYPES name))
                 default_settings).
  { apply (bool_decide_unpack _). vm_compute. exact I. }
  split; [split; [exact H1 | split; [exact H2 | exact sample_store_catalog_loads]]|].
  exact (settings_round_trip "dynamips" sample_convert sample_toInt sample_format
           (fresh_world default_settings [] sample_store 0%nat)
           H1 H2 sample_store_catalog_loads).
Defined.

Lemma setSettings_then_init_witness :
  let w := fresh_world default_settings [] sample_store 0%nat in
  let new_settings : gmap string pyvalue :=
    {[ "path" := VStr "/usr/bin/dynamips"; "ghost_ios_support" := VBool false ]} in
  (dom new_settings ⊆ dom (_settings (this w))
   ∧ Forall (λ item, ∃ v, (new_settings ∪ _settings (this w)) !! item.1 = Some v
                          ∧ sample_convert item.2 v = Return v) DYNAMIPS_SETTING_TYPES
   ∧ map_Forall (λ name _, is_Some (dict_get DYNAMIPS_SETTING_TYPES name))
       (_settings (this w))
   ∧ catalog_loads sample_convert sample_toInt (persisted w))
  ∧ ∃ w1 w2, setSettings new_settings w = (Return tt, w1)
      ∧ __init__ "dynamips" sample_convert sample_toInt sample_format w1 = (Return tt, w2)
      ∧ _settings (this w2) = new_settings ∪ _settings (this w).
Proof.
  set (new_settings := {[ "path" := VStr "/usr/bin/dynamips";
                          "ghost_ios_support" := VBool false ]} : gmap string pyvalue).
  assert (H0 : dom new_settings ⊆ dom default_settings).
  { apply (bool_decide_unpack _). vm_compute. exact I. }
  assert (H1 : Forall (λ item, ∃ v, (new_settings ∪ default_settings) !! item.1 = Some v
                                    ∧ sample_convert item.2 v = Return v)
                 DYNAMIPS_SETTING_TYPES).
  { repeat constructor; eexists; (split; [vm_compute; reflexivity | reflexivity]). }
  assert (H2 : map_Forall (λ name _, is_Some (dict_get DYNAMIPS_SETTING_TYPES name))
                 default_settings).
  { apply (bool_decide_unpack _). vm_compute. exact I. }
  split; [split; [exact H0 | split; [exact H1 | split;
            [exact H2 | exact sample_store_catalog_loads]]]|].
  exact (setSettings_then_init "dynamips" sample_convert sample_toInt sample_format
           (fresh_world default_settings [] sample_store 0%nat) new_settings
           H0 H1 H2 sample_store_catalog_loads).
Defined.

Lemma catalog_round_trip_witness :
  let w := fresh_world ∅ sample_images sample_store 0%nat in
  (sample_toInt (VInt (Z.of_nat (length (_ios_images (this w)))))
   = Z.of_nat (length (_ios_images (this w)))
   ∧ Forall (canonical_entry sample_convert sample_format) (_ios_images (this w))
   ∧ NoDup (_ios_images (this w)).*1
   ∧ settings_load sample_convert "dynamips" (persisted w))
  ∧ ∃ w1 w2, _saveIOSImages w = (Return tt, w1)
      ∧ __init__ "dynamips" sample_convert sample_toInt sample_format w1 = (Return tt, w2)
      ∧ _ios_images (this w2) = _ios_images (this w)
      ∧ persisted w2 = persisted w1.
Proof.
  assert (H3 : Forall (canonical_entry sample_convert sample_format) sample_images).
  { repeat constructor; eexists _, _, _, _, _, _, _; repeat split; reflexivity. }
  assert (H4 : NoDup sample_images.*1).
  { apply (bool_decide_unpack _). vm_compute. exact I. }
  split; [split; [reflexivity | split; [exact H3 | split;
            [exact H4 | exact sample_store_settings_load]]]|].
  exact (catalog_round_trip "dynamips" sample_convert sample_toInt sample_format
           (fresh_world ∅ sample_images sample_store 0%nat)
           eq_refl H3 H4 sample_store_settings_load).
Defined.

Lemma setIOSImages_then_init_witness :
  let w := fresh_world ∅ [("local:old", ∅)] sample_store 0%nat in
  (sample_toInt (VInt (Z.of_nat (length sample_images))) = Z.of_nat (length sample_images)
   ∧ Forall (canonical_entry sample_convert sample_format) sample_images
   ∧ NoDup sample_images.*1
   ∧ settings_load sample_convert "dynamips" (persisted w))
  ∧ ∃ w1 w2, setIOSImages sample_images w = (Return tt, w1)
      ∧ _ios_images (this w1) = sample_images
      ∧ __init__ "dynamips" sample_convert sample_toInt sample_format w1 = (Return tt, w2)
      ∧ _ios_images (this w2) = sample_images.
Proof.
  assert (H3 : Forall (canonical_entry sample_convert sample_format) sample_images).
  { repeat constructor; eexists _, _, _, _, _, _, _; repeat split; reflexivity. }
  assert (H4 : NoDup sample_images.*1).
  { apply (bool_decide_unpack _). vm_compute. exact I. }
  split; [split; [reflexivity | split; [exact H3 | split;
            [exact H4 | exact sample_store_settings_load]]]|].
  exact (setIOSImages_then_init "dynamips" sample_convert sample_toInt sample_format
           (fresh_world ∅ [("local:old", ∅)] sample_store 0%nat) sample_images
           eq_refl H3 H4 sample_store_settings_load).
Defined.

End DynamipsInit.

(** ** Dynamips: making a node and choosing its image *)

Module DynamipsNodes.
Import Dynamips.

(** X25. [createNode] never raises. It gives a node exactly when the local
    server is connected or accepts the connection; the node is then bound
    to the local server, which is put at the end of the servers list and
    is sent all the settings. Otherwise it gives [None] and only the
    connection attempt has happened. A connection is attempted only when
    there was none, and nothing is saved. *)
Theorem createNode_outcome (cls : node_class) (reachable : bool) (w : world) :
  ∃ r w', createNode cls reachable w = (Return r, w')
    ∧ r = (if connected w || reachable then Some (cls, local_server w) else None)
    ∧ _servers (this w')
      = _servers (this w)
        ++ (if connected w || reachable then [local_server w] else [])
    ∧ connected w' = connected w || reachable
    ∧ trace w'
      = trace w
        ++ (if connected w then [] else [connect (local_server w)])
        ++ (if connected w || reachable
            then [send_notification (local_server w) "dynamips.settings"
                    (_settings (this w))]
            else [])
    ∧ persisted w' = persisted w
    ∧ _settings (this w') = _settings (this w)
    ∧ _ios_images (this w') = _ios_images (this w).
Proof.
  unfold createNode. destruct (connected w) eqn:Hc; [|destruct reachable].
  - eexists _, _. split; [reflexivity|]. simpl. by rewrite Hc.
  - eexists _, _. split.
    + unfold server_connect, mbind, M_bind, gets, emit, modify. simpl. reflexivity.
    + simpl. rewrite <- app_assoc. done.
  - eexists _, _. split.
    + unfold server_connect, mbind, M_bind, gets, emit, modify, lift. simpl. reflexivity.
    + simpl. rewrite !app_nil_r. by rewrite Hc.
Qed.

(** The loop of [_allocateIOSImage] gives a record exactly when it is the
    first one of the list whose platform equals the wanted one, every
    record before it having a platform that differs. *)
Lemma first_image_Some platform (images : list ios_image) image :
  first_image platform images = Return (Some image)
  ↔ ∃ i q, images !! i = Some image
      ∧ image !! "platform" = Some q ∧ py_eq q platform = true
      ∧ ∀ j e, (j < i)%nat → images !! j = Some e →
          ∃ q', e !! "platform" = Some q' ∧ py_eq q' platform = false.
Proof.
  induction images as [|first rest IH].
  - split; [done|]. by intros (i & q & Hi & _).
  - cbn [first_image]. unfold mbind, result_bind, lookup_item.
    destruct (first !! "platform") as [p|] eqn:Hp.
    + destruct (py_eq p platform) eqn:Heq.
      * split.
        -- intros [= <-]. exists 0%nat, p. repeat split; try done. intros j e Hj. lia.
        -- intros (i & q & Hi & Hq & Hqp & Hbefore). destruct i as [|i].
           ++ by injection Hi as ->.
           ++ destruct (Hbefore 0%nat first) as (q' & Hq' & Hne); [lia | done |].
              congruence.
      * rewrite IH. split.
        -- intros (i & q & Hi & Hq & Hqp & Hbefore). exists (S i), q.
           repeat split; try done. intros [|j] e Hj He.
           ++ injection He as <-. eauto.
           ++ apply (Hbefore j); [lia | done].
        -- intros (i & q & Hi & Hq & Hqp & Hbefore). destruct i as [|i].
           ++ injection Hi as ->. congruence.
           ++ exists i, q. repeat split; try done. intros j e Hj He.
              apply (Hbefore (S j)); [lia | done].
    + split; [done|]. intros (i & q & Hi & Hq & Hqp & Hbefore). destruct i as [|i].
      * injection Hi as ->. congruence.
      * destruct (Hbefore 0%nat first) as (q' & Hq' & _); [lia | done |]. congruence.
Qed.

(** X26. [_allocateIOSImage(node)] returns an image exactly when the node has a
    platform and the image is the first record of the catalogue, in its
    order, whose platform equals it, every record before it having a
    platform that differs. It changes nothing. *)
Theorem allocateIOSImage_first (n : node) (w : world) (image : ios_image) :
  (_allocateIOSImage n w).2 = w
  ∧ ((_allocateIOSImage n w).1 = Return (Some image)
     ↔ ∃ platform i entry q,
         node_settings n !! "platform" = Some platform
         ∧ _ios_images (this w) !! i = Some entry ∧ entry.2 = image
         ∧ image !! "platform" = Some q ∧ py_eq q platform = true
         ∧ ∀ j e, (j < i)%nat → _ios_images (this w) !! j = Some e →
             ∃ q', e.2 !! "platform" = Some q' ∧ py_eq q' platform = false).
Proof.
  unfold _allocateIOSImage, mbind, M_bind, lift, gets, lookup_item.
  destruct (node_settings n !! "platform") as [platform|] eqn:Hn; simpl.
  - split; [done|]. rewrite first_image_Some. split.
    + intros (i & q & Hi & Hq & Hqp & Hbefore).
      rewrite list_lookup_fmap in Hi. apply fmap_Some in Hi as (entry & He & ->).
      exists platform, i, entry, q. repeat split; try done.
      intros j e Hj Hje. apply (Hbefore j); [done|].
      rewrite list_lookup_fmap. unfold dict in *. by rewrite Hje.
    + intros (p & i & entry & q & [= <-] & Hi & <- & Hq & Hqp & Hbefore).
      exists i, q. repeat split; try done.
      * rewrite list_lookup_fmap. unfold dict in *. by rewrite Hi.
      * intros j e Hj Hje. rewrite list_lookup_fmap in Hje.
        apply fmap_Some in Hje as (e' & He & ->). by apply (Hbefore j).
  - split; [done|]. split; [done|]. by intros (p & i & entry & q & [=] & _).
Qed.

End DynamipsNodes.
